(** * The plugin host of libsinsp: [sinsp_plugin]

    A shallow embedding of [userspace/libsinsp/plugin.cpp] and of the inline
    members of [userspace/libsinsp/plugin.h], and the properties of the
    loader, of the initialisation protocol and of the capability adapters
    that are established on it.

    Conventions of the embedding:
    - a C++ member function that can throw returns an [outcome];
    - a member function that mutates the plugin object returns the object
      it leaves behind next to its outcome, also when it throws;
    - a [const char*] is an [option string] ([None] is [NULL]);
    - a function pointer of the plugin's vtable is an [option] of a
      function ([None] is [NULL]); the plugin's entry points are functions
      of what they receive, the state handle standing for the private state
      of the plugin at the time of the call;
    - integers ([plugin_caps_t], [ss_plugin_rc], flags, handles) are [Z]. *)

From Stdlib Require Import ZArith String Ascii List Lia DecimalString.
From stdpp Require Import base option list gmap strings.

Local Open Scope string_scope.
Local Open Scope Z_scope.

(** ** Exceptions and outcomes *)

(** [sinsp_exception] carries its [what()] text.  [Json_LogicError] is what
    jsoncpp raises when a [Json::Value] is used at the wrong type, and
    [valijson_exception] what the schema parser raises on a schema it
    cannot populate. *)
Inductive exn : Type :=
| sinsp_exception (msg : string)
| Json_LogicError
| valijson_exception.

(** [Fault] is a call through a [NULL] function pointer. *)
Inductive outcome (A : Type) : Type :=
| Ret (a : A)
| Throw (e : exn)
| Fault.

Arguments Ret {A} a.
Arguments Throw {A} e.
Arguments Fault {A}.

#[export] Instance outcome_ret : MRet outcome := fun A a => Ret a.

#[export] Instance outcome_bind : MBind outcome := fun A B f c =>
  match c with
  | Ret a => f a
  | Throw e => Throw e
  | Fault => Fault
  end.

(** Calling through a function pointer that may be [NULL]. *)
Definition call {F : Type} (fp : option F) : outcome F :=
  match fp with
  | Some f => Ret f
  | None => Fault
  end.

Fixpoint mapM {A B : Type} (f : A -> outcome B) (l : list A) : outcome (list B) :=
  match l with
  | [] => Ret []
  | x :: l' => y ← f x; ys ← mapM f l'; Ret (y :: ys)
  end.

Fixpoint foldM {A B : Type} (f : B -> A -> outcome B) (b : B) (l : list A) : outcome B :=
  match l with
  | [] => Ret b
  | x :: l' => b' ← f b x; foldM f b' l'
  end.

Definition returns {A : Type} (c : outcome A) : Prop := ∃ a, c = Ret a.

(** ** C strings *)

Definition NUL : ascii := Ascii.zero.

(** The characters of [s] before its first NUL: what a [const char*]
    obtained from [s.c_str()] denotes. *)
Fixpoint c_str (s : string) : string :=
  match s with
  | EmptyString => EmptyString
  | String c s' => if Ascii.eqb c NUL then EmptyString else String c (c_str s')
  end.

Fixpoint string_take (n : nat) (s : string) : string :=
  match n, s with
  | S n', String c s' => String c (string_take n' s')
  | _, _ => EmptyString
  end.

(** The contents of [dst] after [strlcpy(dst, src.c_str(), size)]: at most
    [size - 1] characters of the C string, NUL-terminated. *)
Definition strlcpy (src : string) (size : nat) : string :=
  string_take (Nat.pred size) (c_str src).

(** [str_from_alloc_charbuf]: a std::string from a possibly [NULL] charbuf. *)
Definition str_from_alloc_charbuf (charbuf : option string) : string :=
  match charbuf with
  | Some s => s
  | None => ""
  end.

Definition string_empty (s : string) : bool :=
  match s with
  | EmptyString => true
  | String _ _ => false
  end.

(** [std::to_string] on an unsigned or signed integer. *)
Definition to_string (z : Z) : string := NilZero.string_of_int (Z.to_int z).

(** [std::accumulate(begin, end, std::string(""))]. *)
Definition accumulate (l : list string) : string :=
  fold_left String.append l "".

Fixpoint is_prefix (p s : string) : bool :=
  match p, s with
  | EmptyString, _ => true
  | String a p', String b s' => Ascii.eqb a b && is_prefix p' s'
  | String _ _, EmptyString => false
  end.

(** [contains sub s]: [sub] occurs in [s]. *)
Fixpoint contains (sub s : string) : bool :=
  is_prefix sub s ||
  match s with
  | EmptyString => false
  | String _ s' => contains sub s'
  end.

(** ** jsoncpp values *)

Module Json.

(** [Json::Value], by [Json::ValueType].  A real number is kept as the
    text [asString] gives for it.  An object is the list of its members;
    a member is looked up by the first binding of its key. *)
#[local] Unset Elimination Schemes.
Inductive Value : Type :=
| nullValue
| intValue (z : Z)
| uintValue (z : Z)
| realValue (image : string)
| stringValue (s : string)
| booleanValue (b : bool)
| arrayValue (elems : list Value)
| objectValue (members : list (string * Value)).
#[local] Set Elimination Schemes.

Definition isNull (v : Value) : bool :=
  match v with nullValue => true | _ => false end.

Definition isBool (v : Value) : bool :=
  match v with booleanValue _ => true | _ => false end.

Definition isString (v : Value) : bool :=
  match v with stringValue _ => true | _ => false end.

Definition isArray (v : Value) : bool :=
  match v with arrayValue _ => true | _ => false end.

Definition isObject (v : Value) : bool :=
  match v with objectValue _ => true | _ => false end.

Definition isNumeric (v : Value) : bool :=
  match v with intValue _ | uintValue _ | realValue _ => true | _ => false end.

(** [isConvertibleTo(Json::stringValue)]. *)
Definition isConvertibleTo_stringValue (v : Value) : bool :=
  isNumeric v || isBool v || isString v || isNull v.

Definition asBool (v : Value) : bool :=
  match v with booleanValue b => b | _ => false end.

(** [asString]: arrays and objects are not convertible. *)
Definition asString (v : Value) : outcome string :=
  match v with
  | nullValue => Ret ""
  | stringValue s => Ret s
  | booleanValue b => Ret (if b then "true" else "false")
  | intValue z | uintValue z => Ret (to_string z)
  | realValue image => Ret image
  | arrayValue _ | objectValue _ => Throw Json_LogicError
  end.

Fixpoint find (key : string) (members : list (string * Value)) : option Value :=
  match members with
  | [] => None
  | (k, v) :: rest => if String.eqb k key then Some v else find key rest
  end.

(** [v.get(key, Json::Value::null)]. *)
Definition get (v : Value) (key : string) : outcome Value :=
  match v with
  | nullValue => Ret nullValue
  | objectValue members => Ret (default nullValue (find key members))
  | _ => Throw Json_LogicError
  end.

(** [v[key]] on a non-const value.  A null [v] becomes an object and a
    missing member is created null; neither is observable through [get]
    or a later subscript, which read null in both cases. *)
Definition subscript (v : Value) (key : string) : outcome Value :=
  match v with
  | nullValue => Ret nullValue
  | objectValue members => Ret (default nullValue (find key members))
  | _ => Throw Json_LogicError
  end.

(** The elements a range-for or an index loop up to [size()] visits,
    on a value already known to be an array. *)
Definition elements (v : Value) : list Value :=
  match v with
  | arrayValue elems => elems
  | _ => []
  end.

End Json.

(** ** Flag words *)

(** [flags & mask], read as a condition. *)
Definition has_flag (flags mask : Z) : bool := negb (Z.land flags mask =? 0).

(** The masks of [l] are single bits, no two of them the same bit. *)
Definition distinct_bits (l : list Z) : Prop :=
  ∃ ks : list Z, NoDup ks ∧ Forall (Z.le 0) ks ∧ l = map (Z.shiftl 1) ks.

(** ** Data that crosses the plugin boundary *)

(** [ppm_param_type], the enumerators [m_pt_lut] maps to. *)
Inductive ppm_param_type : Type :=
| PT_CHARBUF | PT_UINT64 | PT_RELTIME | PT_ABSTIME | PT_BOOL
| PT_IPV4ADDR | PT_IPV4NET | PT_IPV6ADDR | PT_IPV6NET | PT_IPNET.

Inductive ppm_print_format : Type := PF_NA | PF_DEC.

Module filtercheck_field_info.
Record t : Type := {
  m_type : ppm_param_type;
  m_flags : Z;
  m_print_format : ppm_print_format;
  m_name : string;
  m_display : string;
  m_description : string }.

Definition with_flags (tf : t) (flags : Z) : t :=
  {| m_type := m_type tf; m_flags := flags;
     m_print_format := m_print_format tf; m_name := m_name tf;
     m_display := m_display tf; m_description := m_description tf |}.

(** [tf.m_flags = (filtercheck_field_flags) ((int) tf.m_flags | (int) flag)]. *)
Definition or_flag (tf : t) (flag : Z) : t :=
  with_flags tf (Z.lor (m_flags tf) flag).
End filtercheck_field_info.

(** The plugin type look-up table [m_pt_lut] of [plugin.h]. *)
Definition m_pt_lut (ftype : string) : option ppm_param_type :=
  if String.eqb ftype "string" then Some PT_CHARBUF
  else if String.eqb ftype "uint64" then Some PT_UINT64
  else if String.eqb ftype "reltime" then Some PT_RELTIME
  else if String.eqb ftype "abstime" then Some PT_ABSTIME
  else if String.eqb ftype "bool" then Some PT_BOOL
  else if String.eqb ftype "ipv4addr" then Some PT_IPV4ADDR
  else if String.eqb ftype "ipv4net" then Some PT_IPV4NET
  else if String.eqb ftype "ipv6addr" then Some PT_IPV6ADDR
  else if String.eqb ftype "ipv6net" then Some PT_IPV6NET
  else if String.eqb ftype "ipnet" then Some PT_IPNET
  else None.

(** [sinsp_plugin::open_param]. *)
Record open_param : Type := {
  value : string;
  desc : string;
  separator : string }.

(** What the host reads of a [sinsp_evt]: the raw event pointer, the event
    number, the source index and name, and the data of parameter 1. *)
Record sinsp_evt : Type := {
  m_pevt : Z;
  get_num : Z;
  get_source_idx : Z;
  get_source_name : option string;
  param1_val : list ascii }.

Record ss_plugin_event_input : Type := {
  evt : Z;
  evtnum : Z;
  evtsrc_idx : Z;
  evtsrc_name : option string }.

(** [ss_plugin_init_input]: the configuration and whether a tables vtable
    is passed.  The owner and its last-error callback are the plugin object
    itself and are left out, here and in the other inputs. *)
Record ss_plugin_init_input : Type := {
  config : string;
  tables : bool }.

Record ss_plugin_field_extract_input : Type := {
  in_num_fields : Z;
  in_fields : Z }.

Module valijson.
(** [valijson::ValidationResults::Error]. *)
Record Error : Type := {
  context : list string;
  description : string }.
End valijson.

(** [sinsp_plugin::is_source_compatible]. *)
Definition is_source_compatible (sources : gset string) (source : string) : bool :=
  bool_decide (sources = ∅) || bool_decide (source ∈ sources).

Definition s_not_init_err : string := "plugin capability used before init".

Definition s_init_twice_err : string := "plugin has been initialized twice".

(** ** The plugin's vtable and the loader's handle *)

Module plugin_api.
(** The entry points of [plugin_api] the host uses.  [open], [close] and
    [next_batch] are only copied, never called, and are kept as addresses.
    [get_init_schema] receives the schema type the host has preset and
    returns the one it leaves; the event-type getters return the array of
    the [numtypes] codes they announce, or [NULL]. *)
Record t : Type := {
  get_name : option (option string);
  get_description : option (option string);
  get_contact : option (option string);
  get_version : option (option string);
  get_last_error : option (Z -> option string);
  init : option (ss_plugin_init_input -> Z * Z);
  destroy : option (Z -> unit);
  get_init_schema : option (Z -> option string * Z);
  get_id : option Z;
  get_event_source : option (option string);
  open : Z;
  close : Z;
  next_batch : Z;
  get_progress : option (Z -> Z -> option string * Z);
  event_to_string : option (Z -> ss_plugin_event_input -> option string);
  list_open_params : option (Z -> option string * Z);
  get_fields : option (option string);
  extract_fields :
    option (Z -> ss_plugin_event_input -> ss_plugin_field_extract_input -> Z);
  get_extract_event_sources : option (option string);
  get_extract_event_types : option (option (list Z));
  parse_event : option (Z -> ss_plugin_event_input -> Z);
  get_parse_event_sources : option (option string);
  get_parse_event_types : option (option (list Z)) }.
End plugin_api.

Record plugin_handle_t : Type := { api : plugin_api.t }.

Record scap_source_plugin : Type := {
  sp_state : Z;
  sp_name : option string;
  sp_id : Z;
  sp_open : Z;
  sp_close : Z;
  sp_get_last_error : option (Z -> option string);
  sp_next_batch : Z;
  sp_handle : Z }.

(** [sinsp_version]: the host reads [m_valid] only; the numbers parsed out
    of the text are a function of it and the text is kept in their place. *)
Record sinsp_version : Type := {
  m_version_text : string;
  m_valid : bool }.

(** ** What the sources take from elsewhere

    Constants, types and functions of headers and libraries that are not
    part of the sources: the capability bits and return codes of the plugin
    API, the enumerators of [filtercheck_field_flags], the sizes of the
    character arrays of [filtercheck_field_info], the event tables, the
    plugin loader, [Json::Reader], and the valijson validator (schema
    population and validation in one step, with the error queue in the
    order [popError] empties it). *)
Class host_env : Type := {
  CAP_NONE : Z;
  CAP_SOURCING : Z;
  CAP_EXTRACTION : Z;
  CAP_PARSING : Z;
  SS_PLUGIN_SUCCESS : Z;
  SS_PLUGIN_SCHEMA_NONE : Z;
  SS_PLUGIN_SCHEMA_JSON : Z;
  EPF_NONE : Z;
  EPF_ARG_REQUIRED : Z;
  EPF_TABLE_ONLY : Z;
  EPF_INFO : Z;
  EPF_CONVERSATION : Z;
  EPF_IS_LIST : Z;
  EPF_ARG_ALLOWED : Z;
  EPF_ARG_INDEX : Z;
  EPF_ARG_KEY : Z;
  sizeof_m_name : nat;
  sizeof_m_display : nat;
  sizeof_m_description : nat;
  sinsp_syscall_event_source_name : string;
  PPME_PLUGINEVENT_E : Z;
  all_event_set : gset Z;
  sinsp_version_valid : string -> bool;
  plugin_load : string -> plugin_handle_t + string;
  plugin_load_api : plugin_api.t -> plugin_handle_t + string;
  plugin_check_required_api_version : plugin_handle_t -> option string;
  plugin_check_required_symbols : plugin_handle_t -> option string;
  plugin_get_capabilities : plugin_handle_t -> Z;
  Reader_parse : string -> option Json.Value;
  valijson_validate :
    Json.Value -> Json.Value -> outcome (bool * list valijson.Error) }.

(** The flags of a field are single bits, no two the same, and [EPF_NONE]
    is no bit at all. *)
Definition field_flags_are_bits `{host_env} : Prop :=
  EPF_NONE = 0 ∧
  distinct_bits [EPF_ARG_REQUIRED; EPF_TABLE_ONLY; EPF_INFO; EPF_CONVERSATION;
                 EPF_IS_LIST; EPF_ARG_ALLOWED; EPF_ARG_INDEX; EPF_ARG_KEY].

(** [std::isprint] in the "C" locale. *)
Definition isprint (c : ascii) : bool :=
  let n := Z.of_N (N_of_ascii c) in (32 <=? n) && (n <=? 126).

(** ** The plugin object *)

(** The members of [sinsp_plugin] that [plugin.cpp] reads or writes in the
    functions embedded here.  The table registry and the table maps belong
    to the table bridge. *)
Record sinsp_plugin : Type := {
  m_caps : Z;
  m_name : string;
  m_description : string;
  m_contact : string;
  m_plugin_version : sinsp_version;
  m_id : Z;
  m_event_source : string;
  m_inited : bool;
  m_state : Z;
  m_handle : plugin_handle_t;
  m_scap_source_plugin : scap_source_plugin;
  m_fields : list filtercheck_field_info.t;
  m_extract_event_sources : gset string;
  m_extract_event_codes : gset Z;
  m_parse_event_sources : gset string;
  m_parse_event_codes : gset Z }.

(** Assignments to members. *)
Definition set_descriptive (p : sinsp_plugin)
    (nm ds ct : string) (ver : sinsp_version) : sinsp_plugin :=
  {| m_caps := m_caps p; m_name := nm; m_description := ds; m_contact := ct;
     m_plugin_version := ver; m_id := m_id p;
     m_event_source := m_event_source p; m_inited := m_inited p;
     m_state := m_state p; m_handle := m_handle p;
     m_scap_source_plugin := m_scap_source_plugin p; m_fields := m_fields p;
     m_extract_event_sources := m_extract_event_sources p;
     m_extract_event_codes := m_extract_event_codes p;
     m_parse_event_sources := m_parse_event_sources p;
     m_parse_event_codes := m_parse_event_codes p |}.

Definition set_m_caps (p : sinsp_plugin) (c : Z) : sinsp_plugin :=
  {| m_caps := c; m_name := m_name p; m_description := m_description p;
     m_contact := m_contact p; m_plugin_version := m_plugin_version p;
     m_id := m_id p; m_event_source := m_event_source p;
     m_inited := m_inited p; m_state := m_state p; m_handle := m_handle p;
     m_scap_source_plugin := m_scap_source_plugin p; m_fields := m_fields p;
     m_extract_event_sources := m_extract_event_sources p;
     m_extract_event_codes := m_extract_event_codes p;
     m_parse_event_sources := m_parse_event_sources p;
     m_parse_event_codes := m_parse_event_codes p |}.

Definition set_source (p : sinsp_plugin) (id : Z) (src : string) : sinsp_plugin :=
  {| m_caps := m_caps p; m_name := m_name p; m_description := m_description p;
     m_contact := m_contact p; m_plugin_version := m_plugin_version p;
     m_id := id; m_event_source := src;
     m_inited := m_inited p; m_state := m_state p; m_handle := m_handle p;
     m_scap_source_plugin := m_scap_source_plugin p; m_fields := m_fields p;
     m_extract_event_sources := m_extract_event_sources p;
     m_extract_event_codes := m_extract_event_codes p;
     m_parse_event_sources := m_parse_event_sources p;
     m_parse_event_codes := m_parse_event_codes p |}.

Definition set_m_inited (p : sinsp_plugin) (b : bool) : sinsp_plugin :=
  {| m_caps := m_caps p; m_name := m_name p; m_description := m_description p;
     m_contact := m_contact p; m_plugin_version := m_plugin_version p;
     m_id := m_id p; m_event_source := m_event_source p;
     m_inited := b; m_state := m_state p; m_handle := m_handle p;
     m_scap_source_plugin := m_scap_source_plugin p; m_fields := m_fields p;
     m_extract_event_sources := m_extract_event_sources p;
     m_extract_event_codes := m_extract_event_codes p;
     m_parse_event_sources := m_parse_event_sources p;
     m_parse_event_codes := m_parse_event_codes p |}.

Definition set_m_state (p : sinsp_plugin) (st : Z) : sinsp_plugin :=
  {| m_caps := m_caps p; m_name := m_name p; m_description := m_description p;
     m_contact := m_contact p; m_plugin_version := m_plugin_version p;
     m_id := m_id p; m_event_source := m_event_source p;
     m_inited := m_inited p; m_state := st; m_handle := m_handle p;
     m_scap_source_plugin := m_scap_source_plugin p; m_fields := m_fields p;
     m_extract_event_sources := m_extract_event_sources p;
     m_extract_event_codes := m_extract_event_codes p;
     m_parse_event_sources := m_parse_event_sources p;
     m_parse_event_codes := m_parse_event_codes p |}.

Definition set_m_scap_source_plugin (p : sinsp_plugin)
    (sp : scap_source_plugin) : sinsp_plugin :=
  {| m_caps := m_caps p; m_name := m_name p; m_description := m_description p;
     m_contact := m_contact p; m_plugin_version := m_plugin_version p;
     m_id := m_id p; m_event_source := m_event_source p;
     m_inited := m_inited p; m_state := m_state p; m_handle := m_handle p;
     m_scap_source_plugin := sp; m_fields := m_fields p;
     m_extract_event_sources := m_extract_event_sources p;
     m_extract_event_codes := m_extract_event_codes p;
     m_parse_event_sources := m_parse_event_sources p;
     m_parse_event_codes := m_parse_event_codes p |}.

Definition set_extraction (p : sinsp_plugin) (fs : list filtercheck_field_info.t)
    (sources : gset string) (codes : gset Z) : sinsp_plugin :=
  {| m_caps := m_caps p; m_name := m_name p; m_description := m_description p;
     m_contact := m_contact p; m_plugin_version := m_plugin_version p;
     m_id := m_id p; m_event_source := m_event_source p;
     m_inited := m_inited p; m_state := m_state p; m_handle := m_handle p;
     m_scap_source_plugin := m_scap_source_plugin p; m_fields := fs;
     m_extract_event_sources := sources;
     m_extract_event_codes := codes;
     m_parse_event_sources := m_parse_event_sources p;
     m_parse_event_codes := m_parse_event_codes p |}.

Definition set_parsing (p : sinsp_plugin)
    (sources : gset string) (codes : gset Z) : sinsp_plugin :=
  {| m_caps := m_caps p; m_name := m_name p; m_description := m_description p;
     m_contact := m_contact p; m_plugin_version := m_plugin_version p;
     m_id := m_id p; m_event_source := m_event_source p;
     m_inited := m_inited p; m_state := m_state p; m_handle := m_handle p;
     m_scap_source_plugin := m_scap_source_plugin p; m_fields := m_fields p;
     m_extract_event_sources := m_extract_event_sources p;
     m_extract_event_codes := m_extract_event_codes p;
     m_parse_event_sources := sources;
     m_parse_event_codes := codes |}.

(** The inline accessors of [plugin.h]. *)
Definition caps (p : sinsp_plugin) : Z := m_caps p.
Definition name (p : sinsp_plugin) : string := m_name p.
Definition description (p : sinsp_plugin) : string := m_description p.
Definition contact (p : sinsp_plugin) : string := m_contact p.
Definition plugin_version (p : sinsp_plugin) : sinsp_version := m_plugin_version p.
Definition id (p : sinsp_plugin) : Z := m_id p.
Definition event_source (p : sinsp_plugin) : string := m_event_source p.
Definition fields (p : sinsp_plugin) : list filtercheck_field_info.t := m_fields p.
Definition extract_event_sources (p : sinsp_plugin) : gset string :=
  m_extract_event_sources p.
Definition extract_event_codes (p : sinsp_plugin) : gset Z :=
  m_extract_event_codes p.
Definition parse_event_sources (p : sinsp_plugin) : gset string :=
  m_parse_event_sources p.
Definition parse_event_codes (p : sinsp_plugin) : gset Z :=
  m_parse_event_codes p.

(** The guard every capability operation opens with. *)
Definition not_init_exception (p : sinsp_plugin) : exn :=
  sinsp_exception (s_not_init_err +:+ ": " +:+ m_name p).

Section Host.

Context `{env : host_env}.

Definition throw {A : Type} (msg : string) : outcome A :=
  Throw (sinsp_exception msg).

(** The object [new sinsp_plugin(handle, treg)] builds. *)
Definition new_sinsp_plugin (handle : plugin_handle_t) : sinsp_plugin :=
  {| m_caps := CAP_NONE; m_name := ""; m_description := ""; m_contact := "";
     m_plugin_version := {| m_version_text := ""; m_valid := false |};
     m_id := 0; m_event_source := ""; m_inited := false; m_state := 0;
     m_handle := handle;
     m_scap_source_plugin :=
       {| sp_state := 0; sp_name := None; sp_id := 0; sp_open := 0;
          sp_close := 0; sp_get_last_error := None; sp_next_batch := 0;
          sp_handle := 0 |};
     m_fields := [];
     m_extract_event_sources := ∅; m_extract_event_codes := ∅;
     m_parse_event_sources := ∅; m_parse_event_codes := ∅ |}.

(** *** [sinsp_plugin::get_last_error] *)
Definition get_last_error (p : sinsp_plugin) : outcome string :=
  if negb (m_inited p) then Throw (not_init_exception p)
  else if negb (m_state p =? 0) then
    f ← call (plugin_api.get_last_error (api (m_handle p)));
    Ret (str_from_alloc_charbuf (f (m_state p)))
  else Ret "Plugin handle or get_last_error function not defined".

(** *** [sinsp_plugin::get_init_schema]: the schema and its type. *)
Definition get_init_schema (p : sinsp_plugin) : string * Z :=
  match plugin_api.get_init_schema (api (m_handle p)) with
  | Some f =>
      let '(schema, schema_type) := f SS_PLUGIN_SCHEMA_NONE in
      (str_from_alloc_charbuf schema, schema_type)
  | None => ("", SS_PLUGIN_SCHEMA_NONE)
  end.

(** *** [sinsp_plugin::validate_init_config_json_schema]

    Returns the configuration string it leaves in [config]. *)
Definition validate_init_config_json_schema
    (p : sinsp_plugin) (config schema : string) : outcome string :=
  match Reader_parse schema with
  | Some (Json.objectValue members) =>
      let schemaJson := Json.objectValue members in
      let config := if string_empty config then "{}" else config in
      match Reader_parse config with
      | None =>
          throw ("error in plugin " +:+ name p
                 +:+ ": init config is not a valid json")
      | Some configJson =>
          '(valid, validationResults) ← valijson_validate schemaJson configJson;
          if negb valid then
            match validationResults with
            | error :: _ =>
                throw ("error in plugin " +:+ name p +:+ " init config: In "
                       +:+ accumulate (valijson.context error) +:+ ", "
                       +:+ valijson.description error)
            | [] =>
                throw ("error in plugin " +:+ name p
                       +:+ " init config: failed parsing with provided schema")
            end
          else Ret config
      end
  | _ =>
      throw ("error in plugin " +:+ name p
             +:+ ": get_init_schema did not return a json object")
  end.

(** *** [sinsp_plugin::validate_init_config]

    The [ASSERT(false)] of the default case is compiled out of release
    builds; the throw that follows it is what is embedded. *)
Definition validate_init_config (p : sinsp_plugin) (config : string)
    : outcome string :=
  let '(schema, schema_type) := get_init_schema p in
  if negb (string_empty schema) && negb (schema_type =? SS_PLUGIN_SCHEMA_NONE)
  then
    if schema_type =? SS_PLUGIN_SCHEMA_JSON
    then validate_init_config_json_schema p config schema
    else throw ("error in plugin " +:+ name p
                +:+ ": get_init_schema returned an unknown schema type "
                +:+ to_string schema_type)
  else Ret config.

(** *** [sinsp_plugin::init]

    Returns the result and the text left in [errstr]. *)
Definition init (p : sinsp_plugin) (config errstr : string)
    : outcome (bool * string) * sinsp_plugin :=
  if m_inited p then
    (Ret (false, s_init_twice_err +:+ ": " +:+ m_name p), p)
  else
    match plugin_api.init (api (m_handle p)) with
    | None => (Ret (false, "init api symbol not found"), p)
    | Some api_init =>
        match validate_init_config p config with
        | Ret conf =>
            let input :=
              {| config := conf;
                 tables := has_flag (m_caps p) (Z.lor CAP_PARSING CAP_EXTRACTION) |} in
            let '(state, rc) := api_init input in
            let p := if negb (state =? 0) then set_m_state p state else p in
            let p := set_m_inited p true in
            if negb (rc =? SS_PLUGIN_SUCCESS) then
              match get_last_error p with
              | Ret e => (Ret (false, "Could not initialize plugin: " +:+ e), p)
              | Throw e => (Throw e, p)
              | Fault => (Fault, p)
              end
            else (Ret (true, errstr), p)
        | Throw e => (Throw e, p)
        | Fault => (Fault, p)
        end
    end.

(** *** [sinsp_plugin::destroy]

    The plugin's [destroy] is called on the state when both are there. *)
Definition destroy (p : sinsp_plugin) : sinsp_plugin :=
  let p := set_m_inited p false in
  if negb (m_state p =? 0) && bool_decide (is_Some (plugin_api.destroy (api (m_handle p))))
  then set_m_state p 0
  else p.

(** *** [sinsp_plugin::resolve_dylib_field_arg] *)

(** One of the three boolean properties of the [arg] object, which the
    source handles by three blocks of the same shape: [set] is what the
    field becomes when the property is [true]. *)
Definition arg_property (p : sinsp_plugin) (root : Json.Value) (key : string)
    (set : filtercheck_field_info.t -> filtercheck_field_info.t)
    (tf : filtercheck_field_info.t) : outcome filtercheck_field_info.t :=
  prop ← Json.get root key;
  if negb (Json.isNull prop) then
    if negb (Json.isBool prop) then
      throw ("error in plugin " +:+ m_name p +:+ ": field "
             +:+ filtercheck_field_info.m_name tf +:+ " " +:+ key
             +:+ " property is not boolean")
    else if Json.asBool prop then Ret (set tf) else Ret tf
  else Ret tf.

Definition resolve_dylib_field_arg (p : sinsp_plugin) (root : Json.Value)
    (tf : filtercheck_field_info.t) : outcome filtercheck_field_info.t :=
  if Json.isNull root then Ret tf
  else
    tf ← arg_property p root "isRequired"
           (fun tf => filtercheck_field_info.or_flag tf EPF_ARG_REQUIRED) tf;
    tf ← arg_property p root "isIndex"
           (fun tf => filtercheck_field_info.or_flag
                        (filtercheck_field_info.or_flag tf EPF_ARG_INDEX)
                        EPF_ARG_ALLOWED) tf;
    tf ← arg_property p root "isKey"
           (fun tf => filtercheck_field_info.or_flag
                        (filtercheck_field_info.or_flag tf EPF_ARG_KEY)
                        EPF_ARG_ALLOWED) tf;
    let flags := filtercheck_field_info.m_flags tf in
    if has_flag flags EPF_ARG_REQUIRED
       && negb (has_flag flags EPF_ARG_INDEX || has_flag flags EPF_ARG_KEY)
    then
      throw ("error in plugin " +:+ m_name p +:+ ": field "
             +:+ filtercheck_field_info.m_name tf
             +:+ " arg has isRequired true, but none of isKey nor isIndex is true")
    else Ret tf.

(** One value of the [properties] array. *)
Definition resolve_property (p : sinsp_plugin) (fname : string)
    (tf : filtercheck_field_info.t) (prop : Json.Value)
    : outcome filtercheck_field_info.t :=
  if negb (Json.isString prop) then
    throw ("error in plugin " +:+ name p +:+ ": field " +:+ fname
           +:+ " properties value is not string ")
  else
    str ← Json.asString prop;
    if String.eqb str "hidden"
    then Ret (filtercheck_field_info.or_flag tf EPF_TABLE_ONLY)
    else if String.eqb str "info"
    then Ret (filtercheck_field_info.or_flag tf EPF_INFO)
    else if String.eqb str "conversation"
    then Ret (filtercheck_field_info.or_flag tf EPF_CONVERSATION)
    else Ret tf.

(** The body of the loop of [resolve_dylib_symbols] over the array that
    [get_fields] returns: the field that entry [root[j]] declares. *)
Definition resolve_dylib_field (p : sinsp_plugin) (entry : Json.Value)
    : outcome filtercheck_field_info.t :=
  jvtype ← Json.subscript entry "type";
  ftype ← Json.asString jvtype;
  if string_empty ftype then
    throw ("error in plugin " +:+ name p +:+ ": field JSON entry has no type")
  else
  jvname ← Json.subscript entry "name";
  fname ← Json.asString jvname;
  if string_empty fname then
    throw ("error in plugin " +:+ name p +:+ ": field JSON entry has no name")
  else
  jvdisplay ← Json.subscript entry "display";
  fdisplay ← Json.asString jvdisplay;
  jvdesc ← Json.subscript entry "desc";
  fdesc ← Json.asString jvdesc;
  if string_empty fdesc then
    throw ("error in plugin " +:+ name p +:+ ": field JSON entry has no desc")
  else
  match m_pt_lut ftype with
  | None =>
      throw ("error in plugin " +:+ name p +:+ ": invalid field type " +:+ ftype)
  | Some type =>
      let tf :=
        {| filtercheck_field_info.m_type := type;
           filtercheck_field_info.m_flags := EPF_NONE;
           filtercheck_field_info.m_print_format := PF_DEC;
           filtercheck_field_info.m_name := strlcpy fname sizeof_m_name;
           filtercheck_field_info.m_display := strlcpy fdisplay sizeof_m_display;
           filtercheck_field_info.m_description :=
             strlcpy fdesc sizeof_m_description |} in
      jvIsList ← Json.get entry "isList";
      tf ← (if negb (Json.isNull jvIsList) then
              if negb (Json.isBool jvIsList) then
                throw ("error in plugin " +:+ name p +:+ ": field " +:+ fname
                       +:+ " isList property is not boolean ")
              else if Json.asBool jvIsList
              then Ret (filtercheck_field_info.or_flag tf EPF_IS_LIST)
              else Ret tf
            else Ret tf);
      arg ← Json.get entry "arg";
      tf ← resolve_dylib_field_arg p arg tf;
      jvProperties ← Json.get entry "properties";
      if negb (Json.isNull jvProperties) then
        if negb (Json.isArray jvProperties) then
          throw ("error in plugin " +:+ name p +:+ ": field " +:+ fname
                 +:+ " properties property is not array ")
        else foldM (resolve_property p fname) tf (Json.elements jvProperties)
      else Ret tf
  end.

(** *** [sinsp_plugin::resolve_dylib_sources_codes]

    The sets it leaves in [sources] and [codes]. *)
Definition insert_source (p : sinsp_plugin) (symsources : string)
    (sources : gset string) (j : Json.Value) : outcome (gset string) :=
  if negb (Json.isConvertibleTo_stringValue j) then
    throw ("error in plugin " +:+ name p +:+ ": '" +:+ symsources
           +:+ "' did not return a json array")
  else
    src ← Json.asString j;
    if negb (string_empty src) then Ret ({[src]} ∪ sources) else Ret sources.

(** The codes the plugin declares: what [codes] holds after the loop
    over the array [get_codes] returns. *)
Definition declared_codes (get_codes : option (option (list Z))) : gset Z :=
  match get_codes with
  | Some (Some types) => foldl (fun codes c => {[c]} ∪ codes) ∅ types
  | _ => ∅
  end.

Definition resolve_dylib_sources_codes (p : sinsp_plugin) (symsources : string)
    (get_sources : option (option string))
    (get_codes : option (option (list Z)))
    : outcome (gset string * gset Z) :=
  sources ←
    match get_sources with
    | Some charbuf =>
        let esources := str_from_alloc_charbuf charbuf in
        if negb (string_empty esources) then
          match Reader_parse esources with
          | Some (Json.arrayValue elems) =>
              foldM (insert_source p symsources) ∅ elems
          | _ =>
              throw ("error in plugin " +:+ name p +:+ ": '" +:+ symsources
                     +:+ "' did not return a json array")
          end
        else Ret ∅
    | None => Ret ∅
    end;
  let sources : gset string :=
    if has_flag (m_caps p) CAP_SOURCING && negb (string_empty (m_event_source p))
    then {[m_event_source p]} ∪ sources
    else sources in
  let codes := declared_codes get_codes in
  if bool_decide (codes = ∅) then
    if is_source_compatible sources sinsp_syscall_event_source_name
    then Ret (sources, all_event_set)
    else Ret (sources, {[PPME_PLUGINEVENT_E]} ∪ codes)
  else Ret (sources, codes).

(** *** [sinsp_plugin::resolve_dylib_symbols]

    A private member that runs only inside [create], on the object just
    built, and [create] drops the object when it throws: the object is
    returned with the result when the function returns.  The three steps
    below are its three capability blocks. *)
Definition resolve_sourcing (p : sinsp_plugin) : sinsp_plugin :=
  if has_flag (m_caps p) CAP_SOURCING then
    let p := set_source p 0 "" in
    match plugin_api.get_id (api (m_handle p)),
          plugin_api.get_event_source (api (m_handle p)) with
    | Some get_id, Some get_event_source =>
        if negb (get_id =? 0)
        then set_source p get_id (str_from_alloc_charbuf get_event_source)
        else p
    | _, _ => p
    end
  else p.

Definition resolve_extraction (p : sinsp_plugin) : outcome sinsp_plugin :=
  if has_flag (m_caps p) CAP_EXTRACTION then
    sfields ← call (plugin_api.get_fields (api (m_handle p)));
    match sfields with
    | None =>
        throw ("error in plugin " +:+ name p
               +:+ ": get_fields returned a null string")
    | Some json =>
        match Reader_parse json with
        | Some (Json.arrayValue elems) =>
            fs ← mapM (resolve_dylib_field p) elems;
            '(sources, codes) ←
              resolve_dylib_sources_codes p "get_extract_event_sources"
                (plugin_api.get_extract_event_sources (api (m_handle p)))
                (plugin_api.get_extract_event_types (api (m_handle p)));
            Ret (set_extraction p fs sources codes)
        | _ =>
            throw ("error in plugin " +:+ name p
                   +:+ ": get_fields returned an invalid JSON")
        end
    end
  else Ret p.

Definition resolve_parsing (p : sinsp_plugin) : outcome sinsp_plugin :=
  if has_flag (m_caps p) CAP_PARSING then
    '(sources, codes) ←
      resolve_dylib_sources_codes p "get_parse_event_sources"
        (plugin_api.get_parse_event_sources (api (m_handle p)))
        (plugin_api.get_parse_event_types (api (m_handle p)));
    Ret (set_parsing p sources codes)
  else Ret p.

Definition resolve_dylib_symbols (p : sinsp_plugin) (errstr : string)
    : outcome (bool * string * sinsp_plugin) :=
  match plugin_check_required_api_version (m_handle p) with
  | Some err => Ret (false, err, p)
  | None =>
  match plugin_check_required_symbols (m_handle p) with
  | Some err => Ret (false, err, p)
  | None =>
      get_name ← call (plugin_api.get_name (api (m_handle p)));
      get_description ← call (plugin_api.get_description (api (m_handle p)));
      get_contact ← call (plugin_api.get_contact (api (m_handle p)));
      get_version ← call (plugin_api.get_version (api (m_handle p)));
      let version_str := str_from_alloc_charbuf get_version in
      let p :=
        set_descriptive p
          (str_from_alloc_charbuf get_name)
          (str_from_alloc_charbuf get_description)
          (str_from_alloc_charbuf get_contact)
          {| m_version_text := version_str;
             m_valid := sinsp_version_valid version_str |} in
      if negb (m_valid (m_plugin_version p)) then
        Ret (false,
             "Plugin provided an invalid version string: '" +:+ version_str +:+ "'",
             p)
      else
        let p := set_m_caps p (plugin_get_capabilities (m_handle p)) in
        let p := resolve_sourcing p in
        p ← resolve_extraction p;
        p ← resolve_parsing p;
        Ret (true, errstr, p)
  end
  end.

(** *** [sinsp_plugin::create]

    Both overloads have the same body after the loader call.  [created]
    is what the caller receives, the descriptor ([None] is [nullptr]) and
    the text left in [errstr]; [unloaded] lists the handles that
    [~sinsp_plugin] has passed to [plugin_unload] by the time the call is
    over, which happens when the shared pointer built inside [create] is
    dropped, on a [false] of [resolve_dylib_symbols] or on an exception
    passing through. *)
Record create_result : Type := {
  created : outcome (option sinsp_plugin * string);
  unloaded : list plugin_handle_t }.

Definition create_from (loaded : plugin_handle_t + string) (errstr : string)
    : create_result :=
  match loaded with
  | inr loadererr =>
      {| created := Ret (None, loadererr); unloaded := [] |}
  | inl handle =>
      match resolve_dylib_symbols (new_sinsp_plugin handle) errstr with
      | Ret (true, errstr, plugin) =>
          {| created := Ret (Some plugin, errstr); unloaded := [] |}
      | Ret (false, errstr, plugin) =>
          {| created := Ret (None, errstr); unloaded := [handle] |}
      | Throw e => {| created := Throw e; unloaded := [handle] |}
      | Fault => {| created := Fault; unloaded := [] |}
      end
  end.

Definition create (filepath : string) (errstr : string) : create_result :=
  create_from (plugin_load filepath) errstr.

Definition create_api (api : plugin_api.t) (errstr : string) : create_result :=
  create_from (plugin_load_api api) errstr.

(** *** Event sourcing *)

(** [sinsp_plugin::as_scap_source]: the structure returned is the member,
    rewritten in place. *)
Definition as_scap_source (p : sinsp_plugin)
    : outcome scap_source_plugin * sinsp_plugin :=
  if negb (m_inited p) then (Throw (not_init_exception p), p)
  else if negb (has_flag (caps p) CAP_SOURCING) then
    (throw "Can't create scap_source_plugin from a plugin without CAP_SOURCING capability.", p)
  else
    let sp :=
      {| sp_state := m_state p;
         sp_name := Some (c_str (m_name p));
         sp_id := m_id p;
         sp_open := plugin_api.open (api (m_handle p));
         sp_close := plugin_api.close (api (m_handle p));
         sp_get_last_error := plugin_api.get_last_error (api (m_handle p));
         sp_next_batch := plugin_api.next_batch (api (m_handle p));
         sp_handle := sp_handle (m_scap_source_plugin p) |} in
    (Ret sp, set_m_scap_source_plugin p sp).

(** [sinsp_plugin::get_progress]: the text and [progress_pct]. *)
Definition get_progress (p : sinsp_plugin) : outcome (string * Z) :=
  if negb (m_inited p) then Throw (not_init_exception p)
  else
    match plugin_api.get_progress (api (m_handle p)) with
    | Some api_get_progress =>
        if sp_handle (m_scap_source_plugin p) =? 0 then Ret ("", 0)
        else
          let '(charbuf, ppct) :=
            api_get_progress (m_state p) (sp_handle (m_scap_source_plugin p)) in
          Ret (str_from_alloc_charbuf charbuf, ppct)
    | None => Ret ("", 0)
    end.

Definition event_input (evt : sinsp_evt) : ss_plugin_event_input :=
  {| evt := m_pevt evt; evtnum := get_num evt;
     evtsrc_idx := get_source_idx evt; evtsrc_name := get_source_name evt |}.

(** [sinsp_plugin::event_to_string]. *)
Definition event_to_string (p : sinsp_plugin) (evt : sinsp_evt)
    : outcome string :=
  if negb (m_inited p) then Throw (not_init_exception p)
  else
    let data := param1_val evt in
    let datalen := Z.of_nat (length data) in
    let ret :=
      match plugin_api.event_to_string (api (m_handle p)) with
      | Some api_event_to_string =>
          if negb (m_state p =? 0)
          then str_from_alloc_charbuf
                 (api_event_to_string (m_state p) (event_input evt))
          else ""
      | None => ""
      end in
    if string_empty ret then
      let ret := "datalen=" +:+ to_string datalen +:+ " data=" in
      let shown := take 50 data in
      if forallb isprint shown then
        Ret (ret +:+ string_of_list_ascii shown
             +:+ (if 50 <? datalen then "..." else ""))
      else Ret (ret +:+ "<binary>")
    else Ret ret.

(** One entry of the array [list_open_params] parses. *)
Definition open_param_of (p : sinsp_plugin) (entry : Json.Value)
    : outcome open_param :=
  jvalue ← Json.subscript entry "value";
  param_value ← Json.asString jvalue;
  if string_empty param_value then
    throw ("error in plugin " +:+ name p
           +:+ ": list_open_params has entry with no value")
  else
    jdesc ← Json.subscript entry "desc";
    param_desc ← Json.asString jdesc;
    jseparator ← Json.subscript entry "separator";
    param_separator ← Json.asString jseparator;
    Ret {| value := param_value; desc := param_desc;
           separator := param_separator |}.

(** [sinsp_plugin::list_open_params]. *)
Definition list_open_params (p : sinsp_plugin) : outcome (list open_param) :=
  if negb (m_inited p) then Throw (not_init_exception p)
  else
    match plugin_api.list_open_params (api (m_handle p)) with
    | Some api_list_open_params =>
        if negb (m_state p =? 0) then
          let '(charbuf, rc) := api_list_open_params (m_state p) in
          let jsonString := str_from_alloc_charbuf charbuf in
          if negb (rc =? SS_PLUGIN_SUCCESS) then
            e ← get_last_error p;
            throw ("error in plugin " +:+ name p
                   +:+ ": list_open_params has error " +:+ e)
          else if negb (string_empty jsonString) then
            match Reader_parse jsonString with
            | Some (Json.arrayValue elems) => mapM (open_param_of p) elems
            | _ =>
                throw ("error in plugin " +:+ name p
                       +:+ ": list_open_params returned a non-array JSON")
            end
          else Ret []
        else Ret []
    | None => Ret []
    end.

(** *** Field extraction: [sinsp_plugin::extract_fields].  [fields] is the
    address of the caller's array, which the host hands over unread. *)
Definition extract_fields (p : sinsp_plugin) (evt : sinsp_evt)
    (num_fields : Z) (fields : Z) : outcome bool :=
  if negb (m_inited p) then Throw (not_init_exception p)
  else
    let ev := event_input evt in
    let input := {| in_num_fields := num_fields; in_fields := fields |} in
    api_extract_fields ← call (plugin_api.extract_fields (api (m_handle p)));
    Ret (api_extract_fields (m_state p) ev input =? SS_PLUGIN_SUCCESS).

(** *** Event parsing: [sinsp_plugin::parse_event]. *)
Definition parse_event (p : sinsp_plugin) (evt : sinsp_evt) : outcome bool :=
  if negb (m_inited p) then Throw (not_init_exception p)
  else
    let ev := event_input evt in
    api_parse_event ← call (plugin_api.parse_event (api (m_handle p)));
    Ret (api_parse_event (m_state p) ev =? SS_PLUGIN_SUCCESS).

End Host.

(** ** The filter check of a plugin's fields: [sinsp_filter_check_plugin] *)

(** [s.find_first_of(c, 0)]: [None] is [npos]. *)
Fixpoint find_first_of (c : ascii) (s : string) : option nat :=
  match s with
  | EmptyString => None
  | String a s' =>
      if Ascii.eqb a c then Some O else option_map S (find_first_of c s')
  end.

(** [s.substr(pos)], for a [pos] within the string. *)
Fixpoint substr_from (s : string) (pos : nat) : string :=
  match pos, s with
  | O, _ => s
  | S pos', String _ s' => substr_from s' pos'
  | S _, EmptyString => EmptyString
  end.

(** [isdigit] in the "C" locale. *)
Definition isdigit (c : ascii) : bool :=
  let n := Z.of_N (N_of_ascii c) in (48 <=? n) && (n <=? 57).

Fixpoint all_digits (s : string) : bool :=
  match s with
  | EmptyString => true
  | String c s' => isdigit c && all_digits s'
  end.

(** [unsigned long] has 64 bits. *)
Definition ULONG_MAX : Z := 2 ^ 64 - 1.

(** [std::stoul] on the texts that reach it, which hold decimal digits
    only: the number the digits write, or [None] for the exception it throws
    on a number above [ULONG_MAX] and on the empty text. *)
Definition stoul (s : string) : option Z :=
  match NilZero.uint_of_string s with
  | Some d => if Z.of_uint d <=? ULONG_MAX then Some (Z.of_uint d) else None
  | None => None
  end.

(** The conversion of a [size_t] sum to the [int32_t] that is returned. *)
Definition to_int32 (z : Z) : Z := (z + 2 ^ 31) mod 2 ^ 32 - 2 ^ 31.

(** The members of the check that [plugin_filtercheck.cpp] reads or writes
    in the functions embedded here.  [m_info_fields] is the array
    [m_info.m_fields] points to, the fields of the plugin; [m_field], which
    the base class sets next to [m_field_id], is the entry of the array at
    [m_field_id].  [m_arg_key] points into [m_argstr] and is kept as the C
    string it points to. *)
Record sinsp_filter_check_plugin : Type := {
  m_eplugin : sinsp_plugin;
  m_info_fields : list filtercheck_field_info.t;
  m_field_id : nat;
  m_argstr : string;
  m_arg_present : bool;
  m_arg_key : option string;
  m_arg_index : Z;
  m_compatible_plugin_sources_bitmap : list bool }.

Definition set_m_argstr (fc : sinsp_filter_check_plugin) (s : string)
    : sinsp_filter_check_plugin :=
  {| m_eplugin := m_eplugin fc; m_info_fields := m_info_fields fc;
     m_field_id := m_field_id fc; m_argstr := s;
     m_arg_present := m_arg_present fc; m_arg_key := m_arg_key fc;
     m_arg_index := m_arg_index fc;
     m_compatible_plugin_sources_bitmap := m_compatible_plugin_sources_bitmap fc |}.

Definition set_arg (fc : sinsp_filter_check_plugin) (present : bool)
    (key : option string) (index : Z) : sinsp_filter_check_plugin :=
  {| m_eplugin := m_eplugin fc; m_info_fields := m_info_fields fc;
     m_field_id := m_field_id fc; m_argstr := m_argstr fc;
     m_arg_present := present; m_arg_key := key; m_arg_index := index;
     m_compatible_plugin_sources_bitmap := m_compatible_plugin_sources_bitmap fc |}.

Definition set_bitmap (fc : sinsp_filter_check_plugin) (bitmap : list bool)
    : sinsp_filter_check_plugin :=
  {| m_eplugin := m_eplugin fc; m_info_fields := m_info_fields fc;
     m_field_id := m_field_id fc; m_argstr := m_argstr fc;
     m_arg_present := m_arg_present fc; m_arg_key := m_arg_key fc;
     m_arg_index := m_arg_index fc;
     m_compatible_plugin_sources_bitmap := bitmap |}.

(** [m_info.m_fields[m_field_id]], an access out of the array being a fault. *)
Definition field_at (fc : sinsp_filter_check_plugin)
    : outcome filtercheck_field_info.t :=
  match m_info_fields fc !! m_field_id fc with
  | Some field => Ret field
  | None => Fault
  end.

(** What the plugin leaves in the [ss_plugin_extract_field] it is handed:
    the number of values and, by member of the [res] union, the values. *)
Record extract_result : Type := {
  res_len : Z;
  res_u64 : list Z;
  res_u32 : list Z;
  res_str : list string;
  res_buf : list (list ascii) }.

(** What an [extract_value_t] points to. *)
Inductive value_ptr : Type :=
| ptr_u64 (v : Z)
| ptr_u32 (v : Z)
| ptr_str (s : string)
| ptr_buf (bytes : list ascii).

Record extract_value_t : Type := {
  len : Z;
  ptr : value_ptr }.

Section FilterCheck.

Context `{env : host_env}.

(** [sinsp_no_event_source_idx], and the event sources of the inspector. *)
Variable sinsp_no_event_source_idx : Z.
Variable event_sources : list string.

(** *** [sinsp_filter_check_plugin::extract_arg_index]

    The [int] that holds the length is taken to hold it. *)
Definition extract_arg_index (fc : sinsp_filter_check_plugin)
    (full_field_name : string) : outcome sinsp_filter_check_plugin :=
  let argstr := m_argstr fc in
  let length := String.length argstr in
  let '(is_valid, message) :=
    if Nat.eqb length 0
       || (Nat.ltb 1 length
           && match argstr with String c _ => Ascii.eqb c "0" | _ => false end)
    then (false, " has an invalid index argument starting with 0: ")
    else (true, "") in
  let '(is_valid, message) :=
    if all_digits argstr then (is_valid, message)
    else (false, " has an invalid index argument not composed only by digits: ") in
  let failure (message : string) : outcome sinsp_filter_check_plugin :=
    field ← field_at fc;
    throw ("filter " +:+ full_field_name +:+ " "
           +:+ filtercheck_field_info.m_name field +:+ message +:+ argstr) in
  if is_valid then
    match stoul argstr with
    | Some index => Ret (set_arg fc (m_arg_present fc) (m_arg_key fc) index)
    | None =>
        failure " has an invalid index argument not representable on 64 bit: "
    end
  else failure message.

(** *** [sinsp_filter_check_plugin::extract_arg_key] *)
Definition extract_arg_key (fc : sinsp_filter_check_plugin)
    : sinsp_filter_check_plugin :=
  set_arg fc (m_arg_present fc) (Some (c_str (m_argstr fc))) (m_arg_index fc).

(** *** [sinsp_filter_check_plugin::parse_field_name]

    [res] is what [sinsp_filter_check::parse_field_name] has returned and
    [fc] the check as that call leaves it, with [m_field_id] set. *)
Definition parse_field_name (fc : sinsp_filter_check_plugin) (str : string)
    (res : Z) : outcome Z * sinsp_filter_check_plugin :=
  let fc := set_m_argstr fc "" in
  if negb (res =? -1) then
    let fc := set_arg fc false None 0 in
    let val :=
      match find_first_of " " str with
      | Some val_end => string_take val_end str
      | None => str
      end in
    let badly_formatted (fc : sinsp_filter_check_plugin) :=
      (field ← field_at fc;
       throw ("filter " +:+ str +:+ " " +:+ filtercheck_field_info.m_name field
              +:+ " has a badly-formatted argument"), fc) in
    match find_first_of "[" val with
    | Some pos1 =>
        let argstart := S pos1 in
        if Nat.ltb argstart (String.length val) then
          let fc := set_m_argstr fc (substr_from val argstart) in
          match find_first_of "]" (m_argstr fc) with
          | Some pos2 =>
              let fc := set_m_argstr fc (string_take pos2 (m_argstr fc)) in
              match field_at fc with
              | Ret field =>
                  let flags := filtercheck_field_info.m_flags field in
                  if negb (has_flag flags EPF_ARG_ALLOWED
                           || has_flag flags EPF_ARG_REQUIRED)
                  then
                    (throw ("filter " +:+ str +:+ " "
                            +:+ filtercheck_field_info.m_name field
                            +:+ " does not allow nor require an argument but one is provided: "
                            +:+ m_argstr fc), fc)
                  else
                    let fc := set_arg fc true (m_arg_key fc) (m_arg_index fc) in
                    match (if has_flag flags EPF_ARG_INDEX
                           then extract_arg_index fc str else Ret fc) with
                    | Ret fc =>
                        let fc :=
                          if has_flag flags EPF_ARG_KEY
                          then extract_arg_key fc else fc in
                        (Ret (to_int32 (Z.of_nat pos1 + Z.of_nat pos2 + 2)), fc)
                    | Throw e => (Throw e, fc)
                    | Fault => (Fault, fc)
                    end
              | Throw e => (Throw e, fc)
              | Fault => (Fault, fc)
              end
          | None => badly_formatted fc
          end
        else badly_formatted fc
    | None =>
        match field_at fc with
        | Ret field =>
            if has_flag (filtercheck_field_info.m_flags field) EPF_ARG_REQUIRED
            then
              (throw ("filter " +:+ str +:+ " "
                      +:+ filtercheck_field_info.m_name field
                      +:+ " requires an argument but none provided"), fc)
            else (Ret res, fc)
        | Throw e => (Throw e, fc)
        | Fault => (Fault, fc)
        end
    end
  else (Ret res, fc).

(** *** [sinsp_filter_check_plugin::extract] *)

(** The loop that populates the bitmap of compatible sources up to the
    source [idx]: [missing] is the number of entries still to add. *)
Fixpoint populate_bitmap (extract_sources : gset string) (bitmap : list bool)
    (missing : nat) : outcome (list bool) :=
  match missing with
  | O => Ret bitmap
  | S missing' =>
      let src_idx := List.length bitmap in
      match event_sources !! src_idx with
      | Some source =>
          populate_bitmap extract_sources
            (bitmap ++ [is_source_compatible extract_sources source]) missing'
      | None => Fault
      end
  end.

(** One value of the result, by the type of the field.  The [ASSERT(false)]
    of the default case is compiled out of release builds; no type of
    [m_pt_lut] reaches it. *)
Definition extract_value (type : ppm_param_type) (written : extract_result)
    (i : nat) : outcome extract_value_t :=
  match type with
  | PT_UINT64 | PT_RELTIME | PT_ABSTIME =>
      match res_u64 written !! i with
      | Some v => Ret {| len := 8; ptr := ptr_u64 v |}
      | None => Fault
      end
  | PT_IPV4NET | PT_IPV6ADDR | PT_IPV6NET | PT_IPNET =>
      match res_buf written !! i with
      | Some bytes => Ret {| len := Z.of_nat (List.length bytes); ptr := ptr_buf bytes |}
      | None => Fault
      end
  | PT_CHARBUF =>
      match res_str written !! i with
      | Some s => Ret {| len := Z.of_nat (String.length (c_str s)); ptr := ptr_str s |}
      | None => Fault
      end
  | PT_BOOL | PT_IPV4ADDR =>
      match res_u32 written !! i with
      | Some v => Ret {| len := 4; ptr := ptr_u32 v |}
      | None => Fault
      end
  end.

(** [evt_type] is [evt->get_type()], [efield] the address of the request
    built on the stack and [written] what the plugin leaves in it.  Returns
    the result and the vector [values], which is left as it was when the
    event is rejected. *)
Definition extract (fc : sinsp_filter_check_plugin) (evt : sinsp_evt)
    (evt_type : Z) (efield : Z) (written : extract_result)
    (values : list extract_value_t)
    : outcome (bool * list extract_value_t) * sinsp_filter_check_plugin :=
  if get_source_idx evt =? sinsp_no_event_source_idx then (Ret (false, values), fc)
  else if negb (bool_decide (evt_type ∈ extract_event_codes (m_eplugin fc)))
  then (Ret (false, values), fc)
  else
    let bitmap := m_compatible_plugin_sources_bitmap fc in
    match populate_bitmap (extract_event_sources (m_eplugin fc)) bitmap
            (Z.to_nat (get_source_idx evt) + 1 - List.length bitmap) with
    | Ret bitmap =>
        let fc := set_bitmap fc bitmap in
        match bitmap !! Z.to_nat (get_source_idx evt) with
        | Some true =>
            (field ← field_at fc;
             ok ← extract_fields (m_eplugin fc) evt 1 efield;
             if negb ok || (res_len written =? 0) then Ret (false, values)
             else
               vs ← mapM (extract_value (filtercheck_field_info.m_type field) written)
                      (seq 0 (Z.to_nat (res_len written)));
               Ret (true, vs), fc)
        | Some false => (Ret (false, values), fc)
        | None => (Fault, fc)
        end
    | Throw e => (Throw e, fc)
    | Fault => (Fault, fc)
    end.

End FilterCheck.

(** ** A host environment and plugins to run the embedding on *)

Module Sample.

Import Json.

Definition dq : string := String "034"%char EmptyString.

Definition quoted (s : string) : string := dq +:+ s +:+ dq.

(** [{"type":"object","required":["k"]}] *)
Definition schema_text : string :=
  "{" +:+ quoted "type" +:+ ":" +:+ quoted "object" +:+ ","
  +:+ quoted "required" +:+ ":[" +:+ quoted "k" +:+ "]}".

Definition schema_json : Value :=
  objectValue [("type", stringValue "object");
               ("required", arrayValue [stringValue "k"])].

(** [[{"name":"sample.f","type":"uint64","desc":"d","arg":{"isRequired":true}}]] *)
Definition required_only_text : string :=
  "[{" +:+ quoted "name" +:+ ":" +:+ quoted "sample.f" +:+ ","
  +:+ quoted "type" +:+ ":" +:+ quoted "uint64" +:+ ","
  +:+ quoted "desc" +:+ ":" +:+ quoted "d" +:+ ","
  +:+ quoted "arg" +:+ ":{" +:+ quoted "isRequired" +:+ ":true}}]".

Definition required_only_arg : list (string * Value) :=
  [("isRequired", booleanValue true)].

Definition required_only_json : Value :=
  arrayValue [objectValue [("name", stringValue "sample.f");
                           ("type", stringValue "uint64");
                           ("desc", stringValue "d");
                           ("arg", objectValue required_only_arg)]].

(** [[{"name":"sample.f","type":"uint64","desc":"d","isList":true,
      "arg":{"isRequired":true,"isIndex":true},"properties":["info"]}]] *)
Definition fields_text : string :=
  "[{" +:+ quoted "name" +:+ ":" +:+ quoted "sample.f" +:+ ","
  +:+ quoted "type" +:+ ":" +:+ quoted "uint64" +:+ ","
  +:+ quoted "desc" +:+ ":" +:+ quoted "d" +:+ ","
  +:+ quoted "isList" +:+ ":true,"
  +:+ quoted "arg" +:+ ":{" +:+ quoted "isRequired" +:+ ":true,"
  +:+ quoted "isIndex" +:+ ":true},"
  +:+ quoted "properties" +:+ ":[" +:+ quoted "info" +:+ "]}]".

Definition fields_entry : Value :=
  objectValue [("name", stringValue "sample.f");
               ("type", stringValue "uint64");
               ("desc", stringValue "d");
               ("isList", booleanValue true);
               ("arg", objectValue [("isRequired", booleanValue true);
                                    ("isIndex", booleanValue true)]);
               ("properties", arrayValue [stringValue "info"])].

Definition fields_json : Value := arrayValue [fields_entry].

(** [[{"value":"a","desc":"first"},{"desc":"no value"}]] *)
Definition params_text : string :=
  "[{" +:+ quoted "value" +:+ ":" +:+ quoted "a" +:+ ","
  +:+ quoted "desc" +:+ ":" +:+ quoted "first" +:+ "},{"
  +:+ quoted "desc" +:+ ":" +:+ quoted "no value" +:+ "}]".

Definition params_json : Value :=
  arrayValue [objectValue [("value", stringValue "a");
                           ("desc", stringValue "first")];
              objectValue [("desc", stringValue "no value")]].

(** [["other"]] *)
Definition sources_text : string := "[" +:+ quoted "other" +:+ "]".

Definition sources_json : Value := arrayValue [stringValue "other"].

(** The texts the sample reader knows; any other text does not parse. *)
Definition texts : list (string * Value) :=
  [("{}", objectValue []);
   ("[]", arrayValue []);
   (schema_text, schema_json);
   (required_only_text, required_only_json);
   (fields_text, fields_json);
   (params_text, params_json);
   (sources_text, sources_json)].

Definition parse (text : string) : option Value := find text texts.

(** A validator that knows [required] only: one error for each required
    property the configuration lacks, in the order of the schema. *)
Definition missing (config : Value) (property : Value) : bool :=
  match config, property with
  | objectValue members, stringValue k => negb (bool_decide (is_Some (find k members)))
  | _, _ => true
  end.

Definition missing_error (property : Value) : valijson.Error :=
  {| valijson.context := ["<root>"];
     valijson.description :=
       "Missing required property '"
       +:+ match property with stringValue k => k | _ => "" end +:+ "'." |}.

Definition validate (schema config : Value) : outcome (bool * list valijson.Error) :=
  required ← get schema "required";
  let errors := map missing_error (filter (fun k => missing config k = true) (elements required)) in
  Ret (bool_decide (errors = []), errors).

Definition of_presence {A : Type} (fp : option A) (bit : Z) : Z :=
  match fp with Some _ => bit | None => 0 end.

(** The capabilities follow from the symbols the plugin exports. *)
Definition capabilities (h : plugin_handle_t) : Z :=
  Z.lor (of_presence (plugin_api.get_id (api h)) 1)
    (Z.lor (of_presence (plugin_api.get_fields (api h)) 2)
           (of_presence (plugin_api.parse_event (api h)) 4)).

Definition required_symbols (h : plugin_handle_t) : option string :=
  match plugin_api.get_name (api h), plugin_api.get_version (api h),
        plugin_api.get_description (api h), plugin_api.get_contact (api h),
        plugin_api.get_last_error (api h) with
  | Some _, Some _, Some _, Some _, Some _ => None
  | _, _, _, _, _ => Some "missing required symbol"
  end.

(** A plugin vtable: [rc] is what [init] reports next to the state [7],
    [schema] what [get_init_schema] returns (as a JSON schema), [source]
    the event source of a sourcing plugin with id [999], and [fields] and
    [params] the texts of [get_fields] and [list_open_params]. *)
Definition vtable (rc : Z) (schema : option string) (source : option string)
    (fields : option string) (extract_sources : option string)
    (params : option string) : plugin_api.t :=
  {| plugin_api.get_name := Some (Some "sample");
     plugin_api.get_description := Some (Some "a sample plugin");
     plugin_api.get_contact := Some (Some "nobody");
     plugin_api.get_version := Some (Some "1.0.0");
     plugin_api.get_last_error := Some (fun _ => Some "boom");
     plugin_api.init := Some (fun _ => (7, rc));
     plugin_api.destroy := Some (fun _ => tt);
     plugin_api.get_init_schema :=
       match schema with
       | Some text => Some (fun _ => (Some text, 1))
       | None => None
       end;
     plugin_api.get_id :=
       match source with Some _ => Some 999 | None => None end;
     plugin_api.get_event_source :=
       match source with Some src => Some (Some src) | None => None end;
     plugin_api.open := 0;
     plugin_api.close := 0;
     plugin_api.next_batch := 0;
     plugin_api.get_progress := None;
     plugin_api.event_to_string := None;
     plugin_api.list_open_params :=
       match params with
       | Some text => Some (fun _ => (Some text, 0))
       | None => None
       end;
     plugin_api.get_fields :=
       match fields with Some text => Some (Some text) | None => None end;
     plugin_api.extract_fields :=
       match fields with Some _ => Some (fun _ _ _ => 0) | None => None end;
     plugin_api.get_extract_event_sources :=
       match extract_sources with
       | Some text => Some (Some text)
       | None => None
       end;
     plugin_api.get_extract_event_types := None;
     plugin_api.parse_event := None;
     plugin_api.get_parse_event_sources := None;
     plugin_api.get_parse_event_types := None |}.

(** The one library the sample loader finds: a plugin with the
    extraction capability whose [get_fields] does not return JSON. *)
Definition bad_fields_handle : plugin_handle_t :=
  {| api := vtable 0 None None (Some "not json") None None |}.

Definition load (path : string) : plugin_handle_t + string :=
  if String.eqb path "libbadfields.so" then inl bad_fields_handle
  else inr ("cannot load plugin " +:+ path).

#[export] Instance env : host_env := {|
  CAP_NONE := 0; CAP_SOURCING := 1; CAP_EXTRACTION := 2; CAP_PARSING := 4;
  SS_PLUGIN_SUCCESS := 0;
  SS_PLUGIN_SCHEMA_NONE := 0; SS_PLUGIN_SCHEMA_JSON := 1;
  EPF_NONE := 0;
  EPF_ARG_REQUIRED := Z.shiftl 1 2;
  EPF_TABLE_ONLY := Z.shiftl 1 3;
  EPF_INFO := Z.shiftl 1 4;
  EPF_CONVERSATION := Z.shiftl 1 5;
  EPF_IS_LIST := Z.shiftl 1 6;
  EPF_ARG_ALLOWED := Z.shiftl 1 7;
  EPF_ARG_INDEX := Z.shiftl 1 8;
  EPF_ARG_KEY := Z.shiftl 1 9;
  sizeof_m_name := 64; sizeof_m_display := 64; sizeof_m_description := 1024;
  sinsp_syscall_event_source_name := "syscall";
  PPME_PLUGINEVENT_E := 322;
  all_event_set := list_to_set [0; 1; 2; 3];
  sinsp_version_valid := fun text => negb (string_empty text);
  plugin_load := load;
  plugin_load_api := fun api => inl {| api := api |};
  plugin_check_required_api_version := fun _ => None;
  plugin_check_required_symbols := required_symbols;
  plugin_get_capabilities := capabilities;
  Reader_parse := parse;
  valijson_validate := validate |}.

(** The object [create] builds for a vtable, when it builds one. *)
Definition loaded (api : plugin_api.t) : option sinsp_plugin :=
  match created (create_api api "") with
  | Ret (Some plugin, _) => Some plugin
  | _ => None
  end.

(** A freshly constructed object on a vtable, before any resolution. *)
Definition fresh (api : plugin_api.t) : sinsp_plugin :=
  new_sinsp_plugin {| api := api |}.

(** The plugin of a vtable: the loaded one. *)
Definition plugin_of (api : plugin_api.t) : sinsp_plugin :=
  default (fresh api) (loaded api).

(** The plugin of a vtable after one call of [init] on [{}]. *)
Definition after_init (api : plugin_api.t) : sinsp_plugin :=
  (init (plugin_of api) "{}" "").2.

(** Plugins: one that initializes, one whose [init] fails, one with a
    schema, one that is an event source with fields and extract sources
    of its own, one with open parameters. *)
Definition good : plugin_api.t := vtable 0 None None None None None.
Definition failing : plugin_api.t := vtable 1 None None None None None.
Definition with_schema : plugin_api.t :=
  vtable 0 (Some schema_text) None None None None.
Definition sourcing : plugin_api.t :=
  vtable 0 None (Some "src") (Some fields_text) (Some sources_text)
    (Some params_text).
Definition required_only : plugin_api.t :=
  vtable 0 None None (Some required_only_text) None None.

(** The field that [fields_text] declares, as the host stores it. *)
Definition sample_field : filtercheck_field_info.t :=
  {| filtercheck_field_info.m_type := PT_UINT64;
     filtercheck_field_info.m_flags := 468;
     filtercheck_field_info.m_print_format := PF_DEC;
     filtercheck_field_info.m_name := "sample.f";
     filtercheck_field_info.m_display := "";
     filtercheck_field_info.m_description := "d" |}.

Definition an_event : sinsp_evt :=
  {| m_pevt := 1; get_num := 1; get_source_idx := 0;
     get_source_name := Some "sample"; param1_val := [] |}.

End Sample.

(** ** A sample extractor

    A second host, whose reader also knows a list of open parameters that
    all have a value and the fields of a plugin that extracts by key, by
    index, by both and without argument; and the filter checks on that
    plugin. *)

Module FilterSample.

Import Json.

Definition quoted : string → string := Sample.quoted.

(** [[{"value":"a","desc":"first"},{"value":"b","separator":","}]] *)
Definition params_text : string :=
  "[{" +:+ quoted "value" +:+ ":" +:+ quoted "a" +:+ ","
  +:+ quoted "desc" +:+ ":" +:+ quoted "first" +:+ "},{"
  +:+ quoted "value" +:+ ":" +:+ quoted "b" +:+ ","
  +:+ quoted "separator" +:+ ":" +:+ quoted "," +:+ "}]".

Definition params_json : Value :=
  arrayValue [objectValue [("value", stringValue "a");
                           ("desc", stringValue "first")];
              objectValue [("value", stringValue "b");
                           ("separator", stringValue ",")]].

(** [[{"name":"sample.key","type":"string","desc":"by key","arg":{"isKey":true}},
      {"name":"sample.index","type":"uint64","desc":"by index","arg":{"isIndex":true}},
      {"name":"sample.any","type":"uint64","desc":"by index or key",
       "arg":{"isRequired":true,"isIndex":true,"isKey":true}},
      {"name":"sample.plain","type":"bool","desc":"no argument"}]] *)
Definition fields_text : string :=
  "[{" +:+ quoted "name" +:+ ":" +:+ quoted "sample.key" +:+ ","
  +:+ quoted "type" +:+ ":" +:+ quoted "string" +:+ ","
  +:+ quoted "desc" +:+ ":" +:+ quoted "by key" +:+ ","
  +:+ quoted "arg" +:+ ":{" +:+ quoted "isKey" +:+ ":true}},{"
  +:+ quoted "name" +:+ ":" +:+ quoted "sample.index" +:+ ","
  +:+ quoted "type" +:+ ":" +:+ quoted "uint64" +:+ ","
  +:+ quoted "desc" +:+ ":" +:+ quoted "by index" +:+ ","
  +:+ quoted "arg" +:+ ":{" +:+ quoted "isIndex" +:+ ":true}},{"
  +:+ quoted "name" +:+ ":" +:+ quoted "sample.any" +:+ ","
  +:+ quoted "type" +:+ ":" +:+ quoted "uint64" +:+ ","
  +:+ quoted "desc" +:+ ":" +:+ quoted "by index or key" +:+ ","
  +:+ quoted "arg" +:+ ":{" +:+ quoted "isRequired" +:+ ":true,"
  +:+ quoted "isIndex" +:+ ":true," +:+ quoted "isKey" +:+ ":true}},{"
  +:+ quoted "name" +:+ ":" +:+ quoted "sample.plain" +:+ ","
  +:+ quoted "type" +:+ ":" +:+ quoted "bool" +:+ ","
  +:+ quoted "desc" +:+ ":" +:+ quoted "no argument" +:+ "}]".

Definition key_entry : Value :=
  objectValue [("name", stringValue "sample.key");
               ("type", stringValue "string");
               ("desc", stringValue "by key");
               ("arg", objectValue [("isKey", booleanValue true)])].

Definition fields_json : Value :=
  arrayValue
    [key_entry;
     objectValue [("name", stringValue "sample.index");
                  ("type", stringValue "uint64");
                  ("desc", stringValue "by index");
                  ("arg", objectValue [("isIndex", booleanValue true)])];
     objectValue [("name", stringValue "sample.any");
                  ("type", stringValue "uint64");
                  ("desc", stringValue "by index or key");
                  ("arg", objectValue [("isRequired", booleanValue true);
                                       ("isIndex", booleanValue true);
                                       ("isKey", booleanValue true)])];
     objectValue [("name", stringValue "sample.plain");
                  ("type", stringValue "bool");
                  ("desc", stringValue "no argument")]].

Definition texts : list (string * Value) :=
  (params_text, params_json) :: (fields_text, fields_json) :: Sample.texts.

Definition parse (text : string) : option Value := find text texts.

#[export] Instance env : host_env := {|
  CAP_NONE := 0; CAP_SOURCING := 1; CAP_EXTRACTION := 2; CAP_PARSING := 4;
  SS_PLUGIN_SUCCESS := 0;
  SS_PLUGIN_SCHEMA_NONE := 0; SS_PLUGIN_SCHEMA_JSON := 1;
  EPF_NONE := 0;
  EPF_ARG_REQUIRED := Z.shiftl 1 2;
  EPF_TABLE_ONLY := Z.shiftl 1 3;
  EPF_INFO := Z.shiftl 1 4;
  EPF_CONVERSATION := Z.shiftl 1 5;
  EPF_IS_LIST := Z.shiftl 1 6;
  EPF_ARG_ALLOWED := Z.shiftl 1 7;
  EPF_ARG_INDEX := Z.shiftl 1 8;
  EPF_ARG_KEY := Z.shiftl 1 9;
  sizeof_m_name := 64; sizeof_m_display := 64; sizeof_m_description := 1024;
  sinsp_syscall_event_source_name := "syscall";
  PPME_PLUGINEVENT_E := 322;
  all_event_set := list_to_set [0; 1; 2; 3];
  sinsp_version_valid := fun text => negb (string_empty text);
  plugin_load := Sample.load;
  plugin_load_api := fun api => inl {| api := api |};
  plugin_check_required_api_version := fun _ => None;
  plugin_check_required_symbols := Sample.required_symbols;
  plugin_get_capabilities := Sample.capabilities;
  Reader_parse := parse;
  valijson_validate := Sample.validate |}.

(** The plugin of a vtable: the one [create] builds, before and after one
    call of [init] on [{}]. *)
Definition plugin_of (api : plugin_api.t) : sinsp_plugin :=
  match created (create_api api "") with
  | Ret (Some plugin, _) => plugin
  | _ => new_sinsp_plugin {| api := api |}
  end.

Definition after_init (api : plugin_api.t) : sinsp_plugin :=
  (init (plugin_of api) "{}" "").2.

(** Plugins: an event source that extracts the fields above from the
    events of [other] and of its own source [src]; one whose schema
    accepts every configuration; one whose [init] fails and returns no
    state; one whose version is empty. *)
Definition extractor : plugin_api.t :=
  Sample.vtable 0 None (Some "src") (Some fields_text)
    (Some Sample.sources_text) (Some params_text).


Definition described (version : string) (init_result : Z * Z) : plugin_api.t :=
  {| plugin_api.get_name := Some (Some "sample");
     plugin_api.get_description := Some (Some "a sample plugin");
     plugin_api.get_contact := Some (Some "nobody");
     plugin_api.get_version := Some (Some version);
     plugin_api.get_last_error := Some (fun _ => Some "boom");
     plugin_api.init := Some (fun _ => init_result);
     plugin_api.destroy := Some (fun _ => tt);
     plugin_api.get_init_schema := None;
     plugin_api.get_id := None;
     plugin_api.get_event_source := None;
     plugin_api.open := 0;
     plugin_api.close := 0;
     plugin_api.next_batch := 0;
     plugin_api.get_progress := None;
     plugin_api.event_to_string := None;
     plugin_api.list_open_params := None;
     plugin_api.get_fields := None;
     plugin_api.extract_fields := None;
     plugin_api.get_extract_event_sources := None;
     plugin_api.get_extract_event_types := None;
     plugin_api.parse_event := None;
     plugin_api.get_parse_event_sources := None;
     plugin_api.get_parse_event_types := None |}.

Definition stateless : plugin_api.t := described "1.0.0" (0, 1).

Definition unversioned : plugin_api.t := described "" (7, 0).

(** The event sources of the inspector, and [sinsp_no_event_source_idx],
    the largest [size_t]. *)
Definition event_sources : list string := ["syscall"; "other"; "src"].

Definition no_event_source_idx : Z := 2 ^ 64 - 1.

(** The check on field [field_id] of the extractor, as the constructor and
    the base class leave it, with [argstr] in [m_argstr]. *)
Definition check (field_id : nat) (argstr : string) : sinsp_filter_check_plugin :=
  {| m_eplugin := after_init extractor;
     m_info_fields := fields (after_init extractor);
     m_field_id := field_id;
     m_argstr := argstr;
     m_arg_present := false;
     m_arg_key := None;
     m_arg_index := 0;
     m_compatible_plugin_sources_bitmap := [] |}.

(** The fields of the extractor, as the host stores them. *)
Definition field (type : ppm_param_type) (flags : Z) (name description : string)
    : filtercheck_field_info.t :=
  {| filtercheck_field_info.m_type := type;
     filtercheck_field_info.m_flags := flags;
     filtercheck_field_info.m_print_format := PF_DEC;
     filtercheck_field_info.m_name := name;
     filtercheck_field_info.m_display := "";
     filtercheck_field_info.m_description := description |}.

Definition key_field : filtercheck_field_info.t :=
  field PT_CHARBUF 640 "sample.key" "by key".
Definition index_field : filtercheck_field_info.t :=
  field PT_UINT64 384 "sample.index" "by index".
Definition any_field : filtercheck_field_info.t :=
  field PT_UINT64 900 "sample.any" "by index or key".
Definition plain_field : filtercheck_field_info.t :=
  field PT_BOOL 0 "sample.plain" "no argument".

(** An event of the plugin event type from the source at [source_idx],
    and what the plugin leaves in the request: two values. *)
Definition event_from (source_idx : Z) : sinsp_evt :=
  {| m_pevt := 1; get_num := 1; get_source_idx := source_idx;
     get_source_name := event_sources !! Z.to_nat source_idx;
     param1_val := [] |}.

Definition two_values : extract_result :=
  {| res_len := 2; res_u64 := [10; 20]; res_u32 := []; res_str := [];
     res_buf := [] |}.

End FilterSample.

(** ** Vocabulary of the properties *)

(** Member [key] of an object reads as the text [s]: it is the string [s],
    or it is absent and [s] is empty. *)
Definition member_is (members : list (string * Json.Value)) (key s : string)
    : Prop :=
  Json.find key members = Some (Json.stringValue s) ∨
  (Json.find key members = None ∧ s = "").

(** The entry of the array of [list_open_params] that declares [param]. *)
Definition describes (entry : Json.Value) (param : open_param) : Prop :=
  ∃ members, entry = Json.objectValue members ∧
    member_is members "value" (value param) ∧ value param ≠ "" ∧
    member_is members "desc" (desc param) ∧
    member_is members "separator" (separator param).

(** An entry whose [value] is empty or absent: a null entry, or an object
    in which [value] is missing, null or the empty string. *)
Definition no_value (entry : Json.Value) : Prop :=
  entry = Json.nullValue ∨
  ∃ members, entry = Json.objectValue members ∧
    (Json.find "value" members = None ∨
     Json.find "value" members = Some Json.nullValue ∨
     Json.find "value" members = Some (Json.stringValue "")).

(** What an [arg] object says of one of its boolean properties. *)
Definition says_true (arg : list (string * Json.Value)) (key : string) : Prop :=
  Json.find key arg = Some (Json.booleanValue true).

Definition not_says_true (arg : list (string * Json.Value)) (key : string) : Prop :=
  Json.find key arg = None ∨ Json.find key arg = Some Json.nullValue ∨
  Json.find key arg = Some (Json.booleanValue false).

(** A field entry of the array of [get_fields] with a type of the look-up
    table, a name and a description that are not empty, an [isList] that is
    absent or boolean, and the object [arg] as its argument declaration. *)
Definition field_entry_with_arg (entry : Json.Value) (fname : string)
    (arg : list (string * Json.Value)) : Prop :=
  ∃ members ftype fdisplay fdesc,
    entry = Json.objectValue members ∧
    Json.find "type" members = Some (Json.stringValue ftype) ∧
    is_Some (m_pt_lut ftype) ∧
    Json.find "name" members = Some (Json.stringValue fname) ∧ fname ≠ "" ∧
    member_is members "display" fdisplay ∧
    Json.find "desc" members = Some (Json.stringValue fdesc) ∧ fdesc ≠ "" ∧
    (Json.find "isList" members = None ∨
     ∃ b, Json.find "isList" members = Some (Json.booleanValue b)) ∧
    Json.find "arg" members = Some (Json.objectValue arg).

(** The closure of the argument flags of a field. *)
Definition flag_closure `{host_env} (flags : Z) : Prop :=
  (has_flag flags EPF_ARG_REQUIRED = true →
   has_flag flags EPF_ARG_INDEX = true ∨ has_flag flags EPF_ARG_KEY = true) ∧
  (has_flag flags EPF_ARG_INDEX = true ∨ has_flag flags EPF_ARG_KEY = true →
   has_flag flags EPF_ARG_ALLOWED = true).

(** The members the capability blocks of [resolve_dylib_symbols] leave
    alone. *)
Definition same_identity (p q : sinsp_plugin) : Prop :=
  m_handle q = m_handle p ∧ m_inited q = m_inited p ∧ m_state q = m_state p ∧
  m_name q = m_name p ∧ m_caps q = m_caps p ∧
  m_plugin_version q = m_plugin_version p.

(** The text of member [key] of an entry, as the host reads it. *)
Definition member_text (entry : Json.Value) (key : string) : outcome string :=
  v ← Json.subscript entry key; Json.asString v.

(** The flags the host gives to the fields of a plugin. *)
Definition plugin_field_flags `{host_env} : list Z :=
  [EPF_ARG_REQUIRED; EPF_TABLE_ONLY; EPF_INFO; EPF_CONVERSATION;
   EPF_IS_LIST; EPF_ARG_ALLOWED; EPF_ARG_INDEX; EPF_ARG_KEY].

(** Two field descriptions that differ in their flags at most. *)
Definition same_texts (tf tf' : filtercheck_field_info.t) : Prop :=
  filtercheck_field_info.m_type tf' = filtercheck_field_info.m_type tf ∧
  filtercheck_field_info.m_print_format tf'
  = filtercheck_field_info.m_print_format tf ∧
  filtercheck_field_info.m_name tf' = filtercheck_field_info.m_name tf ∧
  filtercheck_field_info.m_display tf' = filtercheck_field_info.m_display tf ∧
  filtercheck_field_info.m_description tf'
  = filtercheck_field_info.m_description tf.

(** The bitmap of compatible sources agrees with the event sources of the
    inspector: each entry is the compatibility of the source at its index
    with the extract sources of the plugin. *)
Definition bitmap_consistent (event_sources : list string)
    (fc : sinsp_filter_check_plugin) : Prop :=
  ∀ i b, m_compatible_plugin_sources_bitmap fc !! i = Some b →
         ∃ source, event_sources !! i = Some source ∧
                   b = is_source_compatible
                         (extract_event_sources (m_eplugin fc)) source.

(** The part of a token before its first space. *)
Definition up_to_space (str : string) : string :=
  match find_first_of " " str with
  | Some val_end => string_take val_end str
  | None => str
  end.

(** The check after the argument has been cut out of the token. *)
Definition with_argument (fc : sinsp_filter_check_plugin) (arg : string)
    : sinsp_filter_check_plugin :=
  set_arg (set_m_argstr (set_arg (set_m_argstr fc "") false None 0) arg)
    true None 0.

(** * Properties *)

Section Lifecycle.

Context `{env : host_env}.

Lemma m_inited_set_m_inited p b : m_inited (set_m_inited p b) = b.
Proof. reflexivity. Qed.

Lemma m_name_after_entry_point p state :
  m_name (set_m_inited (if negb (state =? 0) then set_m_state p state else p) true)
  = m_name p.
Proof. destruct (state =? 0); reflexivity. Qed.

(** Whatever [init] does, it leaves the name alone. *)
Lemma init_keeps_name p config errstr :
  m_name (init p config errstr).2 = m_name p.
Proof.
  unfold init.
  destruct (m_inited p); [reflexivity|].
  destruct (plugin_api.init _) as [api_init|]; [|reflexivity].
  destruct (validate_init_config p config) as [conf| |]; try reflexivity.
  destruct (api_init _) as [state rc].
  destruct (negb (rc =? SS_PLUGIN_SUCCESS)).
  - destruct (get_last_error _); cbn [snd]; apply m_name_after_entry_point.
  - cbn [snd]; apply m_name_after_entry_point.
Qed.

(** A call of [init] that returns [true] leaves the object initialized. *)
Lemma init_true_inited p config errstr e p' :
  init p config errstr = (Ret (true, e), p') → m_inited p' = true.
Proof.
  unfold init. intros H.
  destruct (m_inited p); [discriminate|].
  destruct (plugin_api.init _) as [api_init|]; [|discriminate].
  destruct (validate_init_config p config) as [conf| |]; [|discriminate..].
  destruct (api_init _) as [state rc].
  destruct (negb (rc =? SS_PLUGIN_SUCCESS)).
  - destruct (get_last_error _); discriminate.
  - injection H as _ <-. reflexivity.
Qed.

(** On an initialized object [init] only reports the second call. *)
Lemma init_on_inited p config errstr :
  m_inited p = true →
  init p config errstr
  = (Ret (false, "plugin has been initialized twice: " +:+ m_name p), p).
Proof. intros Hin. unfold init. rewrite Hin. reflexivity. Qed.

(** A call of [init] that reaches the entry point of the plugin and
    returns leaves the object initialized, whatever it returns. *)
Lemma init_false_inited p config errstr api_init e p' :
  m_inited p = false →
  plugin_api.init (api (m_handle p)) = Some api_init →
  init p config errstr = (Ret (false, e), p') →
  m_inited p' = true.
Proof.
  intros Hin Hapi. unfold init. rewrite Hin, Hapi. intros H.
  destruct (validate_init_config p config) as [conf| |]; [|discriminate..].
  destruct (api_init _) as [state rc].
  destruct (negb (rc =? SS_PLUGIN_SUCCESS)).
  - destruct (get_last_error _); [|discriminate..].
    injection H as _ <-. reflexivity.
  - discriminate.
Qed.

(** C1.  When a first call of [init] on a plugin succeeds, a second call,
    with any configuration, returns [false] and leaves in [errstr] the
    text "plugin has been initialized twice: " followed by the name of
    the plugin; the object is not changed by the second call. *)
Theorem init_twice p config errstr e p' config' errstr' :
  init p config errstr = (Ret (true, e), p') →
  init p' config' errstr'
  = (Ret (false, "plugin has been initialized twice: " +:+ name p), p').
Proof.
  intros Hfirst.
  rewrite (init_on_inited p' config' errstr' (init_true_inited _ _ _ _ _ Hfirst)).
  pose proof (init_keeps_name p config errstr) as Hname.
  rewrite Hfirst in Hname. cbn [snd] in Hname.
  unfold name. rewrite Hname. reflexivity.
Qed.

(** C2, as amended.  When the entry point of the plugin returns a state
    handle that is not null, the host stores it in [m_state] and marks
    the object initialized, whatever the result code.  On a result code
    other than success [init] returns [false] with, in [errstr], the text
    "Could not initialize plugin: " followed by what the plugin's
    [get_last_error] gives for that handle; on success it returns [true]
    and leaves [errstr] as it was. *)
Theorem init_keeps_returned_state p config errstr api_init api_get_last_error
    conf state rc :
  m_inited p = false →
  plugin_api.init (api (m_handle p)) = Some api_init →
  plugin_api.get_last_error (api (m_handle p)) = Some api_get_last_error →
  validate_init_config p config = Ret conf →
  api_init {| config := conf;
              tables := has_flag (m_caps p) (Z.lor CAP_PARSING CAP_EXTRACTION) |}
  = (state, rc) →
  state ≠ 0 →
  let p' := set_m_inited (set_m_state p state) true in
  m_state p' = state ∧ m_inited p' = true ∧
  init p config errstr
  = if rc =? SS_PLUGIN_SUCCESS
    then (Ret (true, errstr), p')
    else (Ret (false, "Could not initialize plugin: "
                      +:+ str_from_alloc_charbuf (api_get_last_error state)), p').
Proof.
  intros Hin Hapi Hgle Hconf Hcall Hstate p'.
  split; [reflexivity|]. split; [reflexivity|].
  unfold init. rewrite Hin, Hapi, Hconf, Hcall.
  apply Z.eqb_neq in Hstate. rewrite Hstate. cbn [negb].
  destruct (rc =? SS_PLUGIN_SUCCESS); cbn [negb]; [reflexivity|].
  unfold get_last_error. cbn [m_inited set_m_inited m_state set_m_state negb].
  rewrite Hstate. cbn [negb m_handle set_m_inited set_m_state].
  rewrite Hgle. reflexivity.
Qed.

End Lifecycle.

Section Guards.

Context `{env : host_env}.

(** C3.  On a plugin object that is not initialized, each of
    [get_last_error], [as_scap_source], [get_progress], [event_to_string],
    [list_open_params], [extract_fields] and [parse_event] throws the
    exception "plugin capability used before init: " followed by the name
    of the plugin, and leaves the object as it is; the accessors [name],
    [description], [plugin_version] and [caps] return the stored members. *)
Theorem not_initialized_operations_fail p evt num_fields fields_addr :
  m_inited p = false →
  let not_init :=
    sinsp_exception ("plugin capability used before init: " +:+ name p) in
  get_last_error p = Throw not_init ∧
  as_scap_source p = (Throw not_init, p) ∧
  get_progress p = Throw not_init ∧
  event_to_string p evt = Throw not_init ∧
  list_open_params p = Throw not_init ∧
  extract_fields p evt num_fields fields_addr = Throw not_init ∧
  parse_event p evt = Throw not_init ∧
  name p = m_name p ∧ description p = m_description p ∧
  plugin_version p = m_plugin_version p ∧ caps p = m_caps p.
Proof.
  intros Hin not_init.
  unfold get_last_error, as_scap_source, get_progress, event_to_string,
    list_open_params, extract_fields, parse_event.
  rewrite Hin. cbn [negb].
  repeat split; reflexivity.
Qed.

(** [destroy] brings the object back to the state the guard rejects. *)
Lemma destroy_not_inited p : m_inited (destroy p) = false.
Proof.
  unfold destroy.
  destruct (negb (m_state (set_m_inited p false) =? 0) && _); reflexivity.
Qed.

(** The texts the host raises past the guard do not start like the
    guard's. *)
Lemma error_in_plugin_is_not_guard {A : Type} p (rest : string) :
  @throw A ("error in plugin " +:+ rest) ≠ Throw (not_init_exception p).
Proof. unfold throw, not_init_exception, s_not_init_err. cbn. discriminate. Qed.

Lemma mapM_not_throw {A B : Type} (f : A → outcome B) (e : exn) (l : list A) :
  (∀ x, f x ≠ Throw e) → mapM f l ≠ Throw e.
Proof.
  intros Hf. induction l as [|x l IH]; cbn; [discriminate|].
  pose proof (Hf x) as Hx.
  destruct (f x) as [y| |]; cbn; [|intros [= ->]; by apply Hx|discriminate].
  destruct (mapM f l) as [ys| |]; cbn; [discriminate|assumption|discriminate].
Qed.

Lemma Json_subscript_not_guard p v key :
  Json.subscript v key ≠ Throw (not_init_exception p).
Proof. destruct v; cbn; discriminate. Qed.

Lemma Json_asString_not_guard p v :
  Json.asString v ≠ Throw (not_init_exception p).
Proof. destruct v; cbn; discriminate. Qed.

Lemma bind_not_throw {A B : Type} (c : outcome A) (k : A → outcome B) (e : exn) :
  c ≠ Throw e → (∀ a, k a ≠ Throw e) → (a ← c; k a) ≠ Throw e.
Proof.
  intros Hc Hk.
  destruct c as [a| |]; cbn; [apply Hk|intros [= ->]; by apply Hc|discriminate].
Qed.

Lemma open_param_of_not_guard p entry :
  open_param_of p entry ≠ Throw (not_init_exception p).
Proof.
  unfold open_param_of.
  apply bind_not_throw; [apply Json_subscript_not_guard|intros jvalue].
  apply bind_not_throw; [apply Json_asString_not_guard|intros param_value].
  destruct (string_empty param_value); [apply error_in_plugin_is_not_guard|].
  apply bind_not_throw; [apply Json_subscript_not_guard|intros jdesc].
  apply bind_not_throw; [apply Json_asString_not_guard|intros param_desc].
  apply bind_not_throw; [apply Json_subscript_not_guard|intros jsep].
  apply bind_not_throw; [apply Json_asString_not_guard|intros param_sep].
  discriminate.
Qed.

Lemma call_not_throw {F : Type} (fp : option F) (e : exn) : call fp ≠ Throw e.
Proof. destruct fp; discriminate. Qed.

Lemma get_last_error_past_guard p :
  m_inited p = true → get_last_error p ≠ Throw (not_init_exception p).
Proof.
  intros Hin. unfold get_last_error. rewrite Hin. cbn [negb].
  destruct (negb (m_state p =? 0)); [|discriminate].
  apply bind_not_throw; [apply call_not_throw|discriminate].
Qed.

Lemma as_scap_source_past_guard p :
  m_inited p = true → (as_scap_source p).1 ≠ Throw (not_init_exception p).
Proof.
  intros Hin. unfold as_scap_source. rewrite Hin. cbn [negb].
  destruct (negb (has_flag (caps p) CAP_SOURCING)); cbn [fst]; [|discriminate].
  unfold throw, not_init_exception, s_not_init_err. cbn. discriminate.
Qed.

Lemma get_progress_past_guard p :
  m_inited p = true → get_progress p ≠ Throw (not_init_exception p).
Proof.
  intros Hin. unfold get_progress. rewrite Hin. cbn [negb].
  destruct (plugin_api.get_progress _) as [f|]; [|discriminate].
  destruct (sp_handle _ =? 0); [discriminate|].
  destruct (f _ _); discriminate.
Qed.

Lemma event_to_string_past_guard p evt :
  m_inited p = true → event_to_string p evt ≠ Throw (not_init_exception p).
Proof.
  intros Hin. unfold event_to_string. rewrite Hin. cbn [negb]. cbv zeta.
  destruct (string_empty _); [|discriminate].
  destruct (forallb isprint _); discriminate.
Qed.

Lemma list_open_params_past_guard p :
  m_inited p = true → list_open_params p ≠ Throw (not_init_exception p).
Proof.
  intros Hin. unfold list_open_params. rewrite Hin. cbn [negb].
  destruct (plugin_api.list_open_params _) as [f|]; [|discriminate].
  destruct (negb (m_state p =? 0)); [|discriminate].
  destruct (f (m_state p)) as [charbuf rc].
  destruct (negb (rc =? SS_PLUGIN_SUCCESS)).
  - apply bind_not_throw; [by apply get_last_error_past_guard|intros e].
    apply error_in_plugin_is_not_guard.
  - destruct (negb (string_empty _)); [|discriminate].
    destruct (Reader_parse _) as [[]|];
      try apply error_in_plugin_is_not_guard.
    apply mapM_not_throw, open_param_of_not_guard.
Qed.

Lemma extract_fields_past_guard p evt num_fields fields_addr :
  m_inited p = true →
  extract_fields p evt num_fields fields_addr ≠ Throw (not_init_exception p).
Proof.
  intros Hin. unfold extract_fields. rewrite Hin. cbn [negb].
  apply bind_not_throw; [apply call_not_throw|discriminate].
Qed.

Lemma parse_event_past_guard p evt :
  m_inited p = true → parse_event p evt ≠ Throw (not_init_exception p).
Proof.
  intros Hin. unfold parse_event. rewrite Hin. cbn [negb].
  apply bind_not_throw; [apply call_not_throw|discriminate].
Qed.

(** C10.  When [init] has reached the entry point of the plugin and has
    returned [false], the object is marked initialized: a further call of
    [init] returns [false] with "plugin has been initialized twice: " and
    the name in [errstr], and none of the guarded operations throws the
    exception "plugin capability used before init" any more. *)
Theorem failed_init_marks_initialized p config errstr api_init e p'
    config' errstr' evt num_fields fields_addr :
  m_inited p = false →
  plugin_api.init (api (m_handle p)) = Some api_init →
  init p config errstr = (Ret (false, e), p') →
  let not_init :=
    sinsp_exception ("plugin capability used before init: " +:+ name p') in
  m_inited p' = true ∧
  init p' config' errstr'
  = (Ret (false, "plugin has been initialized twice: " +:+ name p'), p') ∧
  get_last_error p' ≠ Throw not_init ∧
  (as_scap_source p').1 ≠ Throw not_init ∧
  get_progress p' ≠ Throw not_init ∧
  event_to_string p' evt ≠ Throw not_init ∧
  list_open_params p' ≠ Throw not_init ∧
  extract_fields p' evt num_fields fields_addr ≠ Throw not_init ∧
  parse_event p' evt ≠ Throw not_init.
Proof.
  intros Hin Hapi Hinit not_init.
  assert (m_inited p' = true) as Hin'
    by exact (init_false_inited _ _ _ _ _ _ Hin Hapi Hinit).
  split; [assumption|].
  split; [by apply init_on_inited|].
  repeat split.
  - by apply get_last_error_past_guard.
  - by apply as_scap_source_past_guard.
  - by apply get_progress_past_guard.
  - by apply event_to_string_past_guard.
  - by apply list_open_params_past_guard.
  - by apply extract_fields_past_guard.
  - by apply parse_event_past_guard.
Qed.

End Guards.

Section ConfigValidation.

Context `{env : host_env}.

Lemma string_empty_false s : s ≠ "" → string_empty s = false.
Proof. destruct s; [congruence|reflexivity]. Qed.


(** C6.  When the plugin supplies a schema text that is not empty, with
    the JSON schema type, and the text parses to a JSON object, [init]
    validates against it the configuration, or [{}] when the configuration
    is the empty string.  When the validation fails, [init] throws, before
    the entry point of the plugin is reached and with the object left as
    it was, the exception "error in plugin NAME init config: In PATH,
    MESSAGE", where PATH and MESSAGE are the context and the description
    of the first error of the validation results, and of no other. *)
Theorem init_schema_violation p config errstr api_init api_get_init_schema
    schema members configJson error others :
  m_inited p = false →
  plugin_api.init (api (m_handle p)) = Some api_init →
  plugin_api.get_init_schema (api (m_handle p)) = Some api_get_init_schema →
  api_get_init_schema SS_PLUGIN_SCHEMA_NONE = (Some schema, SS_PLUGIN_SCHEMA_JSON) →
  SS_PLUGIN_SCHEMA_JSON ≠ SS_PLUGIN_SCHEMA_NONE →
  schema ≠ "" →
  Reader_parse schema = Some (Json.objectValue members) →
  Reader_parse (if string_empty config then "{}" else config) = Some configJson →
  valijson_validate (Json.objectValue members) configJson
  = Ret (false, error :: others) →
  init p config errstr
  = (Throw (sinsp_exception
             ("error in plugin " +:+ name p +:+ " init config: In "
              +:+ accumulate (valijson.context error) +:+ ", "
              +:+ valijson.description error)), p).
Proof.
  intros Hin Hinit Hget Hschema Hjson Hne Hparse Hconfig Hvalidate.
  unfold init. rewrite Hin, Hinit.
  unfold validate_init_config, get_init_schema. rewrite Hget, Hschema.
  cbn [str_from_alloc_charbuf].
  rewrite (string_empty_false _ Hne).
  apply Z.eqb_neq in Hjson. rewrite Hjson, Z.eqb_refl. cbn [negb andb].
  unfold validate_init_config_json_schema.
  rewrite Hparse, Hconfig, Hvalidate. reflexivity.
Qed.

End ConfigValidation.

Section OpenParams.

Context `{env : host_env}.

Lemma mapM_Forall2 {A B : Type} (f : A → outcome B) l l' :
  Forall2 (λ x y, f x = Ret y) l l' → mapM f l = Ret l'.
Proof.
  induction 1 as [|x y l l' Hx _ IH]; cbn; [reflexivity|].
  rewrite Hx. cbn. rewrite IH. reflexivity.
Qed.

Lemma mapM_app_throw {A B : Type} (f : A → outcome B) l ys x e rest :
  mapM f l = Ret ys → f x = Throw e → mapM f (l ++ x :: rest) = Throw e.
Proof.
  revert ys. induction l as [|a l IH]; intros ys Hl Hx; cbn.
  - rewrite Hx. reflexivity.
  - cbn in Hl. destruct (f a) as [b| |]; cbn in *; [|discriminate..].
    destruct (mapM f l) as [bs| |] eqn:Hbs; cbn in *; [|discriminate..].
    rewrite (IH bs eq_refl Hx). reflexivity.
Qed.

Lemma member_is_asString members key s :
  member_is members key s →
  (v ← Json.subscript (Json.objectValue members) key; Json.asString v) = Ret s.
Proof. intros [H|[H ->]]; cbn; rewrite H; reflexivity. Qed.

Lemma open_param_of_describes p entry param :
  describes entry param → open_param_of p entry = Ret param.
Proof.
  intros (members & -> & Hv & Hne & Hd & Hs).
  unfold open_param_of.
  pose proof (member_is_asString _ _ _ Hv) as Ev.
  pose proof (member_is_asString _ _ _ Hd) as Ed.
  pose proof (member_is_asString _ _ _ Hs) as Es.
  cbn in Ev, Ed, Es |- *.
  destruct (Json.asString (default Json.nullValue (Json.find "value" members)))
    as [v| |]; cbn in Ev |- *; [|discriminate..].
  injection Ev as ->.
  destruct (value param) as [|c v] eqn:Hval; [congruence|]. cbn.
  destruct (Json.asString (default Json.nullValue (Json.find "desc" members)))
    as [d| |]; cbn in Ed |- *; [|discriminate..].
  injection Ed as ->.
  destruct (Json.asString (default Json.nullValue (Json.find "separator" members)))
    as [sp| |]; cbn in Es |- *; [|discriminate..].
  injection Es as ->.
  destruct param; cbn in *. subst. reflexivity.
Qed.

Lemma open_param_of_no_value p entry :
  no_value entry →
  open_param_of p entry
  = throw ("error in plugin " +:+ name p
           +:+ ": list_open_params has entry with no value").
Proof.
  intros [-> | (members & -> & [Hv | [Hv | Hv]])];
    unfold open_param_of; cbn; rewrite ?Hv; reflexivity.
Qed.

(** C8.  On an initialized plugin with a state, whose [list_open_params]
    entry point reports success:
    - a response that is [NULL] or the empty text gives the empty list;
    - a response that does not parse to a JSON array is rejected with
      the exception "error in plugin NAME: list_open_params returned a
      non-array JSON";
    - an array whose entries each declare an [open_param] gives the list
      of these, in order;
    - an array in which an entry has an empty or absent [value], the
      entries before it having been accepted, is rejected with the
      exception "error in plugin NAME: list_open_params has entry with no
      value". *)
Theorem list_open_params_parses p api_list_open_params charbuf :
  m_inited p = true →
  m_state p ≠ 0 →
  plugin_api.list_open_params (api (m_handle p)) = Some api_list_open_params →
  api_list_open_params (m_state p) = (charbuf, SS_PLUGIN_SUCCESS) →
  let jsonString := str_from_alloc_charbuf charbuf in
  (jsonString = "" → list_open_params p = Ret []) ∧
  (jsonString ≠ "" →
   (∀ elems, Reader_parse jsonString ≠ Some (Json.arrayValue elems)) →
   list_open_params p
   = throw ("error in plugin " +:+ name p
            +:+ ": list_open_params returned a non-array JSON")) ∧
  (∀ elems params,
     jsonString ≠ "" →
     Reader_parse jsonString = Some (Json.arrayValue elems) →
     Forall2 describes elems params →
     list_open_params p = Ret params) ∧
  (∀ accepted params entry rest,
     jsonString ≠ "" →
     Reader_parse jsonString = Some (Json.arrayValue (accepted ++ entry :: rest)) →
     mapM (open_param_of p) accepted = Ret params →
     no_value entry →
     list_open_params p
     = throw ("error in plugin " +:+ name p
              +:+ ": list_open_params has entry with no value")).
Proof.
  intros Hin Hstate Hapi Hcall jsonString.
  apply Z.eqb_neq in Hstate.
  assert (list_open_params p
          = if negb (string_empty jsonString) then
              match Reader_parse jsonString with
              | Some (Json.arrayValue elems) => mapM (open_param_of p) elems
              | _ => throw ("error in plugin " +:+ name p
                            +:+ ": list_open_params returned a non-array JSON")
              end
            else Ret []) as ->.
  { unfold list_open_params. rewrite Hin, Hapi, Hstate. cbn [negb].
    rewrite Hcall, Z.eqb_refl. reflexivity. }
  repeat split.
  - intros ->. reflexivity.
  - intros Hne Hnot. rewrite (string_empty_false _ Hne). cbn [negb].
    destruct (Reader_parse jsonString) as [[]|]; try reflexivity.
    exfalso. by eapply Hnot.
  - intros elems params Hne Hparse Hall.
    rewrite (string_empty_false _ Hne), Hparse. cbn [negb].
    apply mapM_Forall2.
    eapply Forall2_impl; [exact Hall|].
    intros entry param. apply open_param_of_describes.
  - intros accepted params entry rest Hne Hparse Hall Hno.
    rewrite (string_empty_false _ Hne), Hparse. cbn [negb].
    eapply mapM_app_throw; [exact Hall|by apply open_param_of_no_value].
Qed.

End OpenParams.

Section SourcesAndCodes.

Context `{env : host_env}.

Lemma is_source_compatible_spec (sources : gset string) (source : string) :
  is_source_compatible sources source = true ↔ sources = ∅ ∨ source ∈ sources.
Proof.
  unfold is_source_compatible.
  rewrite orb_true_iff, !bool_decide_eq_true. reflexivity.
Qed.

(** The sets [resolve_dylib_sources_codes] returns, from the sources
    [declared] that the plugin lists. *)
Lemma resolve_dylib_sources_codes_inv p symsources get_sources get_codes
    sources codes :
  resolve_dylib_sources_codes p symsources get_sources get_codes
  = Ret (sources, codes) →
  ∃ declared : gset string,
    sources
    = (if has_flag (m_caps p) CAP_SOURCING && negb (string_empty (m_event_source p))
       then {[m_event_source p]} ∪ declared else declared) ∧
    codes
    = (if bool_decide (declared_codes get_codes = ∅)
       then if is_source_compatible sources sinsp_syscall_event_source_name
            then all_event_set
            else {[PPME_PLUGINEVENT_E]} ∪ declared_codes get_codes
       else declared_codes get_codes).
Proof.
  unfold resolve_dylib_sources_codes.
  match goal with
  | |- (mbind _ ?c) = _ → _ => destruct c as [declared| |]
  end; cbn; [|discriminate..].
  intros H. exists declared.
  destruct (bool_decide (declared_codes get_codes = ∅)).
  - destruct (is_source_compatible _ _) eqn:Hcompat;
      injection H as <- <-; rewrite ?Hcompat; split; reflexivity.
  - injection H as <- <-. split; reflexivity.
Qed.

(** C5.  When the plugin declares no event code, the codes resolved are
    all the events of the syscall source if the resolved sources are
    compatible with the syscall source, which they are when they are empty
    or contain its name, and the plugin event code alone otherwise. *)
Theorem empty_codes_default p symsources get_sources get_codes sources codes :
  resolve_dylib_sources_codes p symsources get_sources get_codes
  = Ret (sources, codes) →
  declared_codes get_codes = ∅ →
  (is_source_compatible sources sinsp_syscall_event_source_name = true
   ↔ sources = ∅ ∨ sinsp_syscall_event_source_name ∈ sources) ∧
  codes = if is_source_compatible sources sinsp_syscall_event_source_name
          then all_event_set
          else {[PPME_PLUGINEVENT_E]}.
Proof.
  intros Hres Hdecl. split; [apply is_source_compatible_spec|].
  apply resolve_dylib_sources_codes_inv in Hres as (declared & _ & ->).
  rewrite Hdecl, bool_decide_eq_true_2 by reflexivity.
  destruct (is_source_compatible _ _); [reflexivity|].
  apply (right_id_L ∅ (∪)).
Qed.

Lemma own_source_resolved p symsources get_sources get_codes sources codes :
  resolve_dylib_sources_codes p symsources get_sources get_codes
  = Ret (sources, codes) →
  has_flag (m_caps p) CAP_SOURCING = true →
  m_event_source p ≠ "" →
  m_event_source p ∈ sources.
Proof.
  intros Hres Hcap Hne.
  apply resolve_dylib_sources_codes_inv in Hres as (declared & -> & _).
  rewrite Hcap, (string_empty_false _ Hne). cbn [negb andb].
  set_solver.
Qed.

Lemma resolve_extraction_inv p p' :
  resolve_extraction p = Ret p' →
  m_caps p' = m_caps p ∧ m_event_source p' = m_event_source p ∧
  (has_flag (m_caps p) CAP_EXTRACTION = true →
   has_flag (m_caps p) CAP_SOURCING = true →
   m_event_source p ≠ "" →
   m_event_source p ∈ m_extract_event_sources p').
Proof.
  unfold resolve_extraction.
  destruct (has_flag (m_caps p) CAP_EXTRACTION);
    [|intros [= <-]; repeat split; discriminate].
  destruct (call _) as [sfields| |]; cbn; [|discriminate..].
  destruct sfields as [json|]; [|discriminate].
  destruct (Reader_parse json) as [[]|]; try discriminate.
  destruct (mapM _ _) as [fs| |]; cbn; [|discriminate..].
  destruct (resolve_dylib_sources_codes _ _ _ _) as [[sources codes]| |] eqn:Hres;
    cbn; [|discriminate..].
  intros [= <-]. repeat split.
  intros _ Hcap Hne. cbn. by eapply own_source_resolved.
Qed.

Lemma resolve_parsing_inv p p' :
  resolve_parsing p = Ret p' →
  m_caps p' = m_caps p ∧ m_event_source p' = m_event_source p ∧
  m_extract_event_sources p' = m_extract_event_sources p ∧
  (has_flag (m_caps p) CAP_PARSING = true →
   has_flag (m_caps p) CAP_SOURCING = true →
   m_event_source p ≠ "" →
   m_event_source p ∈ m_parse_event_sources p').
Proof.
  unfold resolve_parsing.
  destruct (has_flag (m_caps p) CAP_PARSING);
    [|intros [= <-]; repeat split; discriminate].
  destruct (resolve_dylib_sources_codes _ _ _ _) as [[sources codes]| |] eqn:Hres;
    cbn; [|discriminate..].
  intros [= <-]. repeat split.
  intros _ Hcap Hne. cbn. by eapply own_source_resolved.
Qed.

(** C9.  On a plugin that [resolve_dylib_symbols] has accepted, that has
    the sourcing capability and an event source name that is not empty,
    the name is among the extract sources when the plugin has the
    extraction capability, and among the parse sources when it has the
    parsing capability, whatever the plugin lists as its sources. *)
Theorem own_source_is_compatible p errstr e p' :
  resolve_dylib_symbols p errstr = Ret (true, e, p') →
  has_flag (caps p') CAP_SOURCING = true →
  event_source p' ≠ "" →
  (has_flag (caps p') CAP_EXTRACTION = true →
   event_source p' ∈ extract_event_sources p') ∧
  (has_flag (caps p') CAP_PARSING = true →
   event_source p' ∈ parse_event_sources p').
Proof.
  unfold resolve_dylib_symbols, caps, event_source, extract_event_sources,
    parse_event_sources.
  destruct (plugin_check_required_api_version _); [discriminate|].
  destruct (plugin_check_required_symbols _); [discriminate|].
  destruct (call (plugin_api.get_name _)) as [nm| |]; cbn; [|discriminate..].
  destruct (call (plugin_api.get_description _)) as [ds| |]; cbn; [|discriminate..].
  destruct (call (plugin_api.get_contact _)) as [ct| |]; cbn; [|discriminate..].
  destruct (call (plugin_api.get_version _)) as [ver| |]; cbn; [|discriminate..].
  destruct (negb (sinsp_version_valid _)); [discriminate|].
  destruct (resolve_extraction _) as [q| |] eqn:Hq; cbn; [|discriminate..].
  destruct (resolve_parsing q) as [r| |] eqn:Hr; cbn; [|discriminate..].
  intros [= _ <-].
  apply resolve_extraction_inv in Hq as (Hc1 & He1 & Hx).
  apply resolve_parsing_inv in Hr as (Hc2 & He2 & Hs2 & Hy).
  rewrite Hc2, He2, Hs2. intros Hcap Hne.
  rewrite Hc1, He1 in *.
  split; intros Hthis.
  - by apply Hx.
  - apply Hy; by rewrite ?Hc1, ?He1.
Qed.

End SourcesAndCodes.

Section FieldFlags.

Context `{env : host_env}.

(** *** Single-bit masks *)

Lemma land_bit fl k n :
  0 ≤ k → 0 ≤ n →
  Z.testbit (Z.land fl (Z.shiftl 1 k)) n = Z.testbit fl n && (k =? n).
Proof.
  intros Hk Hn. rewrite Z.land_spec, Z.shiftl_1_l, Z.pow2_bits_eqb by assumption.
  reflexivity.
Qed.

Lemma has_flag_bit fl k : 0 ≤ k → has_flag fl (Z.shiftl 1 k) = Z.testbit fl k.
Proof.
  intros Hk. unfold has_flag.
  destruct (Z.testbit fl k) eqn:Hbit.
  - apply negb_true_iff, Z.eqb_neq. intros H0.
    pose proof (land_bit fl k k Hk Hk) as Hl.
    rewrite H0, Z.bits_0, Hbit, Z.eqb_refl in Hl. discriminate.
  - apply negb_false_iff, Z.eqb_eq, Z.bits_inj'. intros n Hn.
    rewrite land_bit, Z.bits_0 by assumption.
    destruct (Z.eqb_spec k n) as [<-|]; [rewrite Hbit|rewrite andb_false_r];
      reflexivity.
Qed.

Lemma has_flag_or fl k j :
  0 ≤ k → 0 ≤ j →
  has_flag (Z.lor fl (Z.shiftl 1 k)) (Z.shiftl 1 j)
  = has_flag fl (Z.shiftl 1 j) || (k =? j).
Proof.
  intros Hk Hj. rewrite !has_flag_bit by assumption.
  rewrite Z.lor_spec, Z.shiftl_1_l, Z.pow2_bits_eqb by assumption.
  reflexivity.
Qed.

Lemma has_flag_0 mask : has_flag 0 mask = false.
Proof. unfold has_flag. rewrite Z.land_0_l. reflexivity. Qed.

(** *** The flags through the parsing of one field *)

(** The bits behind [field_flags_are_bits], with the facts on them that
    the proofs below use. *)
Ltac flag_bits H :=
  let ks := fresh "ks" in
  let Hnone := fresh "Hnone" in
  let Hnd := fresh "Hnd" in
  let Hpos := fresh "Hpos" in
  let Heq := fresh "Heq" in
  destruct H as (Hnone & ks & Hnd & Hpos & Heq);
  do 9 (destruct ks as [|? ks]; try discriminate Heq);
  injection Heq as Hreq Htab Hinfo Hconv Hlist Hall Hidx Hkey;
  rewrite !Forall_cons in Hpos;
  rewrite !NoDup_cons, !not_elem_of_cons in Hnd;
  destruct_and!.

Ltac eval_bits :=
  rewrite ?has_flag_or, ?has_flag_0 by assumption;
  repeat match goal with
         | |- context [?a =? ?b] => destruct (Z.eqb_spec a b); [congruence|]
         end;
  rewrite ?Z.eqb_refl, ?orb_false_r, ?orb_true_r.

Lemma arg_property_inv p root key set tf tf' :
  arg_property p root key set tf = Ret tf' → tf' = tf ∨ tf' = set tf.
Proof.
  unfold arg_property.
  destruct (Json.get root key) as [prop| |]; cbn; [|discriminate..].
  destruct (negb (Json.isNull prop)); [|intros [= <-]; by left].
  destruct (negb (Json.isBool prop)); [discriminate|].
  destruct (Json.asBool prop); intros [= <-]; [by right|by left].
Qed.

Lemma resolve_dylib_field_arg_closure p root tf tf' :
  field_flags_are_bits →
  has_flag (filtercheck_field_info.m_flags tf) EPF_ARG_REQUIRED = false →
  has_flag (filtercheck_field_info.m_flags tf) EPF_ARG_INDEX = false →
  has_flag (filtercheck_field_info.m_flags tf) EPF_ARG_KEY = false →
  resolve_dylib_field_arg p root tf = Ret tf' →
  flag_closure (filtercheck_field_info.m_flags tf').
Proof.
  intros Hbits Hr Hi Hk. unfold resolve_dylib_field_arg, flag_closure.
  destruct (Json.isNull root).
  { intros [= <-]. rewrite Hr, Hi, Hk. split; [discriminate|intros [|]; discriminate]. }
  destruct (arg_property p root "isRequired" _ tf) as [tf1| |] eqn:E1;
    cbn; [|discriminate..].
  destruct (arg_property p root "isIndex" _ tf1) as [tf2| |] eqn:E2;
    cbn; [|discriminate..].
  destruct (arg_property p root "isKey" _ tf2) as [tf3| |] eqn:E3;
    cbn; [|discriminate..].
  destruct (has_flag (filtercheck_field_info.m_flags tf3) EPF_ARG_REQUIRED && _) eqn:Hcheck;
    [discriminate|].
  intros [= <-]. split.
  - intros Hreq. rewrite Hreq in Hcheck. cbn in Hcheck.
    apply negb_false_iff, orb_true_iff in Hcheck. exact Hcheck.
  - clear Hcheck.
    apply arg_property_inv in E1, E2, E3.
    flag_bits Hbits.
    rewrite Hreq, Hidx, Hkey, Hall in *.
    destruct E1 as [-> | ->], E2 as [-> | ->], E3 as [-> | ->];
      cbn [filtercheck_field_info.m_flags filtercheck_field_info.or_flag filtercheck_field_info.with_flags]; eval_bits;
      rewrite ?Hi, ?Hk; cbn; try tauto; intros [|]; discriminate.
Qed.

Lemma resolve_property_closure p fname tf prop tf' :
  field_flags_are_bits →
  resolve_property p fname tf prop = Ret tf' →
  flag_closure (filtercheck_field_info.m_flags tf) → flag_closure (filtercheck_field_info.m_flags tf').
Proof.
  intros Hbits. unfold resolve_property, flag_closure.
  destruct (negb (Json.isString prop)); [discriminate|].
  destruct (Json.asString prop) as [str| |]; cbn; [|discriminate..].
  flag_bits Hbits.
  rewrite Hreq, Hidx, Hkey, Hall, Htab, Hinfo, Hconv.
  repeat match goal with
         | |- (if ?b then _ else _) = _ → _ => destruct b
         end;
    intros [= <-]; cbn [filtercheck_field_info.m_flags filtercheck_field_info.or_flag filtercheck_field_info.with_flags]; eval_bits; tauto.
Qed.

Lemma foldM_invariant {A B : Type} (P : B → Prop) (f : B → A → outcome B) :
  (∀ b x b', f b x = Ret b' → P b → P b') →
  ∀ l b b', foldM f b l = Ret b' → P b → P b'.
Proof.
  intros Hstep. induction l as [|x l IH]; cbn; intros b b'.
  - intros [= <-]. tauto.
  - destruct (f b x) as [b1| |] eqn:Hb1; cbn; [|discriminate..].
    intros Hl Hb. eapply IH; [exact Hl|]. by eapply Hstep.
Qed.

(** One step through the body of [resolve_dylib_field]. *)
Ltac field_step :=
  match goal with
  | |- mbind _ ?c = Ret _ → _ =>
      let E := fresh "E" in destruct c eqn:E; cbn [mbind outcome_bind];
      [|discriminate..]
  | |- (if ?b then _ else _) = Ret _ → _ =>
      let E := fresh "E" in destruct b eqn:E; try discriminate
  | |- match m_pt_lut ?t with _ => _ end = Ret _ → _ =>
      let E := fresh "E" in destruct (m_pt_lut t) eqn:E; [|discriminate]
  end.

Lemma resolve_dylib_field_closure p entry tf :
  field_flags_are_bits →
  resolve_dylib_field p entry = Ret tf → flag_closure (filtercheck_field_info.m_flags tf).
Proof.
  intros Hbits. unfold resolve_dylib_field.
  do 13 field_step.
  match goal with
  | |- mbind _ ?c = Ret _ → _ =>
      assert (∀ tf0, c = Ret tf0 →
              has_flag (filtercheck_field_info.m_flags tf0) EPF_ARG_REQUIRED = false ∧
              has_flag (filtercheck_field_info.m_flags tf0) EPF_ARG_INDEX = false ∧
              has_flag (filtercheck_field_info.m_flags tf0) EPF_ARG_KEY = false) as Hblank
  end.
  { intros tf0 Htf0.
    assert (filtercheck_field_info.m_flags tf0 = EPF_NONE ∨ filtercheck_field_info.m_flags tf0 = Z.lor EPF_NONE EPF_IS_LIST)
      as Hflags.
    { repeat match type of Htf0 with
             | (if ?b then _ else _) = _ => destruct b
             end; try discriminate; injection Htf0 as <-; cbn; auto. }
    pose proof Hbits as Hb. flag_bits Hb.
    rewrite Hnone, Hlist in Hflags. rewrite Hreq, Hidx, Hkey.
    destruct Hflags as [-> | ->]; repeat split; eval_bits; reflexivity. }
  field_step. destruct (Hblank _ eq_refl) as (Hr & Hi & Hk). clear Hblank.
  do 2 field_step.
  match goal with
  | Harg : resolve_dylib_field_arg _ _ _ = Ret _ |- _ =>
      pose proof (resolve_dylib_field_arg_closure _ _ _ _ Hbits Hr Hi Hk Harg)
        as Hc
  end.
  do 2 field_step.
  - field_step.
    intros Hfold.
    eapply (foldM_invariant (λ tf, flag_closure (filtercheck_field_info.m_flags tf)));
      [|exact Hfold|exact Hc].
    intros b x b'. by apply resolve_property_closure.
  - by intros [= <-].
Qed.

(** *** The fields of a plugin that has been accepted *)

Lemma mapM_elem_of {A B : Type} (f : A → outcome B) l l' y :
  mapM f l = Ret l' → y ∈ l' → ∃ x, x ∈ l ∧ f x = Ret y.
Proof.
  revert l'. induction l as [|x l IH]; cbn; intros l'.
  - intros [= <-] Hy. by apply elem_of_nil in Hy.
  - destruct (f x) as [b| |] eqn:Hb; cbn; [|discriminate..].
    destruct (mapM f l) as [bs| |]; cbn; [|discriminate..].
    intros [= <-] Hy. apply elem_of_cons in Hy as [-> | Hy].
    + exists x. split; [left|assumption].
    + destruct (IH bs eq_refl Hy) as (x' & Hx' & Hfx').
      exists x'. split; [by right|assumption].
Qed.

Lemma resolve_extraction_fields p p' tf :
  resolve_extraction p = Ret p' → tf ∈ m_fields p' →
  tf ∈ m_fields p ∨ ∃ entry, resolve_dylib_field p entry = Ret tf.
Proof.
  unfold resolve_extraction.
  destruct (has_flag (m_caps p) CAP_EXTRACTION); [|intros [= <-]; by left].
  destruct (call _) as [sfields| |]; cbn; [|discriminate..].
  destruct sfields as [json|]; [|discriminate].
  destruct (Reader_parse json) as [[]|]; try discriminate.
  destruct (mapM _ _) as [fs| |] eqn:Hfs; cbn; [|discriminate..].
  destruct (resolve_dylib_sources_codes _ _ _ _) as [[sources codes]| |];
    cbn; [|discriminate..].
  intros [= <-]. cbn. intros Htf. right.
  destruct (mapM_elem_of _ _ _ _ Hfs Htf) as (entry & _ & Hentry).
  by exists entry.
Qed.

Lemma resolve_parsing_fields p p' :
  resolve_parsing p = Ret p' → m_fields p' = m_fields p.
Proof.
  unfold resolve_parsing.
  destruct (has_flag (m_caps p) CAP_PARSING); [|by intros [= <-]].
  destruct (resolve_dylib_sources_codes _ _ _ _) as [[sources codes]| |];
    cbn; [|discriminate..].
  by intros [= <-].
Qed.

(** The resolution of the fields sees the plugin under the name it has
    just read. *)
Lemma resolve_dylib_symbols_fields handle errstr e p' tf :
  resolve_dylib_symbols (new_sinsp_plugin handle) errstr = Ret (true, e, p') →
  tf ∈ fields p' →
  ∃ q entry, m_name q = m_name p' ∧ resolve_dylib_field q entry = Ret tf.
Proof.
  unfold resolve_dylib_symbols, fields.
  destruct (plugin_check_required_api_version _); [discriminate|].
  destruct (plugin_check_required_symbols _); [discriminate|].
  destruct (call (plugin_api.get_name _)) as [nm| |]; cbn; [|discriminate..].
  destruct (call (plugin_api.get_description _)) as [ds| |]; cbn; [|discriminate..].
  destruct (call (plugin_api.get_contact _)) as [ct| |]; cbn; [|discriminate..].
  destruct (call (plugin_api.get_version _)) as [ver| |]; cbn; [|discriminate..].
  destruct (negb (sinsp_version_valid _)); [discriminate|].
  destruct (resolve_extraction _) as [q| |] eqn:Hq; cbn; [|discriminate..].
  destruct (resolve_parsing q) as [r| |] eqn:Hr; cbn; [|discriminate..].
  intros [= _ <-] Htf.
  rewrite (resolve_parsing_fields _ _ Hr) in Htf.
  destruct (resolve_extraction_fields _ _ _ Hq Htf) as [Hin | (entry & Hentry)].
  - exfalso. revert Hin. unfold resolve_sourcing.
    repeat match goal with
           | |- context [if ?b then _ else _] => destruct b
           | |- context [match ?o with Some _ => _ | None => _ end] => destruct o
           end; cbn; apply not_elem_of_nil.
  - eexists _, entry. split; [|exact Hentry].
    transitivity (m_name q).
    + revert Hq. clear. unfold resolve_extraction.
      repeat match goal with
             | |- context [resolve_sourcing ?x] => generalize (resolve_sourcing x)
             end.
      intros s.
      destruct (has_flag (m_caps s) CAP_EXTRACTION); [|by intros [= <-]].
      destruct (call _) as [sfields| |]; cbn; [|discriminate..].
      destruct sfields as [json|]; [|discriminate].
      destruct (Reader_parse json) as [[]|]; try discriminate.
      destruct (mapM _ _) as [fs| |]; cbn; [|discriminate..].
      destruct (resolve_dylib_sources_codes _ _ _ _) as [[sources codes]| |];
        cbn; [|discriminate..].
      by intros [= <-].
    + revert Hr. clear. unfold resolve_parsing.
      destruct (has_flag (m_caps q) CAP_PARSING); [|by intros [= <-]].
      destruct (resolve_dylib_sources_codes _ _ _ _) as [[sources codes]| |];
        cbn; [|discriminate..].
      by intros [= <-].
Qed.

(** *** The rejection of a required argument that is neither index nor key *)

Lemma arg_property_says_true p arg key set tf :
  says_true arg key →
  arg_property p (Json.objectValue arg) key set tf = Ret (set tf).
Proof. unfold says_true, arg_property. cbn. intros ->. reflexivity. Qed.

Lemma arg_property_not_says_true p arg key set tf :
  not_says_true arg key →
  arg_property p (Json.objectValue arg) key set tf = Ret tf.
Proof.
  unfold not_says_true, arg_property. cbn.
  intros [-> | [-> | ->]]; reflexivity.
Qed.

Lemma resolve_dylib_field_arg_rejects p arg tf :
  field_flags_are_bits →
  says_true arg "isRequired" →
  not_says_true arg "isIndex" →
  not_says_true arg "isKey" →
  has_flag (filtercheck_field_info.m_flags tf) EPF_ARG_INDEX = false →
  has_flag (filtercheck_field_info.m_flags tf) EPF_ARG_KEY = false →
  resolve_dylib_field_arg p (Json.objectValue arg) tf
  = throw ("error in plugin " +:+ m_name p +:+ ": field "
           +:+ filtercheck_field_info.m_name tf
           +:+ " arg has isRequired true, but none of isKey nor isIndex is true").
Proof.
  intros Hbits Hsays Hnot_index Hnot_key Hi Hk.
  unfold resolve_dylib_field_arg. cbn [Json.isNull].
  rewrite (arg_property_says_true _ _ _ _ _ Hsays). cbn [mbind outcome_bind].
  rewrite (arg_property_not_says_true _ _ _ _ _ Hnot_index). cbn [mbind outcome_bind].
  rewrite (arg_property_not_says_true _ _ _ _ _ Hnot_key). cbn [mbind outcome_bind].
  assert (has_flag (filtercheck_field_info.m_flags
                      (filtercheck_field_info.or_flag tf EPF_ARG_REQUIRED))
                   EPF_ARG_REQUIRED
          && negb (has_flag (filtercheck_field_info.m_flags
                               (filtercheck_field_info.or_flag tf EPF_ARG_REQUIRED))
                            EPF_ARG_INDEX
                   || has_flag (filtercheck_field_info.m_flags
                                  (filtercheck_field_info.or_flag tf EPF_ARG_REQUIRED))
                               EPF_ARG_KEY) = true) as ->; [|reflexivity].
  flag_bits Hbits.
  rewrite Hreq, Hidx, Hkey in *.
  cbn [filtercheck_field_info.m_flags filtercheck_field_info.or_flag
       filtercheck_field_info.with_flags].
  eval_bits. rewrite Hi, Hk. reflexivity.
Qed.

Lemma m_pt_lut_not_empty ftype : is_Some (m_pt_lut ftype) → string_empty ftype = false.
Proof. destruct ftype; [intros [ty Hty]; discriminate|reflexivity]. Qed.

Lemma resolve_dylib_field_rejects p entry fname arg :
  field_flags_are_bits →
  field_entry_with_arg entry fname arg →
  says_true arg "isRequired" →
  not_says_true arg "isIndex" →
  not_says_true arg "isKey" →
  resolve_dylib_field p entry
  = throw ("error in plugin " +:+ name p +:+ ": field "
           +:+ strlcpy fname sizeof_m_name
           +:+ " arg has isRequired true, but none of isKey nor isIndex is true").
Proof.
  intros Hbits (members & ftype & fdisplay & fdesc & -> & Htype & Hlut & Hname
                & Hfname & Hdisplay & Hdesc & Hfdesc & HisList & Harg).
  intros Hsays Hnot_index Hnot_key.
  pose proof (member_is_asString _ _ _ Hdisplay) as Edisplay.
  cbn in Edisplay.
  unfold resolve_dylib_field.
  cbn [Json.subscript Json.get].
  rewrite Htype, Hname, Hdesc, Harg.
  cbn [from_option Datatypes.id mbind outcome_bind Json.asString].
  rewrite (m_pt_lut_not_empty _ Hlut), (string_empty_false _ Hfname),
    (string_empty_false _ Hfdesc).
  destruct (Json.asString (default Json.nullValue (Json.find "display" members)))
    as [d| |]; cbn [mbind outcome_bind]; [|discriminate..].
  destruct Hlut as [ty ->].
  pose proof Hbits as Hb. flag_bits Hb.
  destruct HisList as [-> | [b ->]];
    cbn [from_option Datatypes.id mbind outcome_bind Json.isNull Json.isBool
         Json.asBool negb];
    [|destruct b; cbn [mbind outcome_bind]];
    (rewrite (resolve_dylib_field_arg_rejects p arg _ Hbits Hsays Hnot_index Hnot_key);
     [reflexivity|..]);
    cbn [filtercheck_field_info.m_flags filtercheck_field_info.or_flag
         filtercheck_field_info.with_flags];
    rewrite ?Hnone, ?Hlist, ?Hidx, ?Hkey; eval_bits; reflexivity.
Qed.

(** C4.  With the flags of a field as distinct single bits: every field
    of a plugin that [resolve_dylib_symbols] has accepted has
    [ARG_REQUIRED] only with [ARG_INDEX] or [ARG_KEY], and [ARG_INDEX] or
    [ARG_KEY] only with [ARG_ALLOWED]; and the extraction block of
    [resolve_dylib_symbols] throws, when the first entry it cannot accept
    declares [isRequired] true and neither [isIndex] nor [isKey] true,
    the exception "error in plugin NAME: field FIELD arg has isRequired
    true, but none of isKey nor isIndex is true", FIELD being the name of
    the field as [filtercheck_field_info] stores it. *)
Theorem field_flag_closure :
  field_flags_are_bits →
  (∀ handle errstr e p' tf,
     resolve_dylib_symbols (new_sinsp_plugin handle) errstr = Ret (true, e, p') →
     tf ∈ fields p' →
     let flags := filtercheck_field_info.m_flags tf in
     (has_flag flags EPF_ARG_REQUIRED = true →
      has_flag flags EPF_ARG_INDEX = true ∨ has_flag flags EPF_ARG_KEY = true) ∧
     (has_flag flags EPF_ARG_INDEX = true ∨ has_flag flags EPF_ARG_KEY = true →
      has_flag flags EPF_ARG_ALLOWED = true)) ∧
  (∀ p json accepted fs entry rest fname arg,
     has_flag (m_caps p) CAP_EXTRACTION = true →
     plugin_api.get_fields (api (m_handle p)) = Some (Some json) →
     Reader_parse json = Some (Json.arrayValue (accepted ++ entry :: rest)) →
     mapM (resolve_dylib_field p) accepted = Ret fs →
     field_entry_with_arg entry fname arg →
     says_true arg "isRequired" →
     not_says_true arg "isIndex" →
     not_says_true arg "isKey" →
     resolve_extraction p
     = throw ("error in plugin " +:+ name p +:+ ": field "
              +:+ strlcpy fname sizeof_m_name
              +:+ " arg has isRequired true, but none of isKey nor isIndex is true")).
Proof.
  intros Hbits. split.
  - intros handle errstr e p' tf Hres Htf.
    destruct (resolve_dylib_symbols_fields _ _ _ _ _ Hres Htf)
      as (q & entry & _ & Hentry).
    exact (resolve_dylib_field_closure _ _ _ Hbits Hentry).
  - intros p json accepted fs entry rest fname arg Hcap Hget Hparse Hacc
      Hentry Hsays Hnot_index Hnot_key.
    unfold resolve_extraction. rewrite Hcap, Hget. cbn [call mbind outcome_bind].
    rewrite Hparse.
    rewrite (mapM_app_throw _ _ _ _ _ _ Hacc
               (resolve_dylib_field_rejects _ _ _ _ Hbits Hentry Hsays
                  Hnot_index Hnot_key)).
    reflexivity.
Qed.

End FieldFlags.

(** * The properties on the sample plugins *)

Section Runs.

Import Sample.


(** An exception of [resolve_dylib_symbols] passes through [create]. *)
Lemma create_from_rethrows `{host_env} handle errstr e :
  resolve_dylib_symbols (new_sinsp_plugin handle) errstr = Throw e →
  create_from (inl handle) errstr = {| created := Throw e; unloaded := [handle] |}.
Proof. intros Hres. unfold create_from. rewrite Hres. reflexivity. Qed.

(** A text of [get_fields] that the reader cannot parse is one. *)
Lemma resolve_extraction_unparsable `{host_env} p json :
  has_flag (m_caps p) CAP_EXTRACTION = true →
  plugin_api.get_fields (api (m_handle p)) = Some (Some json) →
  Reader_parse json = None →
  resolve_extraction p
  = throw ("error in plugin " +:+ name p +:+ ": get_fields returned an invalid JSON").
Proof.
  intros Hcap Hget Hparse. unfold resolve_extraction.
  rewrite Hcap, Hget. cbn [call mbind outcome_bind]. rewrite Hparse. reflexivity.
Qed.

(** C7.  On the library of the sample loader, which passes the checks of
    the loader, has a valid version and the extraction capability, and
    whose [get_fields] returns a text that is not JSON, [create] neither
    returns a null descriptor nor sets [errstr]: it throws "error in
    plugin sample: get_fields returned an invalid JSON", the handle
    having been unloaded. *)
Theorem create_throws_on_malformed_fields :
  create "libbadfields.so" ""
  = {| created :=
         Throw (sinsp_exception
                  "error in plugin sample: get_fields returned an invalid JSON");
       unloaded := [bad_fields_handle] |}.
Proof. vm_compute. reflexivity. Qed.

(** The failures that [create] reports as its documentation says. *)
Example create_reports_open_failure :
  create "nothere.so" ""
  = {| created := Ret (None, "cannot load plugin nothere.so"); unloaded := [] |}.
Proof. vm_compute. reflexivity. Qed.

(** C2, as stated, fails on the plugin whose [init] reports a failure
    next to a state: [init] returns [false], and the object that was not
    initialized before the call is initialized after it. *)
Lemma init_failure_counterexample :
  m_inited (plugin_of failing) = false ∧
  init (plugin_of failing) "{}" ""
  = (Ret (false, "Could not initialize plugin: boom"), after_init failing) ∧
  m_inited (after_init failing) = true.
Proof. vm_compute. repeat split. Qed.

Lemma init_twice_witness :
  init (plugin_of good) "{}" "" = (Ret (true, ""), after_init good) ∧
  init (after_init good) "{}" ""
  = (Ret (false, "plugin has been initialized twice: " +:+ name (plugin_of good)),
     after_init good).
Proof.
  assert (init (plugin_of good) "{}" "" = (Ret (true, ""), after_init good)) as H
    by (vm_compute; reflexivity).
  split; [exact H|].
  exact (init_twice (plugin_of good) "{}" "" "" (after_init good) "{}" "" H).
Defined.

Lemma init_keeps_returned_state_witness :
  (m_inited (plugin_of failing) = false ∧
   plugin_api.init (api (m_handle (plugin_of failing))) = Some (λ _, (7, 1)) ∧
   plugin_api.get_last_error (api (m_handle (plugin_of failing)))
   = Some (λ _, Some "boom") ∧
   validate_init_config (plugin_of failing) "{}" = Ret "{}" ∧
   7 ≠ 0) ∧
  m_state (set_m_inited (set_m_state (plugin_of failing) 7) true) = 7 ∧
  m_inited (set_m_inited (set_m_state (plugin_of failing) 7) true) = true ∧
  init (plugin_of failing) "{}" ""
  = (Ret (false, "Could not initialize plugin: boom"),
     set_m_inited (set_m_state (plugin_of failing) 7) true).
Proof.
  assert (m_inited (plugin_of failing) = false) as H1 by (vm_compute; reflexivity).
  assert (plugin_api.init (api (m_handle (plugin_of failing))) = Some (λ _, (7, 1)))
    as H2 by (vm_compute; reflexivity).
  assert (plugin_api.get_last_error (api (m_handle (plugin_of failing)))
          = Some (λ _, Some "boom")) as H3 by (vm_compute; reflexivity).
  assert (validate_init_config (plugin_of failing) "{}" = Ret "{}") as H4
    by (vm_compute; reflexivity).
  assert (7 ≠ 0) as H5 by lia.
  split; [repeat split; assumption|].
  exact (init_keeps_returned_state (plugin_of failing) "{}" ""
           (λ _, (7, 1)) (λ _, Some "boom") "{}" 7 1 H1 H2 H3 H4 eq_refl H5).
Defined.

Lemma not_initialized_operations_fail_witness :
  m_inited (plugin_of good) = false ∧
  get_last_error (plugin_of good)
  = Throw (sinsp_exception "plugin capability used before init: sample") ∧
  parse_event (plugin_of good) an_event
  = Throw (sinsp_exception "plugin capability used before init: sample").
Proof.
  assert (m_inited (plugin_of good) = false) as H by (vm_compute; reflexivity).
  split; [exact H|].
  destruct (not_initialized_operations_fail (plugin_of good) an_event 1 0 H)
    as (Hlast & _ & _ & _ & _ & _ & Hparse & _).
  split; [exact Hlast|exact Hparse].
Defined.

Lemma failed_init_marks_initialized_witness :
  (m_inited (plugin_of failing) = false ∧
   plugin_api.init (api (m_handle (plugin_of failing))) = Some (λ _, (7, 1)) ∧
   init (plugin_of failing) "{}" ""
   = (Ret (false, "Could not initialize plugin: boom"), after_init failing)) ∧
  m_inited (after_init failing) = true ∧
  init (after_init failing) "{}" ""
  = (Ret (false, "plugin has been initialized twice: sample"), after_init failing) ∧
  get_last_error (after_init failing)
  ≠ Throw (sinsp_exception "plugin capability used before init: sample").
Proof.
  assert (m_inited (plugin_of failing) = false) as H1 by (vm_compute; reflexivity).
  assert (plugin_api.init (api (m_handle (plugin_of failing))) = Some (λ _, (7, 1)))
    as H2 by (vm_compute; reflexivity).
  assert (init (plugin_of failing) "{}" ""
          = (Ret (false, "Could not initialize plugin: boom"), after_init failing))
    as H3 by (vm_compute; reflexivity).
  split; [repeat split; assumption|].
  destruct (failed_init_marks_initialized (plugin_of failing) "{}" "" _ _ _
              "{}" "" an_event 1 0 H1 H2 H3)
    as (Hin & Htwice & Hlast & _).
  split; [exact Hin|]. split; [exact Htwice|exact Hlast].
Defined.

Lemma sample_flags_are_bits : field_flags_are_bits.
Proof.
  split; [reflexivity|].
  exists [2; 3; 4; 5; 6; 7; 8; 9].
  split; [|split; [|reflexivity]].
  - compute_done.
  - repeat constructor; discriminate.
Defined.

Lemma field_flag_closure_witness :
  field_flags_are_bits ∧
  ((has_flag 468 EPF_ARG_REQUIRED = true →
    has_flag 468 EPF_ARG_INDEX = true ∨ has_flag 468 EPF_ARG_KEY = true) ∧
   (has_flag 468 EPF_ARG_INDEX = true ∨ has_flag 468 EPF_ARG_KEY = true →
    has_flag 468 EPF_ARG_ALLOWED = true)) ∧
  resolve_extraction (set_m_caps (plugin_of required_only) 2)
  = throw ("error in plugin " +:+ name (set_m_caps (plugin_of required_only) 2)
           +:+ ": field " +:+ strlcpy "sample.f" sizeof_m_name
           +:+ " arg has isRequired true, but none of isKey nor isIndex is true").
Proof.
  split; [exact sample_flags_are_bits|].
  destruct (field_flag_closure sample_flags_are_bits) as [Hclosure Hrejects].
  split.
  - apply (Hclosure {| api := sourcing |} "" "" (plugin_of sourcing) sample_field).
    + vm_compute. reflexivity.
    + vm_compute. left.
  - apply (Hrejects (set_m_caps (plugin_of required_only) 2) required_only_text
             [] []
             (Json.objectValue [("name", Json.stringValue "sample.f");
                                ("type", Json.stringValue "uint64");
                                ("desc", Json.stringValue "d");
                                ("arg", Json.objectValue required_only_arg)])
             [] "sample.f" required_only_arg).
    + vm_compute. reflexivity.
    + vm_compute. reflexivity.
    + vm_compute. reflexivity.
    + reflexivity.
    + eexists _, "uint64", "", "d".
      split; [reflexivity|]. split; [reflexivity|].
      split; [by eexists|]. split; [reflexivity|].
      split; [discriminate|]. split; [right; split; reflexivity|].
      split; [reflexivity|]. split; [discriminate|].
      split; [left; reflexivity|reflexivity].
    + reflexivity.
    + left. reflexivity.
    + left. reflexivity.
Defined.

Lemma empty_codes_default_witness :
  (resolve_dylib_sources_codes (plugin_of good) "get_extract_event_sources"
     (Some (Some sources_text)) None
   = Ret ({["other"]}, {[PPME_PLUGINEVENT_E]}) ∧
   declared_codes None = ∅) ∧
  ({[PPME_PLUGINEVENT_E]} : gset Z)
  = if is_source_compatible {["other"]} sinsp_syscall_event_source_name
    then all_event_set
    else {[PPME_PLUGINEVENT_E]}.
Proof.
  assert (resolve_dylib_sources_codes (plugin_of good) "get_extract_event_sources"
            (Some (Some sources_text)) None
          = Ret ({["other"]}, {[PPME_PLUGINEVENT_E]})) as H1
    by (vm_compute; reflexivity).
  assert (declared_codes None = ∅) as H2 by reflexivity.
  split; [split; assumption|].
  exact (proj2 (empty_codes_default _ _ _ _ _ _ H1 H2)).
Defined.

Lemma init_schema_violation_witness :
  (m_inited (plugin_of with_schema) = false ∧
   plugin_api.init (api (m_handle (plugin_of with_schema))) = Some (λ _, (7, 0)) ∧
   plugin_api.get_init_schema (api (m_handle (plugin_of with_schema)))
   = Some (λ _, (Some schema_text, 1)) ∧
   SS_PLUGIN_SCHEMA_JSON ≠ SS_PLUGIN_SCHEMA_NONE ∧
   schema_text ≠ "" ∧
   Reader_parse schema_text
   = Some (Json.objectValue [("type", Json.stringValue "object");
                             ("required", Json.arrayValue [Json.stringValue "k"])]) ∧
   Reader_parse "{}" = Some (Json.objectValue []) ∧
   valijson_validate
     (Json.objectValue [("type", Json.stringValue "object");
                        ("required", Json.arrayValue [Json.stringValue "k"])])
     (Json.objectValue [])
   = Ret (false, [{| valijson.context := ["<root>"];
                     valijson.description := "Missing required property 'k'." |}])) ∧
  init (plugin_of with_schema) "{}" ""
  = (Throw (sinsp_exception
              "error in plugin sample init config: In <root>, Missing required property 'k'."),
     plugin_of with_schema).
Proof.
  assert (m_inited (plugin_of with_schema) = false) as H1
    by (vm_compute; reflexivity).
  assert (plugin_api.init (api (m_handle (plugin_of with_schema)))
          = Some (λ _, (7, 0))) as H2 by (vm_compute; reflexivity).
  assert (plugin_api.get_init_schema (api (m_handle (plugin_of with_schema)))
          = Some (λ _, (Some schema_text, 1))) as H3 by (vm_compute; reflexivity).
  assert (SS_PLUGIN_SCHEMA_JSON ≠ SS_PLUGIN_SCHEMA_NONE) as H4
    by (vm_compute; discriminate).
  assert (schema_text ≠ "") as H5 by (vm_compute; discriminate).
  assert (Reader_parse schema_text
          = Some (Json.objectValue
                    [("type", Json.stringValue "object");
                     ("required", Json.arrayValue [Json.stringValue "k"])])) as H6
    by (vm_compute; reflexivity).
  assert (Reader_parse "{}" = Some (Json.objectValue [])) as H7
    by (vm_compute; reflexivity).
  assert (valijson_validate
            (Json.objectValue [("type", Json.stringValue "object");
                               ("required", Json.arrayValue [Json.stringValue "k"])])
            (Json.objectValue [])
          = Ret (false, [{| valijson.context := ["<root>"];
                            valijson.description :=
                              "Missing required property 'k'." |}])) as H8
    by (vm_compute; reflexivity).
  split; [repeat split; assumption|].
  exact (init_schema_violation (plugin_of with_schema) "{}" "" _ _ schema_text
           _ _ _ [] H1 H2 H3 eq_refl H4 H5 H6 H7 H8).
Defined.

Lemma list_open_params_parses_witness :
  (m_inited (after_init sourcing) = true ∧
   m_state (after_init sourcing) ≠ 0 ∧
   plugin_api.list_open_params (api (m_handle (after_init sourcing)))
   = Some (λ _, (Some params_text, 0))) ∧
  list_open_params (after_init sourcing)
  = throw ("error in plugin " +:+ name (after_init sourcing)
           +:+ ": list_open_params has entry with no value").
Proof.
  assert (m_inited (after_init sourcing) = true) as H1 by (vm_compute; reflexivity).
  assert (m_state (after_init sourcing) ≠ 0) as H2 by (vm_compute; discriminate).
  assert (plugin_api.list_open_params (api (m_handle (after_init sourcing)))
          = Some (λ _, (Some params_text, 0))) as H3 by (vm_compute; reflexivity).
  split; [repeat split; assumption|].
  destruct (list_open_params_parses (env := Sample.env) (after_init sourcing) _
              (Some params_text) H1 H2 H3 eq_refl) as (_ & _ & _ & Hrejects).
  apply (Hrejects
           [Json.objectValue [("value", Json.stringValue "a");
                              ("desc", Json.stringValue "first")]]
           [{| value := "a"; desc := "first"; separator := "" |}]
           (Json.objectValue [("desc", Json.stringValue "no value")])
           []).
  - vm_compute. discriminate.
  - vm_compute. reflexivity.
  - vm_compute. reflexivity.
  - right. eexists. split; [reflexivity|]. left. reflexivity.
Defined.

Lemma own_source_is_compatible_witness :
  (resolve_dylib_symbols (new_sinsp_plugin {| api := sourcing |}) ""
   = Ret (true, "", plugin_of sourcing) ∧
   has_flag (caps (plugin_of sourcing)) CAP_SOURCING = true ∧
   event_source (plugin_of sourcing) ≠ "" ∧
   has_flag (caps (plugin_of sourcing)) CAP_EXTRACTION = true) ∧
  event_source (plugin_of sourcing) ∈ extract_event_sources (plugin_of sourcing).
Proof.
  assert (resolve_dylib_symbols (new_sinsp_plugin {| api := sourcing |}) ""
          = Ret (true, "", plugin_of sourcing)) as H1 by (vm_compute; reflexivity).
  assert (has_flag (caps (plugin_of sourcing)) CAP_SOURCING = true) as H2
    by (vm_compute; reflexivity).
  assert (event_source (plugin_of sourcing) ≠ "") as H3
    by (vm_compute; discriminate).
  assert (has_flag (caps (plugin_of sourcing)) CAP_EXTRACTION = true) as H4
    by (vm_compute; reflexivity).
  split; [repeat split; assumption|].
  exact (proj1 (own_source_is_compatible _ _ _ _ H1 H2 H3) H4).
Defined.

End Runs.

(** * Further properties of the plugin object *)

Section LifecycleMore.

Context `{env : host_env}.

(** X1.  [destroy] is idempotent; it leaves the object uninitialized, and
    without a state whenever the plugin exports [destroy]. *)
Theorem destroy_idempotent p :
  destroy (destroy p) = destroy p ∧
  m_inited (destroy p) = false ∧
  (is_Some (plugin_api.destroy (api (m_handle p))) → m_state (destroy p) = 0).
Proof.
  unfold destroy. cbn [m_state set_m_inited m_handle].
  destruct (m_state p =? 0) eqn:Hstate; cbn [negb andb].
  - cbn [m_state set_m_inited m_handle]. rewrite Hstate. cbn [negb andb].
    repeat split. intros _. by apply Z.eqb_eq.
  - destruct (bool_decide (is_Some (plugin_api.destroy (api (m_handle p)))))
      eqn:Hdestroy.
    + cbn [m_state set_m_state set_m_inited m_handle negb andb Z.eqb].
      repeat split.
    + cbn [m_state set_m_inited m_handle]. rewrite Hstate, Hdestroy.
      repeat split. intros Hsome.
      apply bool_decide_eq_false in Hdestroy. contradiction.
Qed.

Lemma destroy_keeps_handle p :
  m_handle (destroy p) = m_handle p ∧ m_name (destroy p) = m_name p ∧
  m_caps (destroy p) = m_caps p.
Proof.
  unfold destroy.
  destruct (negb (m_state (set_m_inited p false) =? 0) && _); repeat split.
Qed.

Lemma validate_init_config_depends p q config :
  m_handle q = m_handle p → m_name q = m_name p →
  validate_init_config q config = validate_init_config p config.
Proof.
  intros Hh Hn.
  unfold validate_init_config, validate_init_config_json_schema, get_init_schema,
    name.
  rewrite Hh, Hn. reflexivity.
Qed.

(** X2.  A plugin that has been destroyed can be initialized again: when
    the entry point reports success, [init] on the destroyed object returns
    [true], leaves [errstr] alone and marks the object initialized, also
    when the object had been initialized before it was destroyed. *)
Theorem init_after_destroy p config errstr api_init conf state :
  plugin_api.init (api (m_handle p)) = Some api_init →
  validate_init_config p config = Ret conf →
  api_init {| config := conf;
              tables := has_flag (m_caps p) (Z.lor CAP_PARSING CAP_EXTRACTION) |}
  = (state, SS_PLUGIN_SUCCESS) →
  (init (destroy p) config errstr).1 = Ret (true, errstr) ∧
  m_inited (init (destroy p) config errstr).2 = true.
Proof.
  intros Hapi Hconf Hcall.
  destruct (destroy_keeps_handle p) as (Hh & Hn & Hc).
  unfold init.
  rewrite destroy_not_inited, Hh, Hapi.
  rewrite (validate_init_config_depends p (destroy p) config Hh Hn), Hconf.
  rewrite Hc, Hcall, Z.eqb_refl. cbn [negb fst snd]. split; reflexivity.
Qed.

(** X3.  [init] writes [m_state] and [m_inited] and no other member. *)
Theorem init_frame p config errstr :
  let p' := (init p config errstr).2 in
  m_caps p' = m_caps p ∧ m_name p' = m_name p ∧
  m_description p' = m_description p ∧ m_contact p' = m_contact p ∧
  m_plugin_version p' = m_plugin_version p ∧ m_id p' = m_id p ∧
  m_event_source p' = m_event_source p ∧ m_handle p' = m_handle p ∧
  m_scap_source_plugin p' = m_scap_source_plugin p ∧
  m_fields p' = m_fields p ∧
  m_extract_event_sources p' = m_extract_event_sources p ∧
  m_extract_event_codes p' = m_extract_event_codes p ∧
  m_parse_event_sources p' = m_parse_event_sources p ∧
  m_parse_event_codes p' = m_parse_event_codes p.
Proof.
  unfold init.
  destruct (m_inited p); [repeat split|].
  destruct (plugin_api.init _) as [api_init|]; [|repeat split].
  destruct (validate_init_config p config) as [conf| |]; [|repeat split..].
  destruct (api_init _) as [state rc].
  destruct (negb (state =? 0)), (negb (rc =? SS_PLUGIN_SUCCESS));
    try destruct (get_last_error _); repeat split.
Qed.


(** X5.  When the entry point reports a failure and returns no state, on
    an object that has none, the error text of [init] is the host's own:
    "Could not initialize plugin: Plugin handle or get_last_error function
    not defined"; the object is marked initialized all the same. *)
Theorem init_failure_without_state p config errstr api_init conf rc :
  m_inited p = false →
  m_state p = 0 →
  plugin_api.init (api (m_handle p)) = Some api_init →
  validate_init_config p config = Ret conf →
  api_init {| config := conf;
              tables := has_flag (m_caps p) (Z.lor CAP_PARSING CAP_EXTRACTION) |}
  = (0, rc) →
  rc ≠ SS_PLUGIN_SUCCESS →
  init p config errstr
  = (Ret (false, "Could not initialize plugin: Plugin handle or get_last_error function not defined"),
     set_m_inited p true).
Proof.
  intros Hin Hstate Hapi Hconf Hcall Hrc.
  unfold init. rewrite Hin, Hapi, Hconf, Hcall.
  apply Z.eqb_neq in Hrc. rewrite Hrc. cbn [Z.eqb negb].
  unfold get_last_error. cbn [m_inited set_m_inited m_state negb].
  rewrite Hstate. reflexivity.
Qed.

End LifecycleMore.

Section LoadingMore.

Context `{env : host_env}.

Lemma resolve_sourcing_identity p : same_identity p (resolve_sourcing p).
Proof.
  unfold resolve_sourcing, same_identity.
  destruct (has_flag (m_caps p) CAP_SOURCING); [|repeat split].
  cbn [m_handle set_source].
  destruct (plugin_api.get_id _) as [i|]; [|repeat split].
  destruct (plugin_api.get_event_source _) as [s|]; [|repeat split].
  destruct (negb (i =? 0)); repeat split.
Qed.

Lemma resolve_extraction_identity p q :
  resolve_extraction p = Ret q →
  same_identity p q ∧ m_id q = m_id p ∧ m_event_source q = m_event_source p.
Proof.
  unfold resolve_extraction, same_identity.
  destruct (has_flag (m_caps p) CAP_EXTRACTION); [|intros [= <-]; repeat split].
  destruct (call _) as [sfields| |]; cbn; [|discriminate..].
  destruct sfields as [json|]; [|discriminate].
  destruct (Reader_parse json) as [[]|]; try discriminate.
  destruct (mapM _ _) as [fs| |]; cbn; [|discriminate..].
  destruct (resolve_dylib_sources_codes _ _ _ _) as [[sources codes]| |];
    cbn; [|discriminate..].
  intros [= <-]. repeat split.
Qed.

Lemma resolve_parsing_identity p q :
  resolve_parsing p = Ret q →
  same_identity p q ∧ m_id q = m_id p ∧ m_event_source q = m_event_source p.
Proof.
  unfold resolve_parsing, same_identity.
  destruct (has_flag (m_caps p) CAP_PARSING); [|intros [= <-]; repeat split].
  destruct (resolve_dylib_sources_codes _ _ _ _) as [[sources codes]| |];
    cbn; [|discriminate..].
  intros [= <-]. repeat split.
Qed.

(** What a successful [resolve_dylib_symbols] has done, step by step. *)
Lemma resolve_dylib_symbols_steps p errstr e p' :
  resolve_dylib_symbols p errstr = Ret (true, e, p') →
  ∃ nm ds ct ver q r,
    plugin_api.get_name (api (m_handle p)) = Some nm ∧
    plugin_api.get_version (api (m_handle p)) = Some ver ∧
    sinsp_version_valid (str_from_alloc_charbuf ver) = true ∧
    q = resolve_sourcing
          (set_m_caps
             (set_descriptive p (str_from_alloc_charbuf nm)
                (str_from_alloc_charbuf ds) (str_from_alloc_charbuf ct)
                {| m_version_text := str_from_alloc_charbuf ver;
                   m_valid := sinsp_version_valid (str_from_alloc_charbuf ver) |})
             (plugin_get_capabilities (m_handle p))) ∧
    resolve_extraction q = Ret r ∧ resolve_parsing r = Ret p' ∧ e = errstr.
Proof.
  unfold resolve_dylib_symbols.
  destruct (plugin_check_required_api_version _); [discriminate|].
  destruct (plugin_check_required_symbols _); [discriminate|].
  destruct (plugin_api.get_name _) as [nm|]; cbn; [|discriminate].
  destruct (plugin_api.get_description _) as [ds|]; cbn; [|discriminate].
  destruct (plugin_api.get_contact _) as [ct|]; cbn; [|discriminate].
  destruct (plugin_api.get_version _) as [ver|]; cbn; [|discriminate].
  destruct (sinsp_version_valid _) eqn:Hvalid; cbn; [|discriminate].
  destruct (resolve_extraction _) as [r| |] eqn:Hr; cbn; [|discriminate..].
  destruct (resolve_parsing r) as [s| |] eqn:Hs; cbn; [|discriminate..].
  intros [= <- <-].
  exists nm, ds, ct, ver. eexists _, r.
  repeat split; try reflexivity; try assumption.
  rewrite Hvalid. exact Hr.
Qed.

Lemma resolve_dylib_symbols_frame p errstr e p' :
  resolve_dylib_symbols p errstr = Ret (true, e, p') →
  m_handle p' = m_handle p ∧ m_state p' = m_state p ∧
  m_inited p' = m_inited p ∧ e = errstr.
Proof.
  intros Hres.
  destruct (resolve_dylib_symbols_steps _ _ _ _ Hres)
    as (nm & ds & ct & ver & q & r & Hnm & Hver & Hvalid & -> & Hr & Hp' & ->).
  destruct (resolve_sourcing_identity
              (set_m_caps
                 (set_descriptive p (str_from_alloc_charbuf nm)
                    (str_from_alloc_charbuf ds) (str_from_alloc_charbuf ct)
                    {| m_version_text := str_from_alloc_charbuf ver;
                       m_valid := sinsp_version_valid (str_from_alloc_charbuf ver) |})
                 (plugin_get_capabilities (m_handle p))))
    as (Hh0 & Hi0 & Hs0 & _).
  destruct (resolve_extraction_identity _ _ Hr) as ((Hh1 & Hi1 & Hs1 & _) & _).
  destruct (resolve_parsing_identity _ _ Hp') as ((Hh2 & Hi2 & Hs2 & _) & _).
  rewrite Hh2, Hh1, Hh0, Hs2, Hs1, Hs0, Hi2, Hi1, Hi0. by cbn.
Qed.

(** X6.  A plugin that [resolve_dylib_symbols] accepts is describable: its
    name is what [get_name] returns, its version is valid, its capabilities
    are those the loader reads off the handle; the handle, the state and
    the initialization mark are those of the object before, and [errstr]
    is left alone. *)
Theorem accepted_plugin_describable p errstr e p' :
  resolve_dylib_symbols p errstr = Ret (true, e, p') →
  (∃ nm, plugin_api.get_name (api (m_handle p)) = Some nm ∧
         name p' = str_from_alloc_charbuf nm) ∧
  m_valid (plugin_version p') = true ∧
  caps p' = plugin_get_capabilities (m_handle p) ∧
  m_handle p' = m_handle p ∧ m_state p' = m_state p ∧
  m_inited p' = m_inited p ∧ e = errstr.
Proof.
  intros Hres.
  destruct (resolve_dylib_symbols_steps _ _ _ _ Hres)
    as (nm & ds & ct & ver & q & r & Hnm & Hver & Hvalid & -> & Hr & Hp' & ->).
  destruct (resolve_sourcing_identity
              (set_m_caps
                 (set_descriptive p (str_from_alloc_charbuf nm)
                    (str_from_alloc_charbuf ds) (str_from_alloc_charbuf ct)
                    {| m_version_text := str_from_alloc_charbuf ver;
                       m_valid := sinsp_version_valid (str_from_alloc_charbuf ver) |})
                 (plugin_get_capabilities (m_handle p))))
    as (Hh0 & Hi0 & Hs0 & Hn0 & Hc0 & Hv0).
  destruct (resolve_extraction_identity _ _ Hr)
    as ((Hh1 & Hi1 & Hs1 & Hn1 & Hc1 & Hv1) & _).
  destruct (resolve_parsing_identity _ _ Hp')
    as ((Hh2 & Hi2 & Hs2 & Hn2 & Hc2 & Hv2) & _).
  unfold name, plugin_version, caps.
  rewrite Hn2, Hn1, Hn0, Hv2, Hv1, Hv0, Hc2, Hc1, Hc0, Hh2, Hh1, Hh0,
    Hs2, Hs1, Hs0, Hi2, Hi1, Hi0.
  cbn. split; [by exists nm|]. repeat split. assumption.
Qed.

(** X7.  A descriptor that [create] returns is a plugin in the loaded
    state: on the handle the loader gave, without state, not initialized,
    with [errstr] as the caller passed it, and nothing has been unloaded. *)
Theorem create_gives_loaded_plugin loaded errstr plugin e :
  created (create_from loaded errstr) = Ret (Some plugin, e) →
  loaded = inl (m_handle plugin) ∧
  m_inited plugin = false ∧ m_state plugin = 0 ∧ e = errstr ∧
  unloaded (create_from loaded errstr) = [].
Proof.
  unfold create_from.
  destruct loaded as [handle|loadererr]; [|discriminate].
  destruct (resolve_dylib_symbols _ _) as [[[[] e'] plugin']| |] eqn:Hres;
    cbn; try discriminate.
  intros [= -> ->].
  destruct (resolve_dylib_symbols_frame _ _ _ _ Hres) as (Hh & Hs & Hi & He).
  cbn in Hh, Hs, Hi. rewrite Hh. repeat split; assumption.
Qed.

(** X8.  When [create] returns a null descriptor, [errstr] holds the text
    of the step that failed: the loader's, that of the API version check,
    that of the symbol check, or "Plugin provided an invalid version
    string: 'VERSION'". *)
Theorem create_null_reports loaded errstr e :
  created (create_from loaded errstr) = Ret (None, e) →
  loaded = inr e ∨
  ∃ handle, loaded = inl handle ∧
    (plugin_check_required_api_version handle = Some e ∨
     plugin_check_required_symbols handle = Some e ∨
     ∃ ver, plugin_api.get_version (api handle) = Some ver ∧
            sinsp_version_valid (str_from_alloc_charbuf ver) = false ∧
            e = "Plugin provided an invalid version string: '"
                +:+ str_from_alloc_charbuf ver +:+ "'").
Proof.
  unfold create_from.
  destruct loaded as [handle|loadererr]; [|intros [= <-]; by left].
  intros Hcreated. right. exists handle. split; [reflexivity|].
  destruct (resolve_dylib_symbols _ _) as [[[[] e'] plugin']| |] eqn:Hres;
    cbn in Hcreated; try discriminate.
  injection Hcreated as ->.
  revert Hres. unfold resolve_dylib_symbols. cbn [m_handle new_sinsp_plugin].
  destruct (plugin_check_required_api_version _) as [err|];
    [intros [= <-]; by left|].
  destruct (plugin_check_required_symbols _) as [err|];
    [intros [= <-]; right; by left|].
  destruct (plugin_api.get_name _) as [nm|]; cbn; [|discriminate].
  destruct (plugin_api.get_description _) as [ds|]; cbn; [|discriminate].
  destruct (plugin_api.get_contact _) as [ct|]; cbn; [|discriminate].
  destruct (plugin_api.get_version _) as [ver|]; cbn; [|discriminate].
  destruct (sinsp_version_valid _) eqn:Hvalid; cbn.
  - destruct (resolve_extraction _) as [r| |]; cbn; [|discriminate..].
    destruct (resolve_parsing r) as [s| |]; cbn; discriminate.
  - intros [= <-]. right. right. by exists ver.
Qed.

(** X9.  A plugin that [create] accepts has an event source name only
    together with the sourcing capability and an id other than 0: the name
    that [get_event_source] returns is dropped when [get_id] returns 0. *)
Theorem event_source_needs_id handle errstr e p' :
  resolve_dylib_symbols (new_sinsp_plugin handle) errstr = Ret (true, e, p') →
  event_source p' ≠ "" →
  id p' ≠ 0 ∧ has_flag (caps p') CAP_SOURCING = true ∧
  plugin_api.get_id (api handle) = Some (id p').
Proof.
  intros Hres.
  destruct (resolve_dylib_symbols_steps _ _ _ _ Hres)
    as (nm & ds & ct & ver & q & r & _ & _ & _ & Hq & Hr & Hp' & _).
  destruct (resolve_extraction_identity _ _ Hr) as ((_ & _ & _ & _ & Hc1 & _) & Hi1 & He1).
  destruct (resolve_parsing_identity _ _ Hp') as ((_ & _ & _ & _ & Hc2 & _) & Hi2 & He2).
  unfold event_source, id, caps. rewrite He2, He1, Hi2, Hi1, Hc2, Hc1.
  subst q. unfold resolve_sourcing.
  cbn [m_caps set_m_caps set_descriptive m_handle new_sinsp_plugin].
  destruct (has_flag (plugin_get_capabilities handle) CAP_SOURCING) eqn:Hcap;
    [|cbn; congruence].
  cbn [m_handle set_source set_m_caps set_descriptive new_sinsp_plugin].
  destruct (plugin_api.get_id (api handle)) as [i|]; [|cbn; congruence].
  destruct (plugin_api.get_event_source (api handle)) as [s|]; [|cbn; congruence].
  destruct (Z.eqb_spec i 0); cbn; [congruence|].
  intros _. rewrite ?Hcap. repeat split; assumption.
Qed.

End LoadingMore.

Section SourcesAndCodesMore.

Context `{env : host_env}.

Lemma insert_source_no_empty p symsources (sources sources' : gset string) j :
  insert_source p symsources sources j = Ret sources' →
  "" ∉ sources → "" ∉ sources'.
Proof.
  unfold insert_source.
  destruct (negb (Json.isConvertibleTo_stringValue j)); [discriminate|].
  destruct (Json.asString j) as [src| |]; cbn; [|discriminate..].
  destruct src as [|c src]; cbn; intros [= <-] Hno; [assumption|].
  rewrite elem_of_union, elem_of_singleton. intros [[=]|Hin]. by apply Hno.
Qed.

Lemma insert_sources_no_empty p symsources elems (sources sources' : gset string) :
  foldM (insert_source p symsources) sources elems = Ret sources' →
  "" ∉ sources → "" ∉ sources'.
Proof.
  revert sources. induction elems as [|j elems IH]; cbn; intros sources.
  - by intros [= <-].
  - destruct (insert_source p symsources sources j) as [s1| |] eqn:H1;
      cbn; [|discriminate..].
    intros Hrest Hno. eapply IH; [exact Hrest|].
    by eapply insert_source_no_empty.
Qed.

(** The sources the plugin has declared, as [resolve_dylib_sources_codes]
    reads them. *)
Lemma resolve_dylib_sources_codes_declared p symsources get_sources get_codes
    sources codes :
  resolve_dylib_sources_codes p symsources get_sources get_codes
  = Ret (sources, codes) →
  ∃ declared : gset string,
    match get_sources with
    | Some charbuf =>
        if negb (string_empty (str_from_alloc_charbuf charbuf)) then
          ∃ elems,
            Reader_parse (str_from_alloc_charbuf charbuf)
            = Some (Json.arrayValue elems) ∧
            foldM (insert_source p symsources) ∅ elems = Ret declared
        else declared = ∅
    | None => declared = ∅
    end ∧
    sources
    = (if has_flag (m_caps p) CAP_SOURCING && negb (string_empty (m_event_source p))
       then {[m_event_source p]} ∪ declared else declared).
Proof.
  unfold resolve_dylib_sources_codes.
  destruct get_sources as [charbuf|].
  - destruct (negb (string_empty (str_from_alloc_charbuf charbuf))).
    + destruct (Reader_parse _) as [[]|]; try discriminate.
      destruct (foldM _ _ _) as [declared| |] eqn:Hfold; cbn; [|discriminate..].
      destruct (bool_decide _); [destruct (is_source_compatible _ _)|];
        intros [= <- _]; exists declared;
        (split; [eexists; split; [reflexivity|exact Hfold]|reflexivity]).
    + cbn.
      destruct (bool_decide _); [destruct (is_source_compatible _ _)|];
        intros [= <- _]; exists ∅; split; reflexivity.
  - cbn.
    destruct (bool_decide _); [destruct (is_source_compatible _ _)|];
      intros [= <- _]; exists ∅; split; reflexivity.
Qed.

(** X10.  The empty name is never among the sources resolved, whatever the
    plugin lists: empty entries of its array are skipped and an empty
    event source of its own is not added. *)
Theorem sources_hold_no_empty_name p symsources get_sources get_codes
    sources codes :
  resolve_dylib_sources_codes p symsources get_sources get_codes
  = Ret (sources, codes) →
  "" ∉ sources.
Proof.
  intros Hres.
  apply resolve_dylib_sources_codes_declared in Hres as (declared & Hdecl & ->).
  assert ("" ∉ declared) as Hno.
  { destruct get_sources as [charbuf|]; [|subst; set_solver].
    destruct (negb (string_empty _)); [|subst; set_solver].
    destruct Hdecl as (elems & _ & Hfold).
    eapply insert_sources_no_empty; [exact Hfold|set_solver]. }
  destruct (has_flag _ _); cbn; [|assumption].
  destruct (m_event_source p) as [|c s] eqn:Hsrc; cbn; [assumption|].
  set_solver.
Qed.

Lemma insert_string_sources p symsources names (sources : gset string) :
  foldM (insert_source p symsources) sources (map Json.stringValue names)
  = Ret (list_to_set (filter (λ s, s ≠ "") names) ∪ sources).
Proof.
  revert sources. induction names as [|s names IH]; intros sources; cbn.
  - f_equal. by rewrite (left_id_L ∅ (∪)).
  - unfold insert_source at 1. cbn.
    destruct s as [|c s]; cbn.
    + rewrite IH. reflexivity.
    + rewrite IH. f_equal.
      destruct (decide (String c s ≠ "")) as [_|Hne]; [|by destruct Hne].
      rewrite list_to_set_cons.
      apply set_eq. intros x. rewrite !elem_of_union. tauto.
Qed.

(** X11.  When the plugin lists its sources as a JSON array of strings,
    the sources resolved are the names of the array that are not empty
    and, for a sourcing plugin with an event source, that source; nothing
    else. *)
Theorem sources_of_string_array p symsources text names get_codes sources codes :
  text ≠ "" →
  Reader_parse text = Some (Json.arrayValue (map Json.stringValue names)) →
  resolve_dylib_sources_codes p symsources (Some (Some text)) get_codes
  = Ret (sources, codes) →
  ∀ s, s ∈ sources ↔
       (s ∈ names ∧ s ≠ "") ∨
       (s = m_event_source p ∧ s ≠ "" ∧ has_flag (m_caps p) CAP_SOURCING = true).
Proof.
  intros Htext Hparse Hres s.
  apply resolve_dylib_sources_codes_declared in Hres as (declared & Hdecl & ->).
  cbn [str_from_alloc_charbuf] in Hdecl.
  rewrite (string_empty_false _ Htext) in Hdecl. cbn [negb] in Hdecl.
  destruct Hdecl as (elems & Hparse' & Hfold).
  rewrite Hparse in Hparse'. injection Hparse' as <-.
  rewrite insert_string_sources in Hfold. injection Hfold as <-.
  assert (s ∈ (list_to_set (filter (λ s, s ≠ "") names) ∪ ∅ : gset string)
          ↔ s ∈ names ∧ s ≠ "") as Hdeclared.
  { rewrite elem_of_union, elem_of_list_to_set, list_elem_of_filter. set_solver. }
  destruct (has_flag (m_caps p) CAP_SOURCING); cbn [andb].
  - destruct (m_event_source p) as [|c src] eqn:Hsrc; cbn [string_empty negb].
    + rewrite Hdeclared. split; [by left|]. intros [H|(-> & H & _)]; [exact H|done].
    + rewrite elem_of_union, elem_of_singleton, Hdeclared.
      split; [intros [-> | H]; [by right|by left]|].
      intros [H|(-> & _ & _)]; [by right|by left].
  - rewrite Hdeclared. split; [by left|]. intros [H|(_ & _ & H)]; [exact H|done].
Qed.

Lemma elem_of_declared_codes types (c : Z) :
  c ∈ declared_codes (Some (Some types)) ↔ c ∈ types.
Proof.
  unfold declared_codes.
  assert (∀ (acc : gset Z),
            c ∈ foldl (λ codes c, {[c]} ∪ codes) acc types ↔ c ∈ acc ∨ c ∈ types)
    as Hfold.
  { induction types as [|t types IH]; intros acc; cbn.
    - set_solver.
    - rewrite IH. set_solver. }
  rewrite Hfold. set_solver.
Qed.

(** X12.  When the plugin declares event codes, the codes resolved are
    exactly the codes it declares, whatever its sources. *)
Theorem declared_codes_are_kept p symsources get_sources types sources codes :
  types ≠ [] →
  resolve_dylib_sources_codes p symsources get_sources (Some (Some types))
  = Ret (sources, codes) →
  ∀ c, c ∈ codes ↔ c ∈ types.
Proof.
  intros Htypes Hres c.
  apply resolve_dylib_sources_codes_inv in Hres as (declared & _ & ->).
  rewrite bool_decide_eq_false_2; [apply elem_of_declared_codes|].
  intros Hempty. destruct types as [|t types]; [done|].
  assert (t ∈ declared_codes (Some (Some (t :: types)))) as Ht
    by (apply elem_of_declared_codes; left).
  rewrite Hempty in Ht. set_solver.
Qed.

(** X13.  The codes resolved are never empty, provided the set of all
    events is not: a plugin is always compatible with some event type. *)
Theorem resolved_codes_not_empty p symsources get_sources get_codes sources codes :
  all_event_set ≠ ∅ →
  resolve_dylib_sources_codes p symsources get_sources get_codes
  = Ret (sources, codes) →
  codes ≠ ∅.
Proof.
  intros Hall Hres.
  apply resolve_dylib_sources_codes_inv in Hres as (declared & _ & ->).
  destruct (bool_decide (declared_codes get_codes = ∅)) eqn:Hdecl.
  - destruct (is_source_compatible _ _); [assumption|set_solver].
  - by apply bool_decide_eq_false in Hdecl.
Qed.

End SourcesAndCodesMore.

Section FieldsMore.

Context `{env : host_env}.

(** The flags of an accepted field are built from [EPF_NONE] by setting
    flags of [plugin_field_flags], and its other members are those of the
    entry: an induction principle over the parsing of one field. *)
Lemma resolve_dylib_field_arg_build (P : Z → Prop) p root tf tf' :
  (∀ flags flag, flag ∈ plugin_field_flags → P flags → P (Z.lor flags flag)) →
  resolve_dylib_field_arg p root tf = Ret tf' →
  P (filtercheck_field_info.m_flags tf) →
  P (filtercheck_field_info.m_flags tf') ∧ same_texts tf tf'.
Proof.
  intros Hor. unfold resolve_dylib_field_arg, same_texts.
  destruct (Json.isNull root); [intros [= <-] HP; repeat split; exact HP|].
  destruct (arg_property p root "isRequired" _ tf) as [tf1| |] eqn:E1;
    cbn; [|discriminate..].
  destruct (arg_property p root "isIndex" _ tf1) as [tf2| |] eqn:E2;
    cbn; [|discriminate..].
  destruct (arg_property p root "isKey" _ tf2) as [tf3| |] eqn:E3;
    cbn; [|discriminate..].
  destruct (has_flag _ _ && _); [discriminate|].
  intros [= <-] HP.
  apply arg_property_inv in E1, E2, E3.
  destruct E1 as [-> | ->], E2 as [-> | ->], E3 as [-> | ->];
    cbn; (split; [|repeat split]);
    repeat (apply Hor; [unfold plugin_field_flags; set_solver|]); exact HP.
Qed.

Lemma resolve_property_build (P : Z → Prop) p fname tf0 tf prop tf' :
  (∀ flags flag, flag ∈ plugin_field_flags → P flags → P (Z.lor flags flag)) →
  resolve_property p fname tf prop = Ret tf' →
  P (filtercheck_field_info.m_flags tf) ∧ same_texts tf0 tf →
  P (filtercheck_field_info.m_flags tf') ∧ same_texts tf0 tf'.
Proof.
  intros Hor. unfold resolve_property, same_texts.
  destruct (negb (Json.isString prop)); [discriminate|].
  destruct (Json.asString prop) as [str| |]; cbn; [|discriminate..].
  repeat match goal with
         | |- (if ?b then _ else _) = _ → _ => destruct b
         end;
    intros [= <-] [HP Hsame]; cbn; (split; [|exact Hsame]);
    try (apply Hor; [unfold plugin_field_flags; set_solver|]); exact HP.
Qed.

(** One step through the body of [resolve_dylib_field]. *)
Ltac entry_step :=
  match goal with
  | |- mbind _ ?c = Ret _ → _ =>
      let E := fresh "E" in destruct c eqn:E; cbn [mbind outcome_bind];
      [|discriminate..]
  | |- (if ?b then _ else _) = Ret _ → _ =>
      let E := fresh "E" in destruct b eqn:E; try discriminate
  | |- match m_pt_lut ?t with _ => _ end = Ret _ → _ =>
      let E := fresh "E" in destruct (m_pt_lut t) eqn:E; [|discriminate]
  end.

Lemma resolve_dylib_field_build (P : Z → Prop) p entry tf :
  P EPF_NONE →
  (∀ flags flag, flag ∈ plugin_field_flags → P flags → P (Z.lor flags flag)) →
  resolve_dylib_field p entry = Ret tf →
  P (filtercheck_field_info.m_flags tf) ∧
  ∃ ftype fname fdisplay fdesc,
    member_text entry "type" = Ret ftype ∧
    member_text entry "name" = Ret fname ∧
    member_text entry "display" = Ret fdisplay ∧
    member_text entry "desc" = Ret fdesc ∧
    fname ≠ "" ∧ fdesc ≠ "" ∧
    m_pt_lut ftype = Some (filtercheck_field_info.m_type tf) ∧
    filtercheck_field_info.m_print_format tf = PF_DEC ∧
    filtercheck_field_info.m_name tf = strlcpy fname sizeof_m_name ∧
    filtercheck_field_info.m_display tf = strlcpy fdisplay sizeof_m_display ∧
    filtercheck_field_info.m_description tf = strlcpy fdesc sizeof_m_description.
Proof.
  intros Hnone Hor. unfold resolve_dylib_field, member_text.
  do 13 entry_step.
  match goal with
  | |- mbind _ ?c = Ret _ → _ =>
      assert (∀ tf0, c = Ret tf0 →
              P (filtercheck_field_info.m_flags tf0) ∧
              same_texts
                {| filtercheck_field_info.m_type := p0;
                   filtercheck_field_info.m_flags := EPF_NONE;
                   filtercheck_field_info.m_print_format := PF_DEC;
                   filtercheck_field_info.m_name := strlcpy a2 sizeof_m_name;
                   filtercheck_field_info.m_display := strlcpy a4 sizeof_m_display;
                   filtercheck_field_info.m_description :=
                     strlcpy a6 sizeof_m_description |} tf0) as Hstart
  end.
  { intros tf0 Htf0.
    repeat match type of Htf0 with
           | (if ?b then _ else _) = _ => destruct b
           end; try discriminate; injection Htf0 as <-; cbn;
      (split; [|repeat split]);
      try (apply Hor; [unfold plugin_field_flags; set_solver|]); exact Hnone. }
  entry_step. destruct (Hstart _ eq_refl) as [HP0 Hsame0]. clear Hstart.
  do 2 entry_step.
  match goal with
  | Harg : resolve_dylib_field_arg _ _ _ = Ret _ |- _ =>
      destruct (resolve_dylib_field_arg_build P _ _ _ _ Hor Harg HP0)
        as [HP1 Hsame1]
  end.
  assert (∀ tf', P (filtercheck_field_info.m_flags tf') ∧
                 same_texts
                   {| filtercheck_field_info.m_type := p0;
                      filtercheck_field_info.m_flags := EPF_NONE;
                      filtercheck_field_info.m_print_format := PF_DEC;
                      filtercheck_field_info.m_name := strlcpy a2 sizeof_m_name;
                      filtercheck_field_info.m_display := strlcpy a4 sizeof_m_display;
                      filtercheck_field_info.m_description :=
                        strlcpy a6 sizeof_m_description |} tf' →
          P (filtercheck_field_info.m_flags tf') ∧
          ∃ ftype fname fdisplay fdesc,
            Ret a0 = Ret ftype ∧ Ret a2 = Ret fname ∧ Ret a4 = Ret fdisplay ∧
            Ret a6 = Ret fdesc ∧ fname ≠ "" ∧ fdesc ≠ "" ∧
            m_pt_lut ftype = Some (filtercheck_field_info.m_type tf') ∧
            filtercheck_field_info.m_print_format tf' = PF_DEC ∧
            filtercheck_field_info.m_name tf' = strlcpy fname sizeof_m_name ∧
            filtercheck_field_info.m_display tf' = strlcpy fdisplay sizeof_m_display ∧
            filtercheck_field_info.m_description tf'
            = strlcpy fdesc sizeof_m_description) as Hfinish.
  { intros tf' [HP (Ht & Hf & Hn & Hd & Hx)]. split; [exact HP|].
    exists a0, a2, a4, a6. cbn in Ht, Hf, Hn, Hd, Hx.
    rewrite Ht, Hf, Hn, Hd, Hx.
    repeat split; try assumption.
    - intros ->. discriminate.
    - intros ->. discriminate. }
  assert (same_texts
            {| filtercheck_field_info.m_type := p0;
               filtercheck_field_info.m_flags := EPF_NONE;
               filtercheck_field_info.m_print_format := PF_DEC;
               filtercheck_field_info.m_name := strlcpy a2 sizeof_m_name;
               filtercheck_field_info.m_display := strlcpy a4 sizeof_m_display;
               filtercheck_field_info.m_description :=
                 strlcpy a6 sizeof_m_description |} a10) as Hsame.
  { destruct Hsame0 as (H1 & H2 & H3 & H4 & H5),
      Hsame1 as (G1 & G2 & G3 & G4 & G5).
    unfold same_texts. rewrite G1, G2, G3, G4, G5. repeat split; assumption. }
  do 2 entry_step.
  - entry_step. intros Hfold. apply Hfinish.
    eapply (foldM_invariant
              (λ tf', P (filtercheck_field_info.m_flags tf') ∧ same_texts _ tf'));
      [|exact Hfold|split; [exact HP1|exact Hsame]].
    intros b x b' Hstep. by apply (resolve_property_build P _ _ _ _ _ _ Hor Hstep).
  - intros [= <-]. apply Hfinish. split; assumption.
Qed.



(** X15.  With the flags of a field as distinct single bits, a field of an
    accepted plugin has no flag set other than the eight the host gives to
    plugin fields: no other single-bit flag is ever found in its flags. *)
Theorem field_flags_known_only handle errstr e p' tf k :
  field_flags_are_bits →
  resolve_dylib_symbols (new_sinsp_plugin handle) errstr = Ret (true, e, p') →
  tf ∈ fields p' →
  0 ≤ k →
  Z.shiftl 1 k ∉ plugin_field_flags →
  has_flag (filtercheck_field_info.m_flags tf) (Z.shiftl 1 k) = false.
Proof.
  intros (Hnone & ks & _ & Hpos & Hflags) Hres Htf Hk Hother.
  destruct (resolve_dylib_symbols_fields _ _ _ _ _ Hres Htf)
    as (q & entry & _ & Hentry).
  refine (proj1 (resolve_dylib_field_build
                   (λ flags, has_flag flags (Z.shiftl 1 k) = false)
                   q entry tf _ _ Hentry)).
  - rewrite Hnone. apply has_flag_0.
  - intros flags flag Hflag Hflags'.
    unfold plugin_field_flags in Hflag, Hother. rewrite Hflags in Hflag, Hother.
    apply list_elem_of_fmap in Hflag as (kj & -> & Hkj).
    rewrite Forall_forall in Hpos.
    rewrite has_flag_or, Hflags' by (try assumption; by apply Hpos).
    destruct (Z.eqb_spec kj k) as [-> |]; [|reflexivity].
    exfalso. apply Hother. by apply list_elem_of_fmap_2.
Qed.

End FieldsMore.

Section OperationsMore.

Context `{env : host_env}.

(** X16.  On an initialized plugin [event_to_string] always returns, and
    never the empty text: it returns the text of the plugin when the plugin
    has a state and the entry point and gives a text that is not empty, and
    a text of its own starting with "datalen=" in every other case. *)
Theorem event_to_string_never_empty p evt :
  m_inited p = true →
  ∃ s, event_to_string p evt = Ret s ∧ s ≠ "" ∧
       ((∃ api_event_to_string,
           plugin_api.event_to_string (api (m_handle p)) = Some api_event_to_string ∧
           m_state p ≠ 0 ∧
           api_event_to_string (m_state p) (event_input evt) = Some s) ∨
        is_prefix "datalen=" s = true).
Proof.
  intros Hin. unfold event_to_string. rewrite Hin. cbn [negb]. cbv zeta.
  destruct (plugin_api.event_to_string (api (m_handle p))) as [f|].
  - destruct (Z.eqb_spec (m_state p) 0) as [Hz|Hnz]; cbn [negb].
    + cbn [string_empty]. destruct (forallb isprint _);
        eexists; (split; [reflexivity|]); (split; [discriminate|]); by right.
    + destruct (f (m_state p) (event_input evt)) as [[|c s]|] eqn:Hf;
        cbn [str_from_alloc_charbuf string_empty].
      * destruct (forallb isprint _);
          eexists; (split; [reflexivity|]); (split; [discriminate|]); by right.
      * eexists. split; [reflexivity|]. split; [discriminate|].
        left. by exists f.
      * destruct (forallb isprint _);
          eexists; (split; [reflexivity|]); (split; [discriminate|]); by right.
  - cbn [string_empty]. destruct (forallb isprint _);
      eexists; (split; [reflexivity|]); (split; [discriminate|]); by right.
Qed.

Lemma open_param_of_value p entry param :
  open_param_of p entry = Ret param → value param ≠ "".
Proof.
  unfold open_param_of.
  destruct (Json.subscript entry "value") as [jvalue| |]; cbn; [|discriminate..].
  destruct (Json.asString jvalue) as [[|c v]| |]; cbn; try discriminate.
  destruct (Json.subscript entry "desc") as [jdesc| |]; cbn; [|discriminate..].
  destruct (Json.asString jdesc) as [d| |]; cbn; [|discriminate..].
  destruct (Json.subscript entry "separator") as [jsep| |]; cbn; [|discriminate..].
  destruct (Json.asString jsep) as [sp| |]; cbn; [|discriminate..].
  intros [= <-]. discriminate.
Qed.

(** X17.  Every open parameter that [list_open_params] returns has a value
    that is not empty. *)
Theorem list_open_params_values_not_empty p params param :
  list_open_params p = Ret params →
  param ∈ params →
  value param ≠ "".
Proof.
  unfold list_open_params.
  destruct (negb (m_inited p)); [discriminate|].
  destruct (plugin_api.list_open_params _) as [f|];
    [|intros [= <-] Hin; by apply elem_of_nil in Hin].
  destruct (negb (m_state p =? 0));
    [|intros [= <-] Hin; by apply elem_of_nil in Hin].
  destruct (f (m_state p)) as [charbuf rc].
  destruct (negb (rc =? SS_PLUGIN_SUCCESS)).
  { destruct (get_last_error p); discriminate. }
  destruct (negb (string_empty _));
    [|intros [= <-] Hin; by apply elem_of_nil in Hin].
  destruct (Reader_parse _) as [[]|]; try discriminate.
  intros Hall Hin.
  destruct (mapM_elem_of _ _ _ _ Hall Hin) as (entry & _ & Hentry).
  by eapply open_param_of_value.
Qed.

(** X18.  [as_scap_source] needs the sourcing capability; the structure it
    returns carries the state and the id of the plugin and the handle the
    member held, and a second call returns the same structure and changes
    nothing. *)
Theorem as_scap_source_stable p sp p' :
  as_scap_source p = (Ret sp, p') →
  has_flag (caps p) CAP_SOURCING = true ∧
  sp_state sp = m_state p ∧ sp_id sp = m_id p ∧
  sp_handle sp = sp_handle (m_scap_source_plugin p) ∧
  as_scap_source p' = (Ret sp, p').
Proof.
  unfold as_scap_source.
  destruct (m_inited p) eqn:Hin; cbn [negb]; [|discriminate].
  destruct (has_flag (caps p) CAP_SOURCING) eqn:Hcap; cbn [negb]; [|discriminate].
  intros [= <- <-].
  cbn. unfold caps in *. rewrite Hin, Hcap. cbn. repeat split.
Qed.

End OperationsMore.

(** * Properties of the filter check *)

From Stdlib Require DecimalFacts DecimalPos DecimalZ.

Section DecimalText.

(** The decimal text of a natural number, by its digits. *)
Lemma to_string_digits n :
  0 ≤ n →
  ∃ u, to_string n = NilEmpty.string_of_uint u ∧ u ≠ Decimal.Nil ∧
       Decimal.unorm u = u ∧ Z.of_uint u = n.
Proof.
  intros Hn.
  pose proof (DecimalZ.of_to n) as Hof.
  pose proof (DecimalZ.to_of (Z.to_int n)) as Hto. rewrite Hof in Hto.
  unfold to_string.
  destruct n as [|q|q]; [| |lia]; cbn [Z.to_int] in *.
  - exists Decimal.zero. repeat split; discriminate.
  - exists (Pos.to_uint q).
    pose proof (DecimalPos.Unsigned.to_uint_nonnil q) as Hnil.
    split; [cbn; by destruct (Pos.to_uint q)|]. split; [assumption|].
    split; [|exact Hof].
    cbn [Decimal.norm] in Hto. by injection Hto.
Qed.

Lemma string_of_uint_all_digits u : all_digits (NilEmpty.string_of_uint u) = true.
Proof. induction u; cbn; try assumption; reflexivity. Qed.

Lemma unorm_fixed_leading u :
  Decimal.unorm u = u →
  u = Decimal.zero ∨
  match NilEmpty.string_of_uint u with
  | String c _ => Ascii.eqb c "0" = false
  | EmptyString => False
  end.
Proof.
  intros Hfix. destruct u as [|u| | | | | | | | |]; cbn;
    try (right; reflexivity).
  - discriminate.
  - left. rewrite DecimalFacts.unorm_D0 in Hfix.
    destruct u as [|u| | | | | | | | |]; [reflexivity|..];
      exfalso;
      match type of Hfix with
      | Decimal.unorm ?v = _ =>
          pose proof (DecimalFacts.nb_digits_unorm v) as Hlen
      end;
      rewrite Hfix in Hlen; cbn in Hlen;
      (lapply Hlen; [lia|discriminate]).
Qed.

Lemma stoul_string_of_uint u :
  u ≠ Decimal.Nil →
  stoul (NilEmpty.string_of_uint u)
  = if Z.of_uint u <=? ULONG_MAX then Some (Z.of_uint u) else None.
Proof.
  intros Hnil. unfold stoul.
  replace (NilEmpty.string_of_uint u) with (NilZero.string_of_uint u)
    by (by destruct u).
  rewrite NilZero.usu by assumption. reflexivity.
Qed.

Lemma string_of_uint_length u :
  String.length (NilEmpty.string_of_uint u) = Decimal.nb_digits u.
Proof. induction u; cbn; congruence. Qed.

(** The texts [extract_arg_index] accepts, decided on the text alone. *)
Lemma to_string_is_index_text n :
  0 ≤ n →
  all_digits (to_string n) = true ∧
  (Nat.eqb (String.length (to_string n)) 0
   || (Nat.ltb 1 (String.length (to_string n))
       && match to_string n with String c _ => Ascii.eqb c "0" | _ => false end))
  = false ∧
  stoul (to_string n) = if n <=? ULONG_MAX then Some n else None.
Proof.
  intros Hn.
  destruct (to_string_digits n Hn) as (u & -> & Hnil & Hfix & Hval).
  split; [apply string_of_uint_all_digits|].
  split; [|rewrite stoul_string_of_uint, Hval by assumption; reflexivity].
  destruct (unorm_fixed_leading u Hfix) as [-> | Hlead]; [reflexivity|].
  destruct (NilEmpty.string_of_uint u) as [|c s]; [done|].
  rewrite Hlead, andb_false_r. reflexivity.
Qed.

(** Conversely, a text of digits without a leading zero is the decimal
    text of the number [stoul] reads. *)
Lemma index_text_is_to_string s n :
  (Nat.eqb (String.length s) 0
   || (Nat.ltb 1 (String.length s)
       && match s with String c _ => Ascii.eqb c "0" | _ => false end)) = false →
  stoul s = Some n →
  0 ≤ n ≤ ULONG_MAX ∧ s = to_string n.
Proof.
  intros Hlead. unfold stoul.
  destruct (NilZero.uint_of_string s) as [u|] eqn:Hu; [|discriminate].
  destruct (Z.leb_spec (Z.of_uint u) ULONG_MAX) as [Hle|]; [|discriminate].
  intros [= <-].
  pose proof (NilZero.sus _ _ Hu) as Hs.
  pose proof (NilZero.uint_of_string_nonnil s) as Hnil. rewrite Hu in Hnil.
  assert (u ≠ Decimal.Nil) as Hnil' by congruence.
  assert (Decimal.unorm u = u) as Hfix.
  { destruct u as [|u| | | | | | | | |]; try reflexivity; [done|].
    destruct u as [|u| | | | | | | | |]; [reflexivity|..];
      subst s; cbn in Hlead; discriminate. }
  assert (0 ≤ Z.of_uint u) as Hpos by (unfold Z.of_uint; lia).
  split; [lia|].
  unfold to_string.
  pose proof (DecimalZ.to_of (Decimal.Pos u)) as Hto.
  cbn [Z.of_int Decimal.norm] in Hto. rewrite Hto, Hfix.
  cbn [NilZero.string_of_int]. congruence.
Qed.

End DecimalText.

Section ArgumentIndex.

Context `{env : host_env}.

Lemma extract_arg_index_digits fc full_field_name index :
  all_digits (m_argstr fc) = true →
  Nat.eqb (String.length (m_argstr fc)) 0
  || (Nat.ltb 1 (String.length (m_argstr fc))
      && match m_argstr fc with String c _ => Ascii.eqb c "0" | _ => false end)
  = false →
  stoul (m_argstr fc) = Some index →
  extract_arg_index fc full_field_name
  = Ret (set_arg fc (m_arg_present fc) (m_arg_key fc) index).
Proof.
  intros Hdigits Hlead Hstoul.
  unfold extract_arg_index. rewrite Hlead, Hdigits, Hstoul. reflexivity.
Qed.

Lemma extract_arg_index_not_digits fc full_field_name field :
  field_at fc = Ret field →
  all_digits (m_argstr fc) = false →
  extract_arg_index fc full_field_name
  = throw ("filter " +:+ full_field_name +:+ " "
           +:+ filtercheck_field_info.m_name field
           +:+ " has an invalid index argument not composed only by digits: "
           +:+ m_argstr fc).
Proof.
  intros Hfield Hdigits. unfold extract_arg_index. rewrite Hfield, Hdigits.
  by destruct (Nat.eqb _ 0 || _).
Qed.

(** X19.  An index written in decimal, from 0 to [ULONG_MAX], is accepted
    by [extract_arg_index], which stores its value in [m_arg_index] and
    changes nothing else. *)
Theorem extract_arg_index_accepts fc full_field_name n :
  0 ≤ n ≤ ULONG_MAX →
  m_argstr fc = to_string n →
  extract_arg_index fc full_field_name
  = Ret (set_arg fc (m_arg_present fc) (m_arg_key fc) n).
Proof.
  intros [Hn Hmax] Harg.
  destruct (to_string_is_index_text n Hn) as (Hdigits & Hlead & Hstoul).
  unfold extract_arg_index. rewrite Harg, Hlead, Hdigits, Hstoul.
  apply Z.leb_le in Hmax. rewrite Hmax. reflexivity.
Qed.

(** X20.  What [extract_arg_index] accepts is the decimal text of the
    index it stores, an index from 0 to [ULONG_MAX]: no sign, no space, no
    leading zero, and nothing after the digits. *)
Theorem extract_arg_index_canonical fc full_field_name fc' :
  extract_arg_index fc full_field_name = Ret fc' →
  0 ≤ m_arg_index fc' ≤ ULONG_MAX ∧
  m_argstr fc = to_string (m_arg_index fc') ∧
  fc' = set_arg fc (m_arg_present fc) (m_arg_key fc) (m_arg_index fc').
Proof.
  unfold extract_arg_index.
  destruct (Nat.eqb _ 0 || _) eqn:Hlead.
  { destruct (all_digits _), (field_at fc); discriminate. }
  destruct (all_digits (m_argstr fc)); [|destruct (field_at fc); discriminate].
  destruct (stoul (m_argstr fc)) as [index|] eqn:Hstoul;
    [|destruct (field_at fc); discriminate].
  intros [= <-]. cbn [m_arg_index set_arg].
  destruct (index_text_is_to_string _ _ Hlead Hstoul) as [Hrange Htext].
  repeat split; try lia. exact Htext.
Qed.

(** X21.  The texts [extract_arg_index] rejects, with their messages: a
    text with a character that is not a digit, also when it starts with 0;
    the empty text and a text of several digits that starts with 0, both as
    "starting with 0"; and a number above [ULONG_MAX]. *)
Theorem extract_arg_index_rejects fc full_field_name field :
  field_at fc = Ret field →
  let rejected (message : string) :=
    extract_arg_index fc full_field_name
    = throw ("filter " +:+ full_field_name +:+ " "
             +:+ filtercheck_field_info.m_name field +:+ message +:+ m_argstr fc) in
  (all_digits (m_argstr fc) = false →
   rejected " has an invalid index argument not composed only by digits: ") ∧
  (m_argstr fc = "" →
   rejected " has an invalid index argument starting with 0: ") ∧
  (∀ digits, m_argstr fc = String "0" digits → digits ≠ "" →
             all_digits digits = true →
   rejected " has an invalid index argument starting with 0: ") ∧
  (∀ n, ULONG_MAX < n → m_argstr fc = to_string n →
   rejected " has an invalid index argument not representable on 64 bit: ").
Proof.
  intros Hfield rejected. subst rejected. unfold extract_arg_index.
  rewrite Hfield. repeat split.
  - intros ->. by destruct (Nat.eqb _ 0 || _).
  - intros ->. reflexivity.
  - intros digits -> Hne Hdigits.
    destruct digits as [|c digits]; [done|].
    cbn in Hdigits |- *. rewrite Hdigits. reflexivity.
  - intros n Hn Harg.
    assert (0 ≤ n) as Hpos by (unfold ULONG_MAX in Hn; lia).
    destruct (to_string_is_index_text n Hpos) as (Hdigits & Hlead & Hstoul).
    rewrite Harg, Hlead, Hdigits, Hstoul.
    apply Z.leb_gt in Hn. rewrite Hn. reflexivity.
Qed.

End ArgumentIndex.

Section FieldName.

Context `{env : host_env}.

(** *** Tokens *)

Lemma append_cons c a b : String c a +:+ b = String c (a +:+ b).
Proof. reflexivity. Qed.

Lemma append_nil b : "" +:+ b = b.
Proof. reflexivity. Qed.

Lemma string_length_app a b :
  String.length (a +:+ b) = (String.length a + String.length b)%nat.
Proof.
  induction a as [|c a IH]; [reflexivity|].
  rewrite append_cons. cbn. by rewrite IH.
Qed.

Lemma find_first_of_app_miss c a b :
  find_first_of c a = None →
  find_first_of c (a +:+ b)
  = option_map (λ i, (String.length a + i)%nat) (find_first_of c b).
Proof.
  induction a as [|x a IH].
  - intros _. rewrite append_nil. by destruct (find_first_of c b).
  - rewrite append_cons. cbn.
    destruct (Ascii.eqb x c); [discriminate|].
    destruct (find_first_of c a); [discriminate|].
    intros _. rewrite IH by reflexivity. by destruct (find_first_of c b).
Qed.

Lemma find_first_of_app_hit c a b :
  find_first_of c a = None →
  find_first_of c (a +:+ String c b) = Some (String.length a).
Proof.
  intros Hmiss. rewrite find_first_of_app_miss by assumption.
  cbn. rewrite Ascii.eqb_refl. cbn. f_equal. lia.
Qed.

Lemma string_take_app a b n :
  string_take (String.length a + n) (a +:+ b) = a +:+ string_take n b.
Proof.
  induction a as [|c a IH]; [reflexivity|].
  rewrite !append_cons. cbn. by rewrite IH.
Qed.

Lemma string_take_0 s : string_take 0 s = "".
Proof. by destruct s. Qed.

Lemma string_app_empty a : a +:+ "" = a.
Proof.
  induction a as [|c a IH]; [reflexivity|].
  rewrite append_cons. by rewrite IH.
Qed.

Lemma string_take_exact a b : string_take (String.length a) (a +:+ b) = a.
Proof.
  rewrite <- (Nat.add_0_r (String.length a)), string_take_app, string_take_0.
  apply string_app_empty.
Qed.

Lemma substr_from_app a b : substr_from (a +:+ b) (String.length a) = b.
Proof.
  induction a as [|c a IH]; [rewrite append_nil; by destruct b|].
  rewrite append_cons. exact IH.
Qed.

Lemma string_app_assoc a b c : (a +:+ b) +:+ c = a +:+ b +:+ c.
Proof.
  induction a as [|x a IH]; [reflexivity|].
  rewrite !append_cons. by rewrite IH.
Qed.

Lemma up_to_space_app a b :
  find_first_of " " a = None → up_to_space (a +:+ b) = a +:+ up_to_space b.
Proof.
  intros Hmiss. unfold up_to_space.
  rewrite find_first_of_app_miss by assumption.
  destruct (find_first_of " " b) as [i|]; cbn; [|reflexivity].
  apply string_take_app.
Qed.

Lemma up_to_space_cons c s :
  Ascii.eqb c " " = false → up_to_space (String c s) = String c (up_to_space s).
Proof.
  intros Hc. unfold up_to_space. cbn. rewrite Hc.
  by destruct (find_first_of " " s).
Qed.

Lemma all_digits_find c s :
  isdigit c = false → all_digits s = true → find_first_of c s = None.
Proof.
  intros Hc. induction s as [|x s IH]; cbn; [reflexivity|].
  intros [Hx Hs]%andb_true_iff.
  destruct (Ascii.eqb_spec x c) as [-> |]; [congruence|].
  by rewrite IH.
Qed.

Lemma to_int32_small z : 0 ≤ z < 2 ^ 31 → to_int32 z = z.
Proof.
  intros Hz. unfold to_int32. rewrite Z.mod_small; lia.
Qed.

(** *** A token with a bracketed argument *)

Lemma parse_field_name_bracketed fc name arg rest res field :
  res ≠ -1 →
  find_first_of "[" name = None → find_first_of " " name = None →
  find_first_of "]" arg = None → find_first_of " " arg = None →
  field_at fc = Ret field →
  let str := name +:+ String "[" (arg +:+ String "]" rest) in
  let flags := filtercheck_field_info.m_flags field in
  parse_field_name fc str res
  = if negb (has_flag flags EPF_ARG_ALLOWED || has_flag flags EPF_ARG_REQUIRED)
    then
      (throw ("filter " +:+ str +:+ " " +:+ filtercheck_field_info.m_name field
              +:+ " does not allow nor require an argument but one is provided: "
              +:+ arg),
       set_m_argstr (set_arg (set_m_argstr fc "") false None 0) arg)
    else
      match (if has_flag flags EPF_ARG_INDEX
             then extract_arg_index (with_argument fc arg) str
             else Ret (with_argument fc arg)) with
      | Ret fc' =>
          (Ret (to_int32 (Z.of_nat (String.length name)
                          + Z.of_nat (String.length arg) + 2)),
           if has_flag flags EPF_ARG_KEY then extract_arg_key fc' else fc')
      | Throw e => (Throw e, with_argument fc arg)
      | Fault => (Fault, with_argument fc arg)
      end.
Proof.
  intros Hres Hname1 Hname2 Harg1 Harg2 Hfield str flags.
  assert (up_to_space str = name +:+ String "[" (arg +:+ String "]" (up_to_space rest)))
    as Hval.
  { unfold str. rewrite up_to_space_app by assumption. f_equal.
    rewrite up_to_space_cons by reflexivity. f_equal.
    rewrite up_to_space_app by assumption. f_equal.
    by rewrite up_to_space_cons by reflexivity. }
  unfold parse_field_name.
  apply Z.eqb_neq in Hres. rewrite Hres. cbn [negb].
  change (match find_first_of " " str with
          | Some val_end => string_take val_end str
          | None => str
          end) with (up_to_space str).
  cbv zeta. rewrite Hval.
  rewrite (find_first_of_app_hit "[" name) by assumption.
  assert (Nat.ltb (S (String.length name))
            (String.length (name +:+ String "[" (arg +:+ String "]" (up_to_space rest))))
          = true) as ->.
  { apply Nat.ltb_lt. rewrite string_length_app. cbn [String.length].
    rewrite string_length_app. cbn [String.length]. lia. }
  cbn [m_argstr set_m_argstr].
  assert (substr_from (name +:+ String "[" (arg +:+ String "]" (up_to_space rest)))
            (S (String.length name))
          = arg +:+ String "]" (up_to_space rest)) as ->.
  { replace (S (String.length name)) with (String.length (name +:+ "["))
      by (rewrite string_length_app; cbn [String.length]; lia).
    replace (name +:+ String "[" (arg +:+ String "]" (up_to_space rest)))
      with ((name +:+ "[") +:+ arg +:+ String "]" (up_to_space rest))
      by (rewrite string_app_assoc; reflexivity).
    apply substr_from_app. }
  rewrite (find_first_of_app_hit "]" arg) by assumption.
  rewrite string_take_exact.
  unfold field_at in *. cbn [m_info_fields m_field_id set_m_argstr set_arg].
  destruct (m_info_fields fc !! m_field_id fc) as [f|]; [|discriminate].
  injection Hfield as ->.
  fold flags.
  destruct (negb (has_flag flags EPF_ARG_ALLOWED || has_flag flags EPF_ARG_REQUIRED));
    [reflexivity|].
  cbn [m_arg_key m_arg_index set_arg set_m_argstr].
  unfold with_argument. reflexivity.
Qed.

(** X22.  Key round trip.  On a field that takes a key and no index, the
    token [name[key]], whatever follows the bracket, gives the key as it is
    written, up to a NUL, for any key without [[]]] and space, the empty
    key included; the length returned is that of [name[key]]. *)
Theorem parse_field_name_key fc name key rest res field :
  res ≠ -1 →
  find_first_of "[" name = None → find_first_of " " name = None →
  find_first_of "]" key = None → find_first_of " " key = None →
  field_at fc = Ret field →
  has_flag (filtercheck_field_info.m_flags field) EPF_ARG_ALLOWED
  || has_flag (filtercheck_field_info.m_flags field) EPF_ARG_REQUIRED = true →
  has_flag (filtercheck_field_info.m_flags field) EPF_ARG_INDEX = false →
  has_flag (filtercheck_field_info.m_flags field) EPF_ARG_KEY = true →
  Z.of_nat (String.length name) + Z.of_nat (String.length key) + 2 < 2 ^ 31 →
  parse_field_name fc (name +:+ String "[" (key +:+ String "]" rest)) res
  = (Ret (Z.of_nat (String.length name) + Z.of_nat (String.length key) + 2),
     set_arg (set_m_argstr fc key) true (Some (c_str key)) 0).
Proof.
  intros Hres Hn1 Hn2 Hk1 Hk2 Hfield Hallowed Hindex Hkey Hlen.
  rewrite (parse_field_name_bracketed fc name key rest res field)
    by assumption.
  cbv zeta. rewrite Hallowed, Hindex, Hkey. cbn [negb].
  rewrite to_int32_small by lia. reflexivity.
Qed.

(** X23.  Index round trip.  On a field that takes an index and no key,
    the token [name[n]], with [n] an index from 0 to [ULONG_MAX] in decimal,
    gives [m_arg_index = n]. *)
Theorem parse_field_name_index fc name n rest res field :
  res ≠ -1 →
  find_first_of "[" name = None → find_first_of " " name = None →
  0 ≤ n ≤ ULONG_MAX →
  field_at fc = Ret field →
  has_flag (filtercheck_field_info.m_flags field) EPF_ARG_ALLOWED
  || has_flag (filtercheck_field_info.m_flags field) EPF_ARG_REQUIRED = true →
  has_flag (filtercheck_field_info.m_flags field) EPF_ARG_INDEX = true →
  has_flag (filtercheck_field_info.m_flags field) EPF_ARG_KEY = false →
  Z.of_nat (String.length name) + Z.of_nat (String.length (to_string n)) + 2
  < 2 ^ 31 →
  parse_field_name fc (name +:+ String "[" (to_string n +:+ String "]" rest)) res
  = (Ret (Z.of_nat (String.length name)
          + Z.of_nat (String.length (to_string n)) + 2),
     set_arg (set_m_argstr fc (to_string n)) true None n).
Proof.
  intros Hres Hn1 Hn2 Hn Hfield Hallowed Hindex Hkey Hlen.
  destruct (to_string_is_index_text n (proj1 Hn)) as (Hdigits & Hlead & Hstoul).
  rewrite (parse_field_name_bracketed fc name (to_string n) rest res field);
    try assumption; try (by apply all_digits_find).
  cbv zeta. rewrite Hallowed, Hindex, Hkey. cbn [negb].
  rewrite (proj2 (Z.leb_le _ _) (proj2 Hn)) in Hstoul.
  rewrite (extract_arg_index_digits (with_argument fc (to_string n)) _ n
             Hdigits Hlead Hstoul).
  rewrite to_int32_small by lia. reflexivity.
Qed.

(** X24.  On a field that takes both an index and a key, an argument that
    is not a decimal index is rejected by the index check: the plugin never
    receives it as a key. *)
Theorem parse_field_name_index_and_key fc name arg rest res field :
  res ≠ -1 →
  find_first_of "[" name = None → find_first_of " " name = None →
  find_first_of "]" arg = None → find_first_of " " arg = None →
  field_at fc = Ret field →
  has_flag (filtercheck_field_info.m_flags field) EPF_ARG_ALLOWED
  || has_flag (filtercheck_field_info.m_flags field) EPF_ARG_REQUIRED = true →
  has_flag (filtercheck_field_info.m_flags field) EPF_ARG_INDEX = true →
  has_flag (filtercheck_field_info.m_flags field) EPF_ARG_KEY = true →
  all_digits arg = false →
  let str := name +:+ String "[" (arg +:+ String "]" rest) in
  parse_field_name fc str res
  = (throw ("filter " +:+ str +:+ " " +:+ filtercheck_field_info.m_name field
            +:+ " has an invalid index argument not composed only by digits: "
            +:+ arg),
     set_arg (set_m_argstr fc arg) true None 0).
Proof.
  intros Hres Hn1 Hn2 Ha1 Ha2 Hfield Hallowed Hindex Hkey Hdigits str.
  unfold str.
  rewrite (parse_field_name_bracketed fc name arg rest res field)
    by assumption.
  cbv zeta. rewrite Hallowed, Hindex. cbn [negb].
  assert (field_at (with_argument fc arg) = Ret field) as Hfield'
    by exact Hfield.
  rewrite (extract_arg_index_not_digits (with_argument fc arg)
             (name +:+ String "[" (arg +:+ String "]" rest)) field Hfield'
             Hdigits).
  reflexivity.
Qed.

(** X25.  A token with an argument for a field that neither allows nor
    requires one is rejected, and so is a token whose bracket is not
    closed before its first space. *)
Theorem parse_field_name_rejects_argument fc str res field :
  res ≠ -1 →
  field_at fc = Ret field →
  (∀ name arg rest,
     str = name +:+ String "[" (arg +:+ String "]" rest) →
     find_first_of "[" name = None → find_first_of " " name = None →
     find_first_of "]" arg = None → find_first_of " " arg = None →
     has_flag (filtercheck_field_info.m_flags field) EPF_ARG_ALLOWED
     || has_flag (filtercheck_field_info.m_flags field) EPF_ARG_REQUIRED = false →
     (parse_field_name fc str res).1
     = throw ("filter " +:+ str +:+ " " +:+ filtercheck_field_info.m_name field
              +:+ " does not allow nor require an argument but one is provided: "
              +:+ arg)) ∧
  (∀ name tail,
     up_to_space str = name +:+ String "[" tail →
     find_first_of "[" name = None →
     find_first_of "]" tail = None →
     (parse_field_name fc str res).1
     = throw ("filter " +:+ str +:+ " " +:+ filtercheck_field_info.m_name field
              +:+ " has a badly-formatted argument")).
Proof.
  intros Hres Hfield. split.
  - intros name arg rest -> Hn1 Hn2 Ha1 Ha2 Hflags.
    rewrite (parse_field_name_bracketed fc name arg rest res field)
      by assumption.
    cbv zeta. rewrite Hflags. reflexivity.
  - intros name tail Hval Hn1 Ht.
    unfold parse_field_name.
    apply Z.eqb_neq in Hres. rewrite Hres. cbn [negb].
    change (match find_first_of " " str with
            | Some val_end => string_take val_end str
            | None => str
            end) with (up_to_space str).
    cbv zeta. rewrite Hval.
    rewrite (find_first_of_app_hit "[" name) by assumption.
    assert (field_at (set_arg (set_m_argstr fc "") false None 0) = Ret field)
      as Hfield1 by exact Hfield.
    destruct (Nat.ltb _ _).
    + cbn [m_argstr set_m_argstr].
      replace (S (String.length name)) with (String.length (name +:+ "["))
        by (rewrite string_length_app; cbn [String.length]; lia).
      replace (name +:+ String "[" tail) with ((name +:+ "[") +:+ tail)
        by (rewrite string_app_assoc; reflexivity).
      rewrite substr_from_app, Ht. cbn [fst].
      unfold field_at in *. cbn [m_info_fields m_field_id set_m_argstr set_arg].
      destruct (m_info_fields fc !! m_field_id fc); [|discriminate].
      injection Hfield as ->. reflexivity.
    + cbn [fst]. rewrite Hfield1. reflexivity.
Qed.

(** X26.  A token without a bracket before its first space: a field that
    requires an argument is rejected; any other field is accepted with the
    length the base class has found, and no argument.  A name the base
    class has not recognized ([-1]) is passed on. *)
Theorem parse_field_name_without_argument fc str res field :
  field_at fc = Ret field →
  find_first_of "[" (up_to_space str) = None →
  parse_field_name fc str res
  = if res =? -1 then (Ret (-1), set_m_argstr fc "")
    else if has_flag (filtercheck_field_info.m_flags field) EPF_ARG_REQUIRED
    then (throw ("filter " +:+ str +:+ " " +:+ filtercheck_field_info.m_name field
                 +:+ " requires an argument but none provided"),
          set_arg (set_m_argstr fc "") false None 0)
    else (Ret res, set_arg (set_m_argstr fc "") false None 0).
Proof.
  intros Hfield Hnone. unfold parse_field_name.
  destruct (Z.eqb_spec res (-1)) as [-> |]; cbn [negb]; [reflexivity|].
  change (match find_first_of " " str with
          | Some val_end => string_take val_end str
          | None => str
          end) with (up_to_space str).
  cbv zeta. rewrite Hnone.
  assert (field_at (set_arg (set_m_argstr fc "") false None 0) = Ret field)
    as -> by exact Hfield.
  reflexivity.
Qed.

End FieldName.

Section Extraction.

Context `{env : host_env}.

Variable sinsp_no_event_source_idx : Z.
Variable event_sources : list string.

Local Open Scope list_scope.

Lemma populate_bitmap_spec sources missing bitmap bitmap' :
  populate_bitmap event_sources sources bitmap missing = Ret bitmap' →
  ∃ added,
    bitmap' = bitmap ++ added ∧ List.length added = missing ∧
    ∀ i b, added !! i = Some b →
           ∃ source, event_sources !! (List.length bitmap + i)%nat = Some source ∧
                     b = is_source_compatible sources source.
Proof.
  revert bitmap. induction missing as [|missing IH]; intros bitmap; cbn.
  - intros [= <-]. exists []. rewrite app_nil_r. repeat split.
    intros i b Hi. by rewrite lookup_nil in Hi.
  - destruct (event_sources !! List.length bitmap) as [source|] eqn:Hsrc;
      [|discriminate].
    intros Hrest. destruct (IH _ Hrest) as (added & -> & Hlen & Hadded).
    exists (is_source_compatible sources source :: added).
    rewrite <- app_assoc. split; [reflexivity|]. split; [cbn; lia|].
    intros [|i] b Hi; cbn in Hi.
    + injection Hi as <-. exists source. by rewrite Nat.add_0_r.
    + destruct (Hadded i b Hi) as (src & Hsrc' & ->). exists src.
      rewrite length_app in Hsrc'. cbn in Hsrc'.
      split; [|reflexivity]. rewrite <- Hsrc'. f_equal. lia.
Qed.

Lemma populate_bitmap_consistent fc missing bitmap' :
  bitmap_consistent event_sources fc →
  populate_bitmap event_sources (extract_event_sources (m_eplugin fc))
    (m_compatible_plugin_sources_bitmap fc) missing = Ret bitmap' →
  bitmap_consistent event_sources (set_bitmap fc bitmap') ∧
  ∃ added, bitmap' = m_compatible_plugin_sources_bitmap fc ++ added ∧
           List.length added = missing.
Proof.
  intros Hcons Hpop.
  destruct (populate_bitmap_spec _ _ _ _ Hpop) as (added & -> & Hlen & Hadded).
  split; [|by exists added].
  intros i b. cbn [m_compatible_plugin_sources_bitmap set_bitmap m_eplugin].
  intros Hi. apply lookup_app_Some in Hi as [Hi|[Hge Hi]].
  - by apply Hcons.
  - destruct (Hadded _ _ Hi) as (src & Hsrc & ->). exists src.
    split; [|reflexivity]. rewrite <- Hsrc. f_equal. lia.
Qed.

(** X27.  [extract] returns values only for an event that has a source,
    whose type is among the extract codes of the plugin and whose source is
    compatible with its extract sources, on a plugin that is initialized
    and has returned at least one value; the bitmap being consistent with
    the event sources of the inspector, as [extract] keeps it. *)
Theorem extract_only_compatible fc evt evt_type efield written values vs fc' :
  bitmap_consistent event_sources fc →
  extract sinsp_no_event_source_idx event_sources fc evt evt_type efield
    written values = (Ret (true, vs), fc') →
  get_source_idx evt ≠ sinsp_no_event_source_idx ∧
  evt_type ∈ extract_event_codes (m_eplugin fc) ∧
  (∃ source, event_sources !! Z.to_nat (get_source_idx evt) = Some source ∧
             is_source_compatible (extract_event_sources (m_eplugin fc)) source
             = true) ∧
  m_inited (m_eplugin fc) = true ∧
  res_len written ≠ 0.
Proof.
  intros Hcons. unfold extract.
  destruct (Z.eqb_spec (get_source_idx evt) sinsp_no_event_source_idx);
    [discriminate|].
  destruct (bool_decide (evt_type ∈ _)) eqn:Hcode; cbn [negb]; [|discriminate].
  apply bool_decide_eq_true in Hcode.
  destruct (populate_bitmap _ _ _ _) as [bitmap| |] eqn:Hpop; [|discriminate..].
  destruct (populate_bitmap_consistent _ _ _ Hcons Hpop) as (Hcons' & _).
  destruct (bitmap !! Z.to_nat (get_source_idx evt)) as [[]|] eqn:Hbit;
    [|discriminate..].
  destruct (Hcons' _ _ Hbit) as (source & Hsource & Hcompat).
  destruct (field_at _) as [field| |]; cbn; [|discriminate..].
  unfold extract_fields. cbn [m_eplugin set_bitmap].
  destruct (m_inited (m_eplugin fc)); cbn [negb]; [|discriminate].
  destruct (call _) as [f| |]; cbn; [|discriminate..].
  destruct (negb _ || (res_len written =? 0)) eqn:Hres; [discriminate|].
  intros _. apply orb_false_iff in Hres as [_ Hlen%Z.eqb_neq].
  repeat split; try assumption. exists source. by split.
Qed.

(** X28.  [extract] writes the bitmap and no other member of the check;
    it only adds entries to the bitmap, so that what has been recorded for
    a source is never computed again, and it keeps the bitmap consistent
    with the event sources of the inspector. *)
Theorem extract_keeps_bitmap fc evt evt_type efield written values r fc' :
  bitmap_consistent event_sources fc →
  extract sinsp_no_event_source_idx event_sources fc evt evt_type efield
    written values = (r, fc') →
  bitmap_consistent event_sources fc' ∧
  (∃ added, m_compatible_plugin_sources_bitmap fc'
            = m_compatible_plugin_sources_bitmap fc ++ added) ∧
  fc' = set_bitmap fc (m_compatible_plugin_sources_bitmap fc').
Proof.
  intros Hcons. unfold extract.
  assert (bitmap_consistent event_sources fc ∧
          (∃ added, m_compatible_plugin_sources_bitmap fc
                    = m_compatible_plugin_sources_bitmap fc ++ added) ∧
          fc = set_bitmap fc (m_compatible_plugin_sources_bitmap fc)) as Hsame.
  { split; [assumption|]. split; [exists []; by rewrite app_nil_r|].
    by destruct fc. }
  destruct (get_source_idx evt =? sinsp_no_event_source_idx);
    [by intros [= _ <-]|].
  destruct (negb (bool_decide (evt_type ∈ _))); [by intros [= _ <-]|].
  destruct (populate_bitmap _ _ _ _) as [bitmap| |] eqn:Hpop;
    [|by intros [= _ <-]..].
  destruct (populate_bitmap_consistent _ _ _ Hcons Hpop)
    as (Hcons' & added & -> & _).
  destruct (_ !! Z.to_nat (get_source_idx evt)) as [[]|];
    intros [= _ <-]; (split; [assumption|]); (split; [by exists added|]);
    reflexivity.
Qed.

Lemma extract_value_len type written i v :
  extract_value type written i = Ret v →
  match type with
  | PT_UINT64 | PT_RELTIME | PT_ABSTIME =>
      len v = 8 ∧ ∃ x, res_u64 written !! i = Some x ∧ ptr v = ptr_u64 x
  | PT_BOOL | PT_IPV4ADDR =>
      len v = 4 ∧ ∃ x, res_u32 written !! i = Some x ∧ ptr v = ptr_u32 x
  | PT_CHARBUF =>
      ∃ s, res_str written !! i = Some s ∧ ptr v = ptr_str s ∧
           len v = Z.of_nat (String.length (c_str s))
  | PT_IPV4NET | PT_IPV6ADDR | PT_IPV6NET | PT_IPNET =>
      ∃ bytes, res_buf written !! i = Some bytes ∧ ptr v = ptr_buf bytes ∧
               len v = Z.of_nat (List.length bytes)
  end.
Proof.
  destruct type; cbn;
    match goal with
    | |- match ?o with _ => _ end = _ → _ => destruct o eqn:Hi
    end; try discriminate; intros [= <-]; cbn; eauto.
Qed.

Lemma mapM_lookup {A B : Type} (f : A → outcome B) l l' :
  mapM f l = Ret l' →
  List.length l' = List.length l ∧
  ∀ i y, l' !! i = Some y → ∃ x, l !! i = Some x ∧ f x = Ret y.
Proof.
  revert l'. induction l as [|x l IH]; cbn; intros l'.
  - intros [= <-]. split; [reflexivity|]. intros i y Hi.
    by rewrite lookup_nil in Hi.
  - destruct (f x) as [b| |] eqn:Hb; cbn; [|discriminate..].
    destruct (mapM f l) as [bs| |]; cbn; [|discriminate..].
    intros [= <-]. destruct (IH bs eq_refl) as [Hlen Hall].
    split; [cbn; lia|].
    intros [|i] y Hi; cbn in Hi.
    + injection Hi as <-. by exists x.
    + by apply Hall.
Qed.

(** X29.  The values of [extract]: as many as the plugin has returned, in
    order, the value at index [i] pointing to element [i] of the member of
    the result that the type of the field selects, with the length of that
    type: 8 for uint64, reltime and abstime, 4 for bool and ipv4addr, the
    length of the C string for a string, and the length of the buffer for
    the other types.  When [extract] returns [false] the values of the
    caller are left as they were. *)
Theorem extract_values fc evt evt_type efield written values ok vs fc' field :
  field_at fc = Ret field →
  extract sinsp_no_event_source_idx event_sources fc evt evt_type efield
    written values = (Ret (ok, vs), fc') →
  if ok then
    List.length vs = Z.to_nat (res_len written) ∧
    ∀ i v, vs !! i = Some v →
      match filtercheck_field_info.m_type field with
      | PT_UINT64 | PT_RELTIME | PT_ABSTIME =>
          len v = 8 ∧ ∃ x, res_u64 written !! i = Some x ∧ ptr v = ptr_u64 x
      | PT_BOOL | PT_IPV4ADDR =>
          len v = 4 ∧ ∃ x, res_u32 written !! i = Some x ∧ ptr v = ptr_u32 x
      | PT_CHARBUF =>
          ∃ s, res_str written !! i = Some s ∧ ptr v = ptr_str s ∧
               len v = Z.of_nat (String.length (c_str s))
      | PT_IPV4NET | PT_IPV6ADDR | PT_IPV6NET | PT_IPNET =>
          ∃ bytes, res_buf written !! i = Some bytes ∧ ptr v = ptr_buf bytes ∧
                   len v = Z.of_nat (List.length bytes)
      end
  else vs = values.
Proof.
  intros Hfield. unfold extract.
  destruct (get_source_idx evt =? sinsp_no_event_source_idx);
    [by intros [= <- <- _]|].
  destruct (negb (bool_decide (evt_type ∈ _))); [by intros [= <- <- _]|].
  destruct (populate_bitmap _ _ _ _) as [bitmap| |]; [|discriminate..].
  destruct (bitmap !! Z.to_nat (get_source_idx evt)) as [[]|];
    [|by intros [= <- <- _]|discriminate].
  assert (field_at (set_bitmap fc bitmap) = Ret field) as -> by exact Hfield.
  cbn [mbind outcome_bind].
  destruct (extract_fields _ _ _ _) as [okf| |]; cbn; [|discriminate..].
  destruct (negb okf || (res_len written =? 0)); [by intros [= <- <- _]|].
  destruct (mapM _ _) as [vs'| |] eqn:Hvs; cbn; [|discriminate..].
  intros [= <- <- _].
  destruct (mapM_lookup _ _ _ Hvs) as [Hlen Hall].
  rewrite length_seq in Hlen. split; [exact Hlen|].
  intros i v Hi. destruct (Hall i v Hi) as (j & Hj & Hv).
  apply lookup_seq in Hj as [-> _]. cbn in Hv.
  by apply extract_value_len in Hv.
Qed.

End Extraction.

(** * The further properties on the sample extractor *)

Section RunsMore.

Import FilterSample.

Lemma extractor_resolved :
  resolve_dylib_symbols (new_sinsp_plugin {| api := extractor |}) ""
  = Ret (true, "", plugin_of extractor).
Proof. vm_compute. reflexivity. Defined.

Lemma extractor_fields :
  fields (plugin_of extractor) = [key_field; index_field; any_field; plain_field].
Proof. vm_compute. reflexivity. Defined.

Lemma extractor_flags_are_bits : field_flags_are_bits.
Proof.
  split; [reflexivity|].
  exists [2; 3; 4; 5; 6; 7; 8; 9].
  split; [|split; [|reflexivity]].
  - compute_done.
  - repeat constructor; discriminate.
Defined.

Lemma init_after_destroy_witness :
  (plugin_api.init (api (m_handle (after_init Sample.good))) = Some (λ _, (7, 0)) ∧
   validate_init_config (after_init Sample.good) "{}" = Ret "{}" ∧
   (7, 0) = (7, SS_PLUGIN_SUCCESS)) ∧
  (init (destroy (after_init Sample.good)) "{}" "").1 = Ret (true, "") ∧
  m_inited (init (destroy (after_init Sample.good)) "{}" "").2 = true.
Proof.
  assert (plugin_api.init (api (m_handle (after_init Sample.good)))
          = Some (λ _, (7, 0))) as H1 by reflexivity.
  assert (validate_init_config (after_init Sample.good) "{}" = Ret "{}") as H2
    by (vm_compute; reflexivity).
  assert ((7, 0) = (7, SS_PLUGIN_SUCCESS)) as H3 by reflexivity.
  split; [exact (conj H1 (conj H2 H3))|].
  exact (init_after_destroy (after_init Sample.good) "{}" "" (λ _, (7, 0)) "{}" 7
           H1 H2 H3).
Defined.


Lemma init_failure_without_state_witness :
  (m_inited (plugin_of stateless) = false ∧
   m_state (plugin_of stateless) = 0 ∧
   plugin_api.init (api (m_handle (plugin_of stateless))) = Some (λ _, (0, 1)) ∧
   validate_init_config (plugin_of stateless) "{}" = Ret "{}" ∧
   (0, 1) = (0, 1) ∧
   1 ≠ SS_PLUGIN_SUCCESS) ∧
  init (plugin_of stateless) "{}" ""
  = (Ret (false, "Could not initialize plugin: Plugin handle or get_last_error function not defined"),
     set_m_inited (plugin_of stateless) true).
Proof.
  assert (m_inited (plugin_of stateless) = false) as H1 by reflexivity.
  assert (m_state (plugin_of stateless) = 0) as H2 by reflexivity.
  assert (plugin_api.init (api (m_handle (plugin_of stateless)))
          = Some (λ _, (0, 1))) as H3 by reflexivity.
  assert (validate_init_config (plugin_of stateless) "{}" = Ret "{}") as H4
    by (vm_compute; reflexivity).
  assert ((0, 1) = (0, 1)) as H5 by reflexivity.
  assert (1 ≠ SS_PLUGIN_SUCCESS) as H6 by (vm_compute; discriminate).
  split; [exact (conj H1 (conj H2 (conj H3 (conj H4 (conj H5 H6)))))|].
  exact (init_failure_without_state (plugin_of stateless) "{}" "" (λ _, (0, 1))
           "{}" 1 H1 H2 H3 H4 H5 H6).
Defined.

Lemma accepted_plugin_describable_witness :
  resolve_dylib_symbols (new_sinsp_plugin {| api := extractor |}) ""
  = Ret (true, "", plugin_of extractor) ∧
  (∃ nm, plugin_api.get_name (api {| api := extractor |}) = Some nm ∧
         name (plugin_of extractor) = str_from_alloc_charbuf nm) ∧
  m_valid (plugin_version (plugin_of extractor)) = true ∧
  caps (plugin_of extractor) = plugin_get_capabilities {| api := extractor |} ∧
  m_handle (plugin_of extractor) = {| api := extractor |} ∧
  m_state (plugin_of extractor) = 0 ∧
  m_inited (plugin_of extractor) = false ∧ "" = "".
Proof.
  split; [exact extractor_resolved|].
  exact (accepted_plugin_describable (new_sinsp_plugin {| api := extractor |}) ""
           "" (plugin_of extractor) extractor_resolved).
Defined.

Lemma create_gives_loaded_plugin_witness :
  created (create_from (inl {| api := extractor |}) "")
  = Ret (Some (plugin_of extractor), "") ∧
  @inl plugin_handle_t string {| api := extractor |}
  = inl (m_handle (plugin_of extractor)) ∧
  m_inited (plugin_of extractor) = false ∧
  m_state (plugin_of extractor) = 0 ∧ "" = "" ∧
  unloaded (create_from (inl {| api := extractor |}) "") = [].
Proof.
  assert (created (create_from (inl {| api := extractor |}) "")
          = Ret (Some (plugin_of extractor), "")) as H
    by (vm_compute; reflexivity).
  split; [exact H|].
  exact (create_gives_loaded_plugin (inl {| api := extractor |}) ""
           (plugin_of extractor) "" H).
Defined.

Lemma create_null_reports_witness :
  created (create_from (inl {| api := unversioned |}) "")
  = Ret (None, "Plugin provided an invalid version string: ''") ∧
  (@inl plugin_handle_t string {| api := unversioned |}
   = inr "Plugin provided an invalid version string: ''" ∨
   ∃ handle, @inl plugin_handle_t string {| api := unversioned |} = inl handle ∧
     (plugin_check_required_api_version handle
      = Some "Plugin provided an invalid version string: ''" ∨
      plugin_check_required_symbols handle
      = Some "Plugin provided an invalid version string: ''" ∨
      ∃ ver, plugin_api.get_version (api handle) = Some ver ∧
             sinsp_version_valid (str_from_alloc_charbuf ver) = false ∧
             "Plugin provided an invalid version string: ''"
             = "Plugin provided an invalid version string: '"
               +:+ str_from_alloc_charbuf ver +:+ "'")).
Proof.
  assert (created (create_from (inl {| api := unversioned |}) "")
          = Ret (None, "Plugin provided an invalid version string: ''")) as H
    by (vm_compute; reflexivity).
  split; [exact H|].
  exact (create_null_reports (inl {| api := unversioned |}) ""
           "Plugin provided an invalid version string: ''" H).
Defined.

Lemma event_source_needs_id_witness :
  (resolve_dylib_symbols (new_sinsp_plugin {| api := extractor |}) ""
   = Ret (true, "", plugin_of extractor) ∧
   event_source (plugin_of extractor) ≠ "") ∧
  id (plugin_of extractor) ≠ 0 ∧
  has_flag (caps (plugin_of extractor)) CAP_SOURCING = true ∧
  plugin_api.get_id (api {| api := extractor |}) = Some (id (plugin_of extractor)).
Proof.
  assert (event_source (plugin_of extractor) ≠ "") as H
    by (vm_compute; discriminate).
  split; [exact (conj extractor_resolved H)|].
  exact (event_source_needs_id {| api := extractor |} "" "" (plugin_of extractor)
           extractor_resolved H).
Defined.

Lemma other_sources_resolved :
  resolve_dylib_sources_codes (plugin_of Sample.good) "get_extract_event_sources"
    (Some (Some Sample.sources_text)) None
  = Ret ({["other"]}, {[PPME_PLUGINEVENT_E]}).
Proof. vm_compute. reflexivity. Defined.

Lemma sources_hold_no_empty_name_witness :
  resolve_dylib_sources_codes (plugin_of Sample.good) "get_extract_event_sources"
    (Some (Some Sample.sources_text)) None
  = Ret ({["other"]}, {[PPME_PLUGINEVENT_E]}) ∧
  "" ∉ ({["other"]} : gset string).
Proof.
  split; [exact other_sources_resolved|].
  exact (sources_hold_no_empty_name (plugin_of Sample.good)
           "get_extract_event_sources" (Some (Some Sample.sources_text)) None
           {["other"]} {[PPME_PLUGINEVENT_E]} other_sources_resolved).
Defined.

Lemma sources_of_string_array_witness :
  (Sample.sources_text ≠ "" ∧
   Reader_parse Sample.sources_text
   = Some (Json.arrayValue (map Json.stringValue ["other"])) ∧
   resolve_dylib_sources_codes (plugin_of Sample.good) "get_extract_event_sources"
     (Some (Some Sample.sources_text)) None
   = Ret ({["other"]}, {[PPME_PLUGINEVENT_E]})) ∧
  ("other" ∈ ({["other"]} : gset string) ↔
   ("other" ∈ ["other"] ∧ "other" ≠ "") ∨
   ("other" = m_event_source (plugin_of Sample.good) ∧ "other" ≠ "" ∧
    has_flag (m_caps (plugin_of Sample.good)) CAP_SOURCING = true)).
Proof.
  assert (Sample.sources_text ≠ "") as H1 by (vm_compute; discriminate).
  assert (Reader_parse Sample.sources_text
          = Some (Json.arrayValue (map Json.stringValue ["other"]))) as H2
    by (vm_compute; reflexivity).
  split; [exact (conj H1 (conj H2 other_sources_resolved))|].
  exact (sources_of_string_array (plugin_of Sample.good)
           "get_extract_event_sources" Sample.sources_text ["other"] None
           {["other"]} {[PPME_PLUGINEVENT_E]} H1 H2 other_sources_resolved
           "other").
Defined.

Lemma declared_codes_are_kept_witness :
  (([5; 6] : list Z) ≠ [] ∧
   resolve_dylib_sources_codes (plugin_of Sample.good) "get_extract_event_sources"
     None (Some (Some [5; 6]))
   = Ret (∅, list_to_set [5; 6])) ∧
  (5 ∈ (list_to_set [5; 6] : gset Z) ↔ 5 ∈ [5; 6]).
Proof.
  assert (([5; 6] : list Z) ≠ []) as H1 by discriminate.
  assert (resolve_dylib_sources_codes (plugin_of Sample.good)
            "get_extract_event_sources" None (Some (Some [5; 6]))
          = Ret (∅, list_to_set [5; 6])) as H2
    by (vm_compute; reflexivity).
  split; [exact (conj H1 H2)|].
  exact (declared_codes_are_kept (plugin_of Sample.good)
           "get_extract_event_sources" None [5; 6] ∅ (list_to_set [5; 6])
           H1 H2 5).
Defined.

Lemma resolved_codes_not_empty_witness :
  (all_event_set ≠ ∅ ∧
   resolve_dylib_sources_codes (plugin_of Sample.good) "get_extract_event_sources"
     (Some (Some Sample.sources_text)) None
   = Ret ({["other"]}, {[PPME_PLUGINEVENT_E]})) ∧
  ({[PPME_PLUGINEVENT_E]} : gset Z) ≠ ∅.
Proof.
  assert (all_event_set ≠ ∅) as H1 by (vm_compute; discriminate).
  split; [exact (conj H1 other_sources_resolved)|].
  exact (resolved_codes_not_empty (plugin_of Sample.good)
           "get_extract_event_sources" (Some (Some Sample.sources_text)) None
           {["other"]} {[PPME_PLUGINEVENT_E]} H1 other_sources_resolved).
Defined.


Lemma field_flags_known_only_witness :
  (field_flags_are_bits ∧
   resolve_dylib_symbols (new_sinsp_plugin {| api := extractor |}) ""
   = Ret (true, "", plugin_of extractor) ∧
   any_field ∈ fields (plugin_of extractor) ∧
   0 ≤ 1 ∧
   Z.shiftl 1 1 ∉ plugin_field_flags) ∧
  has_flag (filtercheck_field_info.m_flags any_field) (Z.shiftl 1 1) = false.
Proof.
  assert (any_field ∈ fields (plugin_of extractor)) as H1
    by (rewrite extractor_fields; do 2 apply list_elem_of_further;
        apply list_elem_of_here).
  assert (0 ≤ 1) as H2 by lia.
  assert (Z.shiftl 1 1 ∉ plugin_field_flags) as H3 by compute_done.
  split; [exact (conj extractor_flags_are_bits
                   (conj extractor_resolved (conj H1 (conj H2 H3))))|].
  exact (field_flags_known_only {| api := extractor |} "" ""
           (plugin_of extractor) any_field 1 extractor_flags_are_bits
           extractor_resolved H1 H2 H3).
Defined.

Lemma event_to_string_never_empty_witness :
  m_inited (after_init extractor) = true ∧
  ∃ s, event_to_string (after_init extractor) (event_from 1) = Ret s ∧ s ≠ "" ∧
       ((∃ api_event_to_string,
           plugin_api.event_to_string (api (m_handle (after_init extractor)))
           = Some api_event_to_string ∧
           m_state (after_init extractor) ≠ 0 ∧
           api_event_to_string (m_state (after_init extractor))
             (event_input (event_from 1)) = Some s) ∨
        is_prefix "datalen=" s = true).
Proof.
  assert (m_inited (after_init extractor) = true) as H by reflexivity.
  split; [exact H|].
  exact (event_to_string_never_empty (after_init extractor) (event_from 1) H).
Defined.

Lemma list_open_params_values_not_empty_witness :
  (list_open_params (after_init extractor)
   = Ret [{| value := "a"; desc := "first"; separator := "" |};
          {| value := "b"; desc := ""; separator := "," |}] ∧
   {| value := "b"; desc := ""; separator := "," |}
   ∈ [{| value := "a"; desc := "first"; separator := "" |};
      {| value := "b"; desc := ""; separator := "," |}]) ∧
  value {| value := "b"; desc := ""; separator := "," |} ≠ "".
Proof.
  assert (list_open_params (after_init extractor)
          = Ret [{| value := "a"; desc := "first"; separator := "" |};
                 {| value := "b"; desc := ""; separator := "," |}]) as H1
    by (vm_compute; reflexivity).
  assert ({| value := "b"; desc := ""; separator := "," |}
          ∈ [{| value := "a"; desc := "first"; separator := "" |};
             {| value := "b"; desc := ""; separator := "," |}]) as H2
    by (apply list_elem_of_further, list_elem_of_here).
  split; [exact (conj H1 H2)|].
  exact (list_open_params_values_not_empty (after_init extractor) _ _ H1 H2).
Defined.

Lemma as_scap_source_stable_witness :
  as_scap_source (after_init extractor)
  = (Ret (as_scap_source (after_init extractor)).2.(m_scap_source_plugin),
     (as_scap_source (after_init extractor)).2) ∧
  has_flag (caps (after_init extractor)) CAP_SOURCING = true ∧
  sp_state (as_scap_source (after_init extractor)).2.(m_scap_source_plugin) = 7 ∧
  sp_id (as_scap_source (after_init extractor)).2.(m_scap_source_plugin) = 999.
Proof.
  assert (as_scap_source (after_init extractor)
          = (Ret (as_scap_source (after_init extractor)).2.(m_scap_source_plugin),
             (as_scap_source (after_init extractor)).2)) as H
    by (vm_compute; reflexivity).
  split; [exact H|].
  destruct (as_scap_source_stable (after_init extractor) _ _ H)
    as (Hcap & Hstate & Hid & _).
  exact (conj Hcap (conj Hstate Hid)).
Defined.

Lemma extract_arg_index_accepts_witness :
  (0 ≤ 42 ≤ ULONG_MAX ∧ m_argstr (check 1 "42") = to_string 42) ∧
  extract_arg_index (check 1 "42") "sample.index[42]"
  = Ret (set_arg (check 1 "42") false None 42).
Proof.
  assert (0 ≤ 42 ≤ ULONG_MAX) as H1 by (unfold ULONG_MAX; lia).
  assert (m_argstr (check 1 "42") = to_string 42) as H2 by reflexivity.
  split; [exact (conj H1 H2)|].
  exact (extract_arg_index_accepts (check 1 "42") "sample.index[42]" 42 H1 H2).
Defined.

Lemma extract_arg_index_canonical_witness :
  extract_arg_index (check 1 "42") "sample.index[42]"
  = Ret (set_arg (check 1 "42") false None 42) ∧
  0 ≤ 42 ≤ ULONG_MAX ∧
  m_argstr (check 1 "42") = to_string 42 ∧
  set_arg (check 1 "42") false None 42
  = set_arg (check 1 "42") false None 42.
Proof.
  assert (extract_arg_index (check 1 "42") "sample.index[42]"
          = Ret (set_arg (check 1 "42") false None 42)) as H
    by (vm_compute; reflexivity).
  split; [exact H|].
  exact (extract_arg_index_canonical (check 1 "42") "sample.index[42]"
           (set_arg (check 1 "42") false None 42) H).
Defined.

Lemma extract_arg_index_rejects_witness :
  (field_at (check 1 "4x") = Ret index_field ∧
   all_digits (m_argstr (check 1 "4x")) = false) ∧
  extract_arg_index (check 1 "4x") "sample.index[4x]"
  = throw "filter sample.index[4x] sample.index has an invalid index argument not composed only by digits: 4x".
Proof.
  assert (field_at (check 1 "4x") = Ret index_field) as H1
    by (vm_compute; reflexivity).
  assert (all_digits (m_argstr (check 1 "4x")) = false) as H2 by reflexivity.
  split; [exact (conj H1 H2)|].
  exact (proj1 (extract_arg_index_rejects (check 1 "4x") "sample.index[4x]"
                  index_field H1) H2).
Defined.

Lemma parse_field_name_key_witness :
  (10 ≠ -1 ∧
   find_first_of "[" "sample.key" = None ∧ find_first_of " " "sample.key" = None ∧
   find_first_of "]" "k1" = None ∧ find_first_of " " "k1" = None ∧
   field_at (check 0 "") = Ret key_field ∧
   has_flag (filtercheck_field_info.m_flags key_field) EPF_ARG_ALLOWED
   || has_flag (filtercheck_field_info.m_flags key_field) EPF_ARG_REQUIRED = true ∧
   has_flag (filtercheck_field_info.m_flags key_field) EPF_ARG_INDEX = false ∧
   has_flag (filtercheck_field_info.m_flags key_field) EPF_ARG_KEY = true ∧
   Z.of_nat (String.length "sample.key") + Z.of_nat (String.length "k1") + 2
   < 2 ^ 31) ∧
  parse_field_name (check 0 "") "sample.key[k1] = 1" 10
  = (Ret 14, set_arg (set_m_argstr (check 0 "") "k1") true (Some "k1") 0).
Proof.
  assert (10 ≠ -1) as H1 by lia.
  assert (field_at (check 0 "") = Ret key_field) as H2
    by (vm_compute; reflexivity).
  assert (Z.of_nat (String.length "sample.key") + Z.of_nat (String.length "k1") + 2
          < 2 ^ 31) as H3 by (vm_compute; reflexivity).
  split.
  - exact (conj H1 (conj eq_refl (conj eq_refl (conj eq_refl (conj eq_refl
             (conj H2 (conj eq_refl (conj eq_refl (conj eq_refl H3))))))))).
  - exact (parse_field_name_key (check 0 "") "sample.key" "k1" " = 1" 10
             key_field H1 eq_refl eq_refl eq_refl eq_refl H2 eq_refl eq_refl
             eq_refl H3).
Defined.

Lemma parse_field_name_index_witness :
  (12 ≠ -1 ∧
   find_first_of "[" "sample.index" = None ∧
   find_first_of " " "sample.index" = None ∧
   0 ≤ 42 ≤ ULONG_MAX ∧
   field_at (check 1 "") = Ret index_field ∧
   has_flag (filtercheck_field_info.m_flags index_field) EPF_ARG_ALLOWED
   || has_flag (filtercheck_field_info.m_flags index_field) EPF_ARG_REQUIRED
   = true ∧
   has_flag (filtercheck_field_info.m_flags index_field) EPF_ARG_INDEX = true ∧
   has_flag (filtercheck_field_info.m_flags index_field) EPF_ARG_KEY = false ∧
   Z.of_nat (String.length "sample.index")
   + Z.of_nat (String.length (to_string 42)) + 2 < 2 ^ 31) ∧
  parse_field_name (check 1 "") "sample.index[42] = 1" 12
  = (Ret 16, set_arg (set_m_argstr (check 1 "") "42") true None 42).
Proof.
  assert (12 ≠ -1) as H1 by lia.
  assert (0 ≤ 42 ≤ ULONG_MAX) as H2 by (unfold ULONG_MAX; lia).
  assert (field_at (check 1 "") = Ret index_field) as H3
    by (vm_compute; reflexivity).
  assert (Z.of_nat (String.length "sample.index")
          + Z.of_nat (String.length (to_string 42)) + 2 < 2 ^ 31) as H4
    by (vm_compute; reflexivity).
  split.
  - exact (conj H1 (conj eq_refl (conj eq_refl (conj H2 (conj H3
             (conj eq_refl (conj eq_refl (conj eq_refl H4)))))))).
  - exact (parse_field_name_index (check 1 "") "sample.index" 42 " = 1" 12
             index_field H1 eq_refl eq_refl H2 H3 eq_refl eq_refl eq_refl H4).
Defined.

Lemma parse_field_name_index_and_key_witness :
  (10 ≠ -1 ∧
   find_first_of "[" "sample.any" = None ∧ find_first_of " " "sample.any" = None ∧
   find_first_of "]" "k1" = None ∧ find_first_of " " "k1" = None ∧
   field_at (check 2 "") = Ret any_field ∧
   has_flag (filtercheck_field_info.m_flags any_field) EPF_ARG_ALLOWED
   || has_flag (filtercheck_field_info.m_flags any_field) EPF_ARG_REQUIRED = true ∧
   has_flag (filtercheck_field_info.m_flags any_field) EPF_ARG_INDEX = true ∧
   has_flag (filtercheck_field_info.m_flags any_field) EPF_ARG_KEY = true ∧
   all_digits "k1" = false) ∧
  parse_field_name (check 2 "") "sample.any[k1] = 1" 10
  = (throw "filter sample.any[k1] = 1 sample.any has an invalid index argument not composed only by digits: k1",
     set_arg (set_m_argstr (check 2 "") "k1") true None 0).
Proof.
  assert (10 ≠ -1) as H1 by lia.
  assert (field_at (check 2 "") = Ret any_field) as H2
    by (vm_compute; reflexivity).
  split.
  - exact (conj H1 (conj eq_refl (conj eq_refl (conj eq_refl (conj eq_refl
             (conj H2 (conj eq_refl (conj eq_refl (conj eq_refl eq_refl))))))))).
  - exact (parse_field_name_index_and_key (check 2 "") "sample.any" "k1" " = 1"
             10 any_field H1 eq_refl eq_refl eq_refl eq_refl H2 eq_refl eq_refl
             eq_refl eq_refl).
Defined.

Lemma parse_field_name_rejects_argument_witness :
  (12 ≠ -1 ∧ field_at (check 3 "") = Ret plain_field) ∧
  (parse_field_name (check 3 "") "sample.plain[1]" 12).1
  = throw "filter sample.plain[1] sample.plain does not allow nor require an argument but one is provided: 1".
Proof.
  assert (12 ≠ -1) as H1 by lia.
  assert (field_at (check 3 "") = Ret plain_field) as H2
    by (vm_compute; reflexivity).
  split; [exact (conj H1 H2)|].
  exact (proj1 (parse_field_name_rejects_argument (check 3 "") "sample.plain[1]"
                  12 plain_field H1 H2)
           "sample.plain" "1" "" eq_refl eq_refl eq_refl eq_refl eq_refl eq_refl).
Defined.

Lemma parse_field_name_without_argument_witness :
  (field_at (check 2 "") = Ret any_field ∧
   find_first_of "[" (up_to_space "sample.any = 1") = None) ∧
  parse_field_name (check 2 "") "sample.any = 1" 10
  = (throw "filter sample.any = 1 sample.any requires an argument but none provided",
     set_arg (set_m_argstr (check 2 "") "") false None 0).
Proof.
  assert (field_at (check 2 "") = Ret any_field) as H1
    by (vm_compute; reflexivity).
  assert (find_first_of "[" (up_to_space "sample.any = 1") = None) as H2
    by reflexivity.
  split; [exact (conj H1 H2)|].
  exact (parse_field_name_without_argument (check 2 "") "sample.any = 1" 10
           any_field H1 H2).
Defined.

Lemma no_bitmap_consistent field_id :
  bitmap_consistent event_sources (check field_id "").
Proof. intros i b Hi. by destruct i. Defined.

Lemma extract_from_other :
  extract no_event_source_idx event_sources (check 1 "") (event_from 1) 322 0
    two_values []
  = (Ret (true, [{| len := 8; ptr := ptr_u64 10 |};
                 {| len := 8; ptr := ptr_u64 20 |}]),
     set_bitmap (check 1 "") [false; true]).
Proof. vm_compute. reflexivity. Defined.

Lemma extract_only_compatible_witness :
  (bitmap_consistent event_sources (check 1 "") ∧
   extract no_event_source_idx event_sources (check 1 "") (event_from 1) 322 0
     two_values []
   = (Ret (true, [{| len := 8; ptr := ptr_u64 10 |};
                  {| len := 8; ptr := ptr_u64 20 |}]),
      set_bitmap (check 1 "") [false; true])) ∧
  get_source_idx (event_from 1) ≠ no_event_source_idx ∧
  322 ∈ extract_event_codes (m_eplugin (check 1 "")) ∧
  (∃ source,
     event_sources !! Z.to_nat (get_source_idx (event_from 1)) = Some source ∧
     is_source_compatible (extract_event_sources (m_eplugin (check 1 ""))) source
     = true) ∧
  m_inited (m_eplugin (check 1 "")) = true ∧
  res_len two_values ≠ 0.
Proof.
  split; [exact (conj (no_bitmap_consistent 1) extract_from_other)|].
  exact (extract_only_compatible no_event_source_idx event_sources (check 1 "")
           (event_from 1) 322 0 two_values [] _ _ (no_bitmap_consistent 1)
           extract_from_other).
Defined.

Lemma extract_keeps_bitmap_witness :
  (bitmap_consistent event_sources (check 1 "") ∧
   extract no_event_source_idx event_sources (check 1 "") (event_from 0) 322 0
     two_values []
   = (Ret (false, []), set_bitmap (check 1 "") [false])) ∧
  bitmap_consistent event_sources (set_bitmap (check 1 "") [false]) ∧
  (∃ added, [false] = ([] ++ added)%list) ∧
  set_bitmap (check 1 "") [false]
  = set_bitmap (check 1 "") [false].
Proof.
  assert (extract no_event_source_idx event_sources (check 1 "") (event_from 0)
            322 0 two_values []
          = (Ret (false, []), set_bitmap (check 1 "") [false])) as H
    by (vm_compute; reflexivity).
  split; [exact (conj (no_bitmap_consistent 1) H)|].
  exact (extract_keeps_bitmap no_event_source_idx event_sources (check 1 "")
           (event_from 0) 322 0 two_values [] _ _ (no_bitmap_consistent 1) H).
Defined.

Lemma extract_values_witness :
  (field_at (check 1 "") = Ret index_field ∧
   extract no_event_source_idx event_sources (check 1 "") (event_from 1) 322 0
     two_values []
   = (Ret (true, [{| len := 8; ptr := ptr_u64 10 |};
                  {| len := 8; ptr := ptr_u64 20 |}]),
      set_bitmap (check 1 "") [false; true])) ∧
  List.length [{| len := 8; ptr := ptr_u64 10 |}; {| len := 8; ptr := ptr_u64 20 |}]
  = Z.to_nat (res_len two_values) ∧
  ∀ i v, [{| len := 8; ptr := ptr_u64 10 |}; {| len := 8; ptr := ptr_u64 20 |}] !! i
         = Some v →
         len v = 8 ∧ ∃ x, res_u64 two_values !! i = Some x ∧ ptr v = ptr_u64 x.
Proof.
  assert (field_at (check 1 "") = Ret index_field) as H
    by (vm_compute; reflexivity).
  split; [exact (conj H extract_from_other)|].
  exact (extract_values no_event_source_idx event_sources (check 1 "")
           (event_from 1) 322 0 two_values [] true _ _ index_field H
           extract_from_other).
Defined.

End RunsMore.
